(** * KLog: the field layout / text wrapping engine and the defaults cascade

    A shallow embedding of [klog/custom_formatter.py] (class
    [LogLineFormatter]) and [klog/defaults.py] (class [DefaultsManager]).

    - Python [str] is a list of Unicode code points ([str := list N]);
      [len] is [length], display width is [wcswidth].
    - Python [int] is [Z]; a slice bound or a repeat count that comes from
      an [int] is converted the way Python does it (negative counts give
      the empty string, negative slice bounds count from the end).
    - The [wcwidth] package is an external dependency: its per-character
      table is a parameter [wcwidth : char -> Z] of the development, and
      [wcswidth] is the package's loop over it.
    - Statements that can raise ([wrapped_word[-1]], [.items()] on a value
      that is not a dict, an attribute access on an object of another
      class, [setattr] under a name that cannot be written) are embedded
      in [option].
    - [DefaultsManager] mutates copies of shared objects; it is embedded
      over an explicit object store. *)

From stdpp Require Import base option list strings gmap.
From Stdlib Require Import ZArith NArith Lia.

Open Scope Z_scope.

(** ** Text *)

Definition char := N.
Definition str := list char.

Definition space : char := 32%N.
Definition newline : char := 10%N.

(** [str.isspace] for one code point (CPython's [Py_UNICODE_ISSPACE]). *)
Definition isspace (c : char) : bool :=
  ((9 <=? c) && (c <=? 13))%N || ((28 <=? c) && (c <=? 32))%N
  || (c =? 133)%N || (c =? 160)%N || (c =? 5760)%N
  || ((8192 <=? c) && (c <=? 8202))%N
  || (c =? 8232)%N || (c =? 8233)%N || (c =? 8239)%N || (c =? 8287)%N
  || (c =? 12288)%N.

(** [text.split()]: maximal runs of non-whitespace characters, in order.
    [word] is the run being scanned. *)
Fixpoint split_from (word : str) (text : str) : list str :=
  match text with
  | [] => match word with [] => [] | _ => [word] end
  | c :: rest =>
      if isspace c
      then match word with
           | [] => split_from [] rest
           | _ => word :: split_from [] rest
           end
      else split_from (word ++ [c]) rest
  end.

Definition split (text : str) : list str := split_from [] text.

(** [sep.join(parts)]. *)
Fixpoint join (sep : str) (parts : list str) : str :=
  match parts with
  | [] => []
  | [p] => p
  | p :: ps => p ++ sep ++ join sep ps
  end.

(** [range(0, stop, step)] for [step > 0]. *)
Definition range_step (stop step : nat) : list nat :=
  map (fun k => k * step)%nat (seq 0 ((stop + step - 1) / step)%nat).

(** [text[i:j]] for [0 <= i <= j]. *)
Definition slice (text : str) (i j : nat) : str := take (j - i) (drop i text).

(** [[text[i:i+n] for i in range(0, len(text), n)]] *)
Definition chunks (text : str) (n : nat) : list str :=
  map (fun i => slice text i (i + n)) (range_step (length text) n).

(** [text[:k]] for a Python int [k]. *)
Definition slice_to (text : str) (k : Z) : str :=
  if k <? 0 then take (length text - Z.to_nat (- k)) text
  else take (Z.to_nat k) text.

(** [s * k] for a Python int [k]. *)
Definition str_mul (s : str) (k : Z) : str := concat (replicate (Z.to_nat k) s).

Definition ljust (s : str) (width : Z) : str :=
  s ++ replicate (Z.to_nat (width - Z.of_nat (length s))) space.

Definition rjust (s : str) (width : Z) : str :=
  replicate (Z.to_nat (width - Z.of_nat (length s))) space ++ s.

(** [s.strip()] *)
Fixpoint lstrip (s : str) : str :=
  match s with
  | c :: rest => if isspace c then lstrip rest else s
  | [] => []
  end.

Definition strip (s : str) : str := rev (lstrip (rev (lstrip s))).

(** [s.split(sep)] for a one-character separator: empty pieces are kept. *)
Fixpoint split_on_from (sep : char) (piece : str) (s : str) : list str :=
  match s with
  | [] => [piece]
  | c :: rest =>
      if (c =? sep)%N then piece :: split_on_from sep [] rest
      else split_on_from sep (piece ++ [c]) rest
  end.

Definition split_on (sep : char) (s : str) : list str := split_on_from sep [] s.

(** A Rocq string literal as a [str] (ASCII only). *)
Fixpoint lit (s : string) : str :=
  match s with
  | EmptyString => []
  | String a s' => Ascii.N_of_ascii a :: lit s'
  end.


(** ** [klog/text_styles.py] *)

Definition ESC : char := 27%N.
Definition comma : char := 44%N.

Definition COLOR_CODES : list (str * str) :=
  [ (lit "light_red", ESC :: lit "[91m");
    (lit "red", ESC :: lit "[31m");
    (lit "dark_red", ESC :: lit "[31;2m");
    (lit "light_green", ESC :: lit "[92m");
    (lit "green", ESC :: lit "[32m");
    (lit "dark_green", ESC :: lit "[32;2m");
    (lit "light_yellow", ESC :: lit "[93m");
    (lit "yellow", ESC :: lit "[33m");
    (lit "dark_yellow", ESC :: lit "[33;2m");
    (lit "light_orange", ESC :: lit "[38;5;215m");
    (lit "orange", ESC :: lit "[38;5;208m");
    (lit "dark_orange", ESC :: lit "[38;5;202m");
    (lit "light_blue", ESC :: lit "[94m");
    (lit "blue", ESC :: lit "[34m");
    (lit "dark_blue", ESC :: lit "[34;2m");
    (lit "light_purple", ESC :: lit "[95m");
    (lit "purple", ESC :: lit "[35m");
    (lit "dark_purple", ESC :: lit "[35;2m");
    (lit "light_pink", ESC :: lit "[95m");
    (lit "pink", ESC :: lit "[38;5;205m");
    (lit "dark_pink", ESC :: lit "[38;5;95m");
    (lit "white", ESC :: lit "[37m");
    (lit "grey", ESC :: lit "[90m");
    (lit "black", ESC :: lit "[30m");
    (lit "reset", ESC :: lit "[0m") ].

Definition STYLE_CODES : list (str * str) :=
  [ (lit "bold", ESC :: lit "[1m");
    (lit "italic", ESC :: lit "[3m");
    (lit "underlined", ESC :: lit "[4m");
    (lit "blink", ESC :: lit "[5m");
    (lit "reverse", ESC :: lit "[7m");
    (lit "hidden", ESC :: lit "[8m");
    (lit "default", []) ].

(** [COLOR_CODES['reset']] *)
Definition reset_code : str := ESC :: lit "[0m".

(** ** Display width (package [wcwidth]) *)

Section DisplayWidth.

(** The package's per-character table: -1 for a non-printable character,
    0 for a zero-width one, 2 for a wide one, 1 otherwise. *)
Variable wcwidth : char -> Z.

(** [wcswidth(pwcs)]: the loop of the package, [width] its accumulator.
    One non-printable character makes the whole string -1. *)
Fixpoint wcswidth_from (width : Z) (pwcs : str) : Z :=
  match pwcs with
  | [] => width
  | c :: rest =>
      let wcw := wcwidth c in
      if wcw <? 0 then -1 else wcswidth_from (width + wcw) rest
  end.

Definition wcswidth (pwcs : str) : Z := wcswidth_from 0 pwcs.

(** ** [LogLineFormatter._wrap_text] *)

(** The loop state of the word-wrapping branch. *)
Record wrap_state := WrapState {
  lines : list str;
  current_line : list str;
  current_width : Z
}.

Definition wrap_init : wrap_state := WrapState [] [] 0.

(** One iteration of [for word in words]. *)
Definition wrap_word (max_width : Z) (st : wrap_state) (word : str)
  : option wrap_state :=
  let word_width := wcswidth word in
  if current_width st
     + (match current_line st with [] => 0 | _ => 1 end)
     + word_width <=? max_width
  then
    let st1 :=
      match current_line st with
      | [] => st
      | _ => WrapState (lines st) (current_line st ++ [[space]])
                       (current_width st + 1)
      end in
    Some (WrapState (lines st1) (current_line st1 ++ [word])
                    (current_width st1 + word_width))
  else
    let st1 :=
      match current_line st with
      | [] => st
      | _ => WrapState (lines st ++ [concat (current_line st)]) [] 0
      end in
    if word_width >? max_width then
      let wrapped_word := chunks word (Z.to_nat max_width) in
      tail ← last wrapped_word;
      Some (WrapState (lines st1 ++ removelast wrapped_word)
                      [tail] (wcswidth tail))
    else
      Some (WrapState (lines st1) [word] word_width).

Fixpoint wrap_words (max_width : Z) (words : list str) (st : wrap_state)
  : option wrap_state :=
  match words with
  | [] => Some st
  | word :: rest =>
      st' ← wrap_word max_width st word;
      wrap_words max_width rest st'
  end.

(** What the function returns once the loop is over. *)
Definition wrap_finish (st : wrap_state) : list str :=
  match current_line st with
  | [] => lines st
  | _ => lines st ++ [concat (current_line st)]
  end.

Definition _wrap_text (text : str) (max_width : Z) (word_wrap : bool)
  : option (list str) :=
  if bool_decide (text = []) || (max_width <=? 0) then Some []
  else if negb word_wrap then Some (chunks text (Z.to_nat max_width))
  else
    st ← wrap_words max_width (split text) wrap_init;
    Some (wrap_finish st).

(** ** Configuration as [LogLineFormatter] reads it *)

(** The four keys of [LogConfig.fields]. *)
Inductive field_name := Message | Padding | Reason | Status.

Record FieldConfig := {
  min_width : Z;
  max_width : option Z;
  leading_char : str;
  closing_char : str;
  padding_char : str;
  color : option str;
  style : option str;
  wrap : bool;
  word_wrap : bool
}.

Record LogConfig := {
  total_width : Z;
  fields : field_name -> FieldConfig
}.

(** ** [LogLineFormatter._apply_style] *)

Fixpoint dict_get (d : list (str * str)) (key : str) (default : str) : str :=
  match d with
  | [] => default
  | (k, v) :: d' => if bool_decide (k = key) then v else dict_get d' key default
  end.

Definition _apply_style (text : str) (color style : option str) : str :=
  let text :=
    match color with
    | Some (c :: cs) =>
        let color_code := dict_get COLOR_CODES (strip (c :: cs)) [] in
        color_code ++ text ++ reset_code
    | _ => text
    end in
  match style with
  | Some (c :: cs) =>
      let style_list := split_on comma (c :: cs) in
      let style_codes :=
        concat (map (fun s => dict_get STYLE_CODES (strip s) [])
                    (filter (fun s => strip s <> []) style_list)) in
      style_codes ++ text ++ reset_code
  | _ => text
  end.

(** ** [LogLineFormatter._calculate_widths] *)

(** The dict the function returns. *)
Record widths := Widths {
  w_message : Z;
  w_reason : Z;
  w_status : Z;
  w_padding : Z
}.

Definition len (s : str) : Z := Z.of_nat (length s).

(** [if reason] for an optional string: neither [None] nor empty. *)
Definition truthy (s : option str) : bool :=
  match s with Some (_ :: _) => true | _ => false end.

Definition text_of (s : option str) : str := default [] s.

(** The body of [for field, width in widths.items()] for one entry. *)
Definition apply_max_width (fc : FieldConfig) (width : Z) : Z :=
  if width >? 0 then
    match max_width fc with
    | Some m => if m =? 0 then width else Z.min width m
    | None => width
    end
  else width.

Definition decoration (fc : FieldConfig) : Z :=
  len (leading_char fc) + len (closing_char fc).

Definition _calculate_widths (config : LogConfig)
    (message : str) (reason status : option str) : widths :=
  let fields := fields config in
  let message0 := wcswidth message + decoration (fields Message) in
  let reason0 :=
    if truthy reason
    then wcswidth (text_of reason) + decoration (fields Reason) else 0 in
  let status0 :=
    if truthy status
    then wcswidth (text_of status) + decoration (fields Status) else 0 in
  let message1 := apply_max_width (fields Message) message0 in
  let reason1 := apply_max_width (fields Reason) reason0 in
  let status1 := apply_max_width (fields Status) status0 in
  let used_width := message1 + reason1 + status1 in
  let padding_field := fields Padding in
  let min_padding := min_width padding_field + decoration padding_field in
  let total_padding := total_width config - used_width in
  Widths message1 reason1 status1 (Z.max min_padding total_padding).

(** ** [LogLineFormatter._format_field] *)

Definition align (name : field_name) (raw : str) (width : Z) : str :=
  match name with
  | Message => ljust raw width
  | Status => raw
  | _ => rjust raw width
  end.

Definition _format_field (config : LogConfig)
    (content : str) (name : field_name) (width : Z) : option (list str) :=
  let field_config := fields config name in
  match name with
  | Padding =>
      let inner_width :=
        width - len (leading_char field_config)
              - len (closing_char field_config) in
      Some [leading_char field_config
            ++ str_mul (padding_char field_config) inner_width
            ++ closing_char field_config]
  | _ =>
      let max_content_width :=
        width - len (leading_char field_config)
              - len (closing_char field_config) in
      if negb (wrap field_config) then
        let truncated :=
          if wcswidth content >? max_content_width
          then slice_to content max_content_width else content in
        let raw :=
          leading_char field_config ++ truncated
          ++ closing_char field_config in
        Some [align name raw width]
      else
        wrapped_lines ←
          _wrap_text content max_content_width (word_wrap field_config);
        let formatted_lines :=
          imap (fun i line =>
                  let raw :=
                    (if (i =? 0)%nat then leading_char field_config else [])
                    ++ line
                    ++ (if (i =? length wrapped_lines - 1)%nat
                        then closing_char field_config else []) in
                  align name raw width) wrapped_lines in
        Some (match formatted_lines with [] => [[]] | _ => formatted_lines end)
  end.

(** ** [LogLineFormatter.format_line] *)

Definition styled (config : LogConfig) (name : field_name) (text : str) : str :=
  _apply_style text (color (fields config name)) (style (fields config name)).

(** The four steps of the loop body, each giving the parts it appends to
    [line_parts]. *)
Definition message_part (config : LogConfig) (w : widths)
    (message_lines : list str) (i : nat) : str :=
  let msg :=
    match message_lines !! i with
    | Some l => l
    | None => str_mul [space] (w_message w)
    end in
  styled config Message msg.

Definition padding_part (config : LogConfig) (padding : str) : str :=
  styled config Padding padding.

Definition reason_part (config : LogConfig) (w : widths)
    (reason_lines : list str) (i : nat) : list str :=
  match reason_lines with
  | [] => []
  | _ =>
      let rsn :=
        match reason_lines !! i with
        | Some l => l
        | None => str_mul [space] (w_reason w)
        end in
      [styled config Reason rsn]
  end.

Definition status_part (config : LogConfig) (w : widths)
    (status : option str) (status_lines : list str) (i : nat) : list str :=
  match status_lines, i with
  | first :: _, O => [styled config Status first]
  | _, _ =>
      if truthy status && (0 <? i)%nat
      then [str_mul [space] (w_status w)] else []
  end.

Definition line_parts (config : LogConfig) (w : widths)
    (message_lines : list str) (padding : str)
    (reason_lines : list str) (status : option str)
    (status_lines : list str) (i : nat) : list str :=
  [message_part config w message_lines i; padding_part config padding]
  ++ reason_part config w reason_lines i
  ++ status_part config w status status_lines i.

(** Everything [format_line] computes before it joins the lines. *)
Record layout := Layout {
  l_widths : widths;
  l_message_lines : list str;
  l_padding : str;
  l_reason_lines : list str;
  l_status_lines : list str;
  l_max_lines : nat
}.

Definition format_layout (config : LogConfig)
    (message : str) (reason status : option str) : option layout :=
  let w := _calculate_widths config message reason status in
  message_lines ← _format_field config message Message (w_message w);
  padding ← _format_field config [] Padding (w_padding w) ≫= head;
  reason_lines ←
    (if truthy reason && (w_reason w >? 0)
     then _format_field config (text_of reason) Reason (w_reason w)
     else Some []);
  status_lines ←
    (if truthy status && (w_status w >? 0)
     then _format_field config (text_of status) Status (w_status w)
     else Some []);
  let max_lines :=
    (length message_lines `max` (length reason_lines
       `max` (length status_lines `max` 1)))%nat in
  Some (Layout w message_lines padding reason_lines status_lines max_lines).

Definition formatted_lines (config : LogConfig) (status : option str)
    (l : layout) : list str :=
  map (fun i =>
         concat (line_parts config (l_widths l) (l_message_lines l)
                            (l_padding l) (l_reason_lines l) status
                            (l_status_lines l) i))
      (seq 0 (l_max_lines l)).

Definition format_line (config : LogConfig)
    (message : str) (reason status : option str) : option str :=
  l ← format_layout config message reason status;
  Some (join [newline] (formatted_lines config status l)).

End DisplayWidth.

(** A fragment of the [wcwidth] table, for running the functions on
    concrete text: C0/C1 controls are non-printable; NUL, the combining
    diacritical marks and the zero width space are zero-width; Hangul
    jamo, hiragana, katakana, CJK unified ideographs, Hangul syllables,
    full-width forms, the check and cross marks and the emoticons are
    wide.  Every other character is given one column, which is right for
    printable ASCII and Latin-1. *)
Definition wcwidth_sample (c : char) : Z :=
  if (c =? 0)%N then 0
  else if (c <? 32)%N || ((127 <=? c) && (c <? 160))%N then -1
  else if ((768 <=? c) && (c <=? 879))%N || (c =? 8203)%N then 0
  else if ((4352 <=? c) && (c <=? 4447))%N
          || ((12353 <=? c) && (c <=? 12438))%N
          || ((12449 <=? c) && (c <=? 12538))%N
          || ((19968 <=? c) && (c <=? 40869))%N
          || ((44032 <=? c) && (c <=? 55203))%N
          || ((65281 <=? c) && (c <=? 65376))%N
          || (c =? 9989)%N || (c =? 10060)%N
          || ((128512 <=? c) && (c <=? 128591))%N
       then 2
  else 1.

(** ** [CustomFormatter._get_template_name_from_path]

    [os.path] is [posixpath]: the paths of a Jinja loader are separated by
    slashes. *)

Definition slash : char := 47%N.

(** [s.rfind(c)] for a character [c]: the last position of [c], or -1. *)
Fixpoint rfind (c : char) (s : str) : Z :=
  match s with
  | [] => -1
  | x :: s' =>
      let i := rfind c s' in
      if i =? -1 then (if (x =? c)%N then 0 else -1) else i + 1
  end.

(** [s.rstrip(c)] for a character [c]. *)
Fixpoint lstrip_char (c : char) (s : str) : str :=
  match s with
  | x :: s' => if (x =? c)%N then lstrip_char c s' else s
  | [] => []
  end.

Definition rstrip_char (c : char) (s : str) : str :=
  rev (lstrip_char c (rev s)).

(** [posixpath.dirname] and [posixpath.basename] *)
Definition dirname (p : str) : str :=
  let i := rfind slash p + 1 in
  let head := take (Z.to_nat i) p in
  if bool_decide (head <> [])
     && bool_decide (head <> replicate (length head) slash)
  then rstrip_char slash head
  else head.

Definition basename (p : str) : str :=
  let i := rfind slash p + 1 in
  drop (Z.to_nat i) p.

Definition _get_template_name_from_path (template_path : str) : str :=
  let dirname := dirname template_path in
  match dirname with
  | _ :: _ => basename dirname
  | [] => lit "default"
  end.

(** ** [klog/defaults.py]: the defaults cascade over an object store *)

Module Defaults.

(** Objects live in a store and are named by their address. *)
Abbreviation loc := nat.

(** Values held in attributes and in the override blobs.  [None], numbers,
    strings and booleans are immutable.  A dict is given by its entries, in
    insertion order, which is the order [.items()] walks them in: it has no
    address here, so it is read and compared by value, and what this model
    says of a dict held as an attribute value is its value only, not who
    else holds it.  A value with identity and state of its own that
    [deepcopy] keeps as it is, a function object, is the address of an
    object of the store: whoever holds the value holds that object. *)
#[warnings="-register-all"] Inductive pyval :=
| PNone
| PInt (n : Z)
| PStr (s : string)
| PBool (b : bool)
| PDict (items : list (string * pyval))
| PFunc (l : loc).

Abbreviation dict := (list (string * pyval)).

(** [key in d] and [d[key]] *)
Fixpoint dict_lookup {A} (key : string) (d : list (string * A)) : option A :=
  match d with
  | [] => None
  | (k, v) :: d' => if String.eqb k key then Some v else dict_lookup key d'
  end.

(** [v.items()]: raises unless [v] is a dict. *)
Definition items (v : pyval) : option dict :=
  match v with PDict d => Some d | _ => None end.

(** The objects of the store.  A [FieldConfig] instance is its instance
    dictionary; a [LogConfig] instance holds [total_width], the [fields]
    dict (field name to the address of a [FieldConfig]) and
    [level_styles]; an override blob is a dict object; a function object
    is its attribute dictionary ([f.__dict__]), which anyone who holds the
    function can write to. *)
Inductive obj :=
| OFieldConfig (attrs : gmap string pyval)
| OLogConfig (total_width : pyval) (fields : list (string * loc))
             (level_styles : dict)
| ODict (d : dict)
| OFunction (attrs : dict).

Abbreviation store := (list obj).

Definition alloc (h : store) (o : obj) : store * loc := (h ++ [o], length h).

(** [setattr(obj, key, value)] on a [FieldConfig] instance.  The class
    is a plain dataclass, so a name is stored in the instance dictionary
    unless [object] or the class has a data descriptor for it, and there
    are three of those: [__class__] takes a class only and [__weakref__]
    cannot be written, so both raise for every value here; [__dict__]
    takes a dict only, which then is the instance dictionary, and raises
    for any other value.  The value is stored as it is given: an address
    stays the address of the same object, which the blob holds too; of a
    dict the entries are stored, so that the statements about who holds
    what ([independent]) are made for values that are not dicts. *)
Definition setattr (h : store) (l : loc) (key : string) (value : pyval)
  : option store :=
  match h !! l with
  | Some (OFieldConfig attrs) =>
      if bool_decide (key = "__class__") || bool_decide (key = "__weakref__")
      then None
      else if bool_decide (key = "__dict__") then
        match value with
        | PDict d => Some (<[l := OFieldConfig (list_to_map d)]> h)
        | _ => None
        end
      else Some (<[l := OFieldConfig (<[key := value]> attrs)]> h)
  | _ => None
  end.

(** [for key, value in d.items(): setattr(obj, key, value)] *)
Fixpoint setattrs (h : store) (l : loc) (d : dict) : option store :=
  match d with
  | [] => Some h
  | (key, value) :: d' => h' ← setattr h l key value; setattrs h' l d'
  end.

(** [deepcopy] of the values of the [fields] dict; [memo] maps the
    objects already copied to their copies, so that sharing is kept.  The
    copy of a [FieldConfig] has an instance dictionary of its own with the
    copies of the values: an immutable value is itself, a dict is a new
    dict with the same entries, and a function object is kept as it is
    ([copy] treats functions as atomic), so that its address is copied. *)
Fixpoint copy_fields (h : store) (memo : gmap loc loc)
    (fs : list (string * loc)) : option (store * list (string * loc)) :=
  match fs with
  | [] => Some (h, [])
  | (name, l) :: rest =>
      match memo !! l with
      | Some l' =>
          '(h', rest') ← copy_fields h memo rest;
          Some (h', (name, l') :: rest')
      | None =>
          match h !! l with
          | Some (OFieldConfig attrs) =>
              let '(h1, l') := alloc h (OFieldConfig attrs) in
              '(h', rest') ← copy_fields h1 (<[l := l']> memo) rest;
              Some (h', (name, l') :: rest')
          | _ => None
          end
      end
  end.

(** [deepcopy(config)] for a [LogConfig] instance. *)
Definition deepcopy (h : store) (l : loc) : option (store * loc) :=
  match h !! l with
  | Some (OLogConfig tw fs ls) =>
      '(h1, fs') ← copy_fields h ∅ fs;
      Some (alloc h1 (OLogConfig tw fs' ls))
  | _ => None
  end.

(** [config.fields] *)
Definition fields_of (h : store) (l : loc) : option (list (string * loc)) :=
  match h !! l with
  | Some (OLogConfig _ fs _) => Some fs
  | _ => None
  end.

(** [config.level_styles] *)
Definition level_styles_of (h : store) (l : loc) : option dict :=
  match h !! l with
  | Some (OLogConfig _ _ ls) => Some ls
  | _ => None
  end.

(** [result.total_width = value] *)
Definition set_total_width (h : store) (l : loc) (value : pyval)
  : option store :=
  match h !! l with
  | Some (OLogConfig _ fs ls) => Some (<[l := OLogConfig value fs ls]> h)
  | _ => None
  end.

(** The loop shared by the merge and by the level styles:
    [for field_name, field_config in entries.items():
       if field_name in config.fields:
         for key, value in field_config.items():
           setattr(config.fields[field_name], key, value)] *)
Fixpoint patch_fields (h : store) (config : loc) (entries : dict)
  : option store :=
  match entries with
  | [] => Some h
  | (field_name, field_config) :: rest =>
      fs ← fields_of h config;
      h' ← match dict_lookup field_name fs with
           | Some l => d ← items field_config; setattrs h l d
           | None => Some h
           end;
      patch_fields h' config rest
  end.

(** The blob at an address. *)
Definition dict_at (h : store) (l : loc) : option dict :=
  match h !! l with
  | Some (ODict d) => Some d
  | _ => None
  end.

(** [DefaultsManager._merge_defaults(base, override)] *)
Definition _merge_defaults (h : store) (base : loc) (override : loc)
  : option (store * loc) :=
  ov ← dict_at h override;
  '(h1, result) ← deepcopy h base;
  h2 ← match dict_lookup "total_width" ov with
       | Some value => set_total_width h1 result value
       | None => Some h1
       end;
  h3 ← match dict_lookup "fields" ov with
       | Some fields => entries ← items fields; patch_fields h2 result entries
       | None => Some h2
       end;
  Some (h3, result).

(** [if d:] for an optional dict argument. *)
Definition nonempty_dict (h : store) (l : option loc) : option (option loc) :=
  match l with
  | None => Some None
  | Some l => d ← dict_at h l;
              Some (match d with [] => None | _ => Some l end)
  end.

(** [DefaultsManager.get_effective_defaults]; [system_defaults] is
    [self.system_defaults], [kwargs] the dict of the extra keyword
    arguments.  [instance_id] and [template_name] are not read. *)
Definition get_effective_defaults (h : store) (system_defaults : loc)
    (instance_id : string) (template_name : option string)
    (level : option string) (template_config : option loc)
    (kwargs : loc) : option (store * loc) :=
  '(h, config) ← deepcopy h system_defaults;
  tc ← nonempty_dict h template_config;
  '(h, config) ← match tc with
                 | Some tc => _merge_defaults h config tc
                 | None => Some (h, config)
                 end;
  level_styles ← level_styles_of h config;
  h ← match level with
      | Some (String a s) =>
          match dict_lookup (String a s) level_styles with
          | Some styles => entries ← items styles;
                           patch_fields h config entries
          | None => Some h
          end
      | _ => Some h
      end;
  kw ← nonempty_dict h (Some kwargs);
  match kw with
  | Some kw => _merge_defaults h config kw
  | None => Some (h, config)
  end.

(** *** Reading a configuration out of the store *)

(** A [LogConfig] with the objects it refers to, addresses forgotten. *)
Record config_value := ConfigValue {
  cv_total_width : pyval;
  cv_fields : list (string * gmap string pyval);
  cv_level_styles : dict
}.

Definition field_at (h : store) (l : loc) : option (gmap string pyval) :=
  match h !! l with
  | Some (OFieldConfig attrs) => Some attrs
  | _ => None
  end.

Definition value_of (h : store) (l : loc) : option config_value :=
  match h !! l with
  | Some (OLogConfig tw fs ls) =>
      fvs ← mapM (fun '(name, lf) => a ← field_at h lf; Some (name, a)) fs;
      Some (ConfigValue tw fvs ls)
  | _ => None
  end.

(** *** The configuration as the formatter reads it

    [LogLineFormatter] reads the attributes of the four fields with the
    types the dataclass declares. *)

Definition as_int (v : pyval) : option Z :=
  match v with PInt n => Some n | _ => None end.

Definition as_optional_int (v : pyval) : option (option Z) :=
  match v with PInt n => Some (Some n) | PNone => Some None | _ => None end.

Definition as_str (v : pyval) : option str :=
  match v with PStr s => Some (lit s) | _ => None end.

Definition as_optional_str (v : pyval) : option (option str) :=
  match v with
  | PStr s => Some (Some (lit s))
  | PNone => Some None
  | _ => None
  end.

Definition as_bool (v : pyval) : option bool :=
  match v with PBool b => Some b | _ => None end.

Definition field_config_of (attrs : gmap string pyval) : option FieldConfig :=
  min_width ← attrs !! "min_width" ≫= as_int;
  max_width ← attrs !! "max_width" ≫= as_optional_int;
  leading_char ← attrs !! "leading_char" ≫= as_str;
  closing_char ← attrs !! "closing_char" ≫= as_str;
  padding_char ← attrs !! "padding_char" ≫= as_str;
  color ← attrs !! "color" ≫= as_optional_str;
  style ← attrs !! "style" ≫= as_optional_str;
  wrap ← attrs !! "wrap" ≫= as_bool;
  word_wrap ← attrs !! "word_wrap" ≫= as_bool;
  Some {| min_width := min_width; max_width := max_width;
          leading_char := leading_char; closing_char := closing_char;
          padding_char := padding_char; color := color; style := style;
          wrap := wrap; word_wrap := word_wrap |}.

Definition log_config_of (cv : config_value) : option LogConfig :=
  total_width ← as_int (cv_total_width cv);
  message ← dict_lookup "message" (cv_fields cv) ≫= field_config_of;
  padding ← dict_lookup "padding" (cv_fields cv) ≫= field_config_of;
  reason ← dict_lookup "reason" (cv_fields cv) ≫= field_config_of;
  status ← dict_lookup "status" (cv_fields cv) ≫= field_config_of;
  Some {| total_width := total_width;
          fields := fun name =>
            match name with
            | Message => message
            | Padding => padding
            | Reason => reason
            | Status => status
            end |}.

(** *** [LogConfig()] with the defaults of the dataclass *)

Definition attrs_of (min_width max_width : pyval)
    (leading_char closing_char padding_char : string)
    (wrap word_wrap : bool) : gmap string pyval :=
  list_to_map
    [ ("min_width", min_width); ("max_width", max_width);
      ("leading_char", PStr leading_char);
      ("closing_char", PStr closing_char);
      ("padding_char", PStr padding_char);
      ("color", PNone); ("style", PNone);
      ("wrap", PBool wrap); ("word_wrap", PBool word_wrap) ].

Definition level_style (color style : string) : pyval :=
  PDict [("status", PDict [("color", PStr color); ("style", PStr style)])].

Definition default_level_styles : dict :=
  [ ("DEBUG", level_style "blue" "bold");
    ("INFO", level_style "green" "bold");
    ("WARNING", level_style "yellow" "bold");
    ("ERROR", level_style "red" "bold");
    ("CRITICAL", level_style "red" "bold,blink") ].

(** The store after [LogConfig()] has run in an empty store: the four
    [FieldConfig] objects at 0..3, the [LogConfig] at 4. *)
Definition default_store : store :=
  [ OFieldConfig (attrs_of (PInt 20) (PInt 55) EmptyString EmptyString " " true true);
    OFieldConfig (attrs_of (PInt 1) PNone " " " " "." true true);
    OFieldConfig (attrs_of (PInt 0) (PInt 22) "(" ")" " " false true);
    OFieldConfig (attrs_of (PInt 0) (PInt 10) EmptyString EmptyString " " false true);
    OLogConfig (PInt 80)
      [("message", 0%nat); ("padding", 1%nat);
       ("reason", 2%nat); ("status", 3%nat)]
      default_level_styles ].

Definition four_fields : list string :=
  ["message"; "padding"; "reason"; "status"].

(** *** Sample blobs and a store holding them *)

Definition red_message : string * pyval :=
  ("message", PDict [("color", PStr "red")]).

Definition wide_status : string * pyval :=
  ("status", PDict [("max_width", PInt 12)]).

(** A template config with an entry for the unknown field ['extra'], and
    the same without it. *)
Definition blob_unknown : dict :=
  [ ("total_width", PInt 100);
    ("fields", PDict [red_message; ("extra", PInt 3); wide_status]) ].

Definition blob_known : dict :=
  [ ("total_width", PInt 100);
    ("fields", PDict [red_message; wide_status]) ].

(** [default_store] followed by the two blobs at 5 and 6 and an empty dict
    at 7. *)
Definition sample_store : store :=
  default_store ++ [ODict blob_unknown; ODict blob_known; ODict []].

(** The result of the cascade in [sample_store] for level INFO, with the
    blob at 5 as template config and no per-call override. *)
Definition sample_result : store * loc :=
  default ([], 0%nat)
    (get_effective_defaults sample_store 4%nat "id" (Some "default")
       (Some "INFO") (Some 5%nat) 7%nat).

(** *** Vocabulary of the statements about the store *)

Local Open Scope nat_scope.

(** [config.fields.keys()] *)
Definition field_names (h : store) (l : loc) : option (list string) :=
  fs ← fields_of h l; Some (fs.*1).

Definition is_field (o : obj) : Prop :=
  match o with OFieldConfig _ => True | _ => False end.

(** Two objects that differ at most in the attributes of a [FieldConfig]. *)
Definition same_kind (o o' : obj) : Prop :=
  match o with OFieldConfig _ => is_field o' | _ => o' = o end.

(** Two stores with the same objects up to attributes of [FieldConfig]s. *)
Definition shape (h h' : store) : Prop := Forall2 same_kind h h'.

(** The objects below address [n] are the same in both stores. *)
Definition unchanged_below (n : nat) (h h' : store) : Prop :=
  forall l, l < n -> h' !! l = h !! l.

(** The configuration at [c] and all its [FieldConfig]s were allocated at
    or after address [n]. *)
Definition fresh_config (n : nat) (h : store) (c : loc) : Prop :=
  n <= c /\ exists fs, fields_of h c = Some fs /\ Forall (fun p => n <= p.2) fs.

(** Moving the objects allocated from address [n] on by [k]: an address, a
    [fields] dict, an object. *)
Definition move (n k : nat) (l : loc) : loc := if decide (l < n) then l else l + k.

Definition move_fields (n k : nat) (fs : list (string * loc))
  : list (string * loc) :=
  (fun p => (p.1, move n k p.2)) <$> fs.

Definition move_obj (n k : nat) (o : obj) : obj :=
  match o with
  | OLogConfig tw fs ls => OLogConfig tw (move_fields n k fs) ls
  | _ => o
  end.

(** Store [b] is store [a] with the objects from address [n] on moved by
    [k]; below [n] the stores agree and every address held there is below
    [n]; no blob lives from [n] on. *)
Definition moved (n k : nat) (a b : store) : Prop :=
  length b = length a + k
  /\ n <= length a
  /\ (forall l, l < n -> b !! l = a !! l)
  /\ (forall l, n <= l -> b !! (l + k) = move_obj n k <$> a !! l)
  /\ (forall l d, a !! l = Some (ODict d) -> l < n).

(** The configuration at [l] in [a] is found, moved, at the moved address
    in [b]. *)
Definition moved_config (n k : nat) (a b : store) (l : loc) : Prop :=
  forall tw fs ls,
    a !! l = Some (OLogConfig tw fs ls) ->
    b !! move n k l = Some (OLogConfig tw (move_fields n k fs) ls).

(** The value of [LogConfig()]: what [value_of] reads at address 4 of
    [default_store]. *)
Definition default_value : config_value :=
  ConfigValue (PInt 80)
    [ ("message",
       attrs_of (PInt 20) (PInt 55) EmptyString EmptyString " " true true);
      ("padding", attrs_of (PInt 1) PNone " " " " "." true true);
      ("reason", attrs_of (PInt 0) (PInt 22) "(" ")" " " false true);
      ("status",
       attrs_of (PInt 0) (PInt 10) EmptyString EmptyString " " false true) ]
    default_level_styles.

(** *** Vocabulary of the statements about the cascade *)

(** [config.total_width] *)
Definition total_width_of (h : store) (l : loc) : option pyval :=
  match h !! l with
  | Some (OLogConfig tw _ _) => Some tw
  | _ => None
  end.

(** [vars(config.fields[name]).get(key)]: the entry of the instance
    dictionary of the field, which is what [getattr] reads for every name
    the dictionary has. *)
Definition attr_of (h : store) (config : loc) (name key : string)
  : option pyval :=
  fs ← fields_of h config;
  l ← dict_lookup name fs;
  attrs ← field_at h l;
  attrs !! key.

(** [entries[name][key]], if there is one. *)
Definition lookup_attr (entries : dict) (name key : string) : option pyval :=
  v ← dict_lookup name entries;
  d ← items v;
  dict_lookup key d.

(** The entries of [blob['fields']]; none when the blob has no such key. *)
Definition fields_entries (blob : dict) : dict :=
  match dict_lookup "fields" blob with
  | Some (PDict e) => e
  | _ => []
  end.

(** The entries of [level_styles[level]]; none when no level is given or
    the level has no styles. *)
Definition level_entries (level_styles : dict) (level : option string)
  : dict :=
  match level with
  | Some (String a s) =>
      match dict_lookup (String a s) level_styles with
      | Some (PDict e) => e
      | _ => []
      end
  | _ => []
  end.

(** The dict an optional blob argument stands for: [None] counts as the
    empty dict. *)
Definition blob_of (h : store) (l : option loc) : option dict :=
  match l with
  | Some l => dict_at h l
  | None => Some []
  end.

(** The first value that is there. *)
Fixpoint first_of {A} (l : list (option A)) : option A :=
  match l with
  | [] => None
  | Some x :: _ => Some x
  | None :: l' => first_of l'
  end.

(** The keys of a dict, and of the dicts it holds, are distinct: what
    every Python dict satisfies. *)
Fixpoint unique_keys (v : pyval) : bool :=
  match v with
  | PDict d =>
      bool_decide (NoDup d.*1) && forallb (fun p => unique_keys p.2) d
  | _ => true
  end.

Definition is_dict (v : pyval) : bool :=
  match v with PDict _ => true | _ => false end.

(** Whether [setattr(obj, key, value)] goes through on a [FieldConfig]:
    not for [__class__] and [__weakref__], for [__dict__] with a dict
    only. *)
Definition can_set (key : string) (value : pyval) : bool :=
  if bool_decide (key = "__class__") || bool_decide (key = "__weakref__")
  then false
  else if bool_decide (key = "__dict__") then is_dict value
  else true.

(** A value whose items [setattr] accepts one after the other: a dict of
    such names and values. *)
Definition settable (v : pyval) : bool :=
  match v with
  | PDict d => forallb (fun p => can_set p.1 p.2) d
  | _ => false
  end.

(** A value the patch loop can walk: a dict whose entries for the fields
    [names] are dicts that [setattr] accepts. *)
Definition patchable (names : list string) (v : pyval) : bool :=
  match v with
  | PDict e =>
      forallb (fun p => negb (bool_decide (p.1 ∈ names)) || settable p.2) e
  | _ => false
  end.

(** A blob [_merge_defaults] can merge: its ['fields'] entry, if it has
    one, is patchable. *)
Definition blob_ok (names : list string) (blob : dict) : bool :=
  match dict_lookup "fields" blob with
  | Some v => patchable names v
  | None => true
  end.

(** The styles of the level, if the level is given and known, are
    patchable. *)
Definition level_ok (names : list string) (level_styles : dict)
    (level : option string) : bool :=
  match level with
  | Some (String a s) =>
      match dict_lookup (String a s) level_styles with
      | Some v => patchable names v
      | None => true
      end
  | _ => true
  end.

(** *** Vocabulary of the statements about shared objects *)

(** An immutable value: [None], a number, a string, a boolean. *)
Definition immutable (v : pyval) : bool :=
  match v with
  | PDict _ | PFunc _ => false
  | _ => true
  end.

(** The addresses a value holds. *)
Fixpoint refs_of (v : pyval) : list loc :=
  match v with
  | PFunc l => [l]
  | PDict d => flat_map (fun p => refs_of p.2) d
  | _ => []
  end.

(** A configuration that holds no address: its values are immutable
    values and dicts of such. *)
Definition plain (cv : config_value) : Prop :=
  refs_of (cv_total_width cv) = []
  /\ Forall (fun p => map_Forall (fun _ v => refs_of v = []) p.2)
            (cv_fields cv)
  /\ refs_of (PDict (cv_level_styles cv)) = [].

(** The entries for the fields [names] give immutable values to the
    attributes they set. *)
Definition immutable_entries (names : list string) (entries : dict) : bool :=
  forallb (fun p => negb (bool_decide (p.1 ∈ names))
                    || match p.2 with
                       | PDict d => forallb (fun q => immutable q.2) d
                       | _ => true
                       end) entries.

(** A blob that gives immutable values: to [total_width], if it has the
    key, and to the attributes of the fields [names]. *)
Definition immutable_blob (names : list string) (blob : dict) : bool :=
  match dict_lookup "total_width" blob with
  | Some v => immutable v
  | None => true
  end
  && immutable_entries names (fields_entries blob).

(** Every [FieldConfig] whose instance dictionary holds no address in [h]
    is one in [h'] as well. *)
Definition keeps_plain (h h' : store) : Prop :=
  forall l a,
    field_at h l = Some a -> map_Forall (fun _ v => refs_of v = []) a ->
    exists a',
      field_at h' l = Some a' /\ map_Forall (fun _ v => refs_of v = []) a'.

(** The objects the configuration at [r] holds: itself, its
    [FieldConfig]s, and the objects its values refer to. *)
Definition holds (h : store) (r l : loc) : Prop :=
  r = l
  \/ (exists fs, fields_of h r = Some fs /\ l ∈ fs.*2)
  \/ (exists v, total_width_of h r = Some v /\ l ∈ refs_of v)
  \/ (exists name key v,
        attr_of h r name key = Some v /\ l ∈ refs_of v)
  \/ (exists ls, level_styles_of h r = Some ls /\ l ∈ refs_of (PDict ls)).

(** The configuration at [r] is made of objects allocated at or after
    address [n] only: nothing that was there before is reached from it, so
    that writing to what it holds changes nothing older. *)
Definition independent (n : nat) (h : store) (r : loc) : Prop :=
  forall l, holds h r l -> n <= l.

(** A function object at 5 and, at 6, keyword arguments that give it to
    the message field as its color:
    [get_effective_defaults('id', fields={'message': {'color': f}})]. *)
Definition shared_blob : dict :=
  [("fields", PDict [("message", PDict [("color", PFunc 5)])])].

Definition shared_store : store :=
  default_store ++ [OFunction []; ODict shared_blob].

Definition shared_result : store * loc :=
  default ([], 0)
    (get_effective_defaults shared_store 4 "id" None None None 6).

(** [f.x = 1] on the function the first result holds, and the cascade once
    more, with the same arguments, in the store after that. *)
Definition shared_later : store * loc :=
  default ([], 0)
    (get_effective_defaults
       (<[5 := OFunction [("x", PInt 1)]]> shared_result.1)
       4 "id" None None None 6).

End Defaults.

(** [LogConfig()] as the formatter reads it: the defaults of the dataclass
    in [klog/defaults.py]. *)
Definition default_field (name : field_name) : FieldConfig :=
  match name with
  | Message =>
      {| min_width := 20; max_width := Some 55; leading_char := [];
         closing_char := []; padding_char := [space]; color := None;
         style := None; wrap := true; word_wrap := true |}
  | Padding =>
      {| min_width := 1; max_width := None; leading_char := [space];
         closing_char := [space]; padding_char := lit "."; color := None;
         style := None; wrap := true; word_wrap := true |}
  | Reason =>
      {| min_width := 0; max_width := Some 22; leading_char := lit "(";
         closing_char := lit ")"; padding_char := [space]; color := None;
         style := None; wrap := false; word_wrap := true |}
  | Status =>
      {| min_width := 0; max_width := Some 10; leading_char := [];
         closing_char := []; padding_char := [space]; color := None;
         style := None; wrap := false; word_wrap := true |}
  end.

Definition default_config : LogConfig :=
  {| total_width := 80; fields := default_field |}.

(** * Vocabulary of the statements *)

(** Two wide characters (U+6F22, U+5B57). *)
Definition kanji : str := [28450%N; 23383%N].

(** A message of 75 columns: two lines under the default [max_width] 55. *)
Definition long_message : str :=
  lit "the quick brown fox jumps over the lazy dog and then keeps running far away".

(** A message with a BEL character, which [wcwidth] reports as
    non-printable. *)
Definition bell_message : str := lit "a" ++ [7%N] ++ lit "b".

(** The default configuration with the message field in brackets. *)
Definition bracket_config : LogConfig :=
  {| total_width := 80;
     fields := fun name =>
       match name with
       | Message =>
           {| min_width := 20; max_width := Some 55; leading_char := lit "[";
              closing_char := lit "]"; padding_char := [space];
              color := None; style := None; wrap := true; word_wrap := true |}
       | _ => default_field name
       end |}.

(** The same without wrapping of the message field. *)
Definition bracket_unwrapped : LogConfig :=
  {| total_width := 80;
     fields := fun name =>
       match name with
       | Message =>
           {| min_width := 20; max_width := Some 55; leading_char := lit "[";
              closing_char := lit "]"; padding_char := [space];
              color := None; style := None; wrap := false;
              word_wrap := true |}
       | _ => default_field name
       end |}.

(** The sum [_calculate_widths] subtracts from [total_width], and the width
    of the whole block. *)
Definition used_width (w : widths) : Z := w_message w + w_reason w + w_status w.
Definition block_width (w : widths) : Z := used_width w + w_padding w.

(** A column of [k] blanks. *)
Definition blanks (k : Z) : str := replicate (Z.to_nat k) space.

Definition nonspace (c : char) : Prop := isspace c = false.

(** A whitespace-delimited word: not empty, no whitespace inside. *)
Definition is_word (w : str) : Prop := w <> [] /\ Forall nonspace w.

(** What the word-wrapping loop makes of one word: a word wider than
    [max_width] is cut into chunks, any other word is kept whole. *)
Definition pieces (wcwidth : char -> Z) (max_width : Z) (w : str) : list str :=
  if wcswidth wcwidth w >? max_width
  then chunks w (Z.to_nat max_width) else [w].

(** Three wide characters, six columns. *)
Definition three_kanji : str := [28450%N; 23383%N; 28450%N].

(** A text whose characters, whitespace apart, all have a width: none is
    a control character, for which [wcwidth] is -1. *)
Definition printable (wcwidth : char -> Z) (text : str) : Prop :=
  Forall (fun c => nonspace c -> 0 <= wcwidth c) text.

(** A line as the specification has it: one that respects the width, or a
    chunk of a word that is wider than [max_width], where the word is cut
    into successive chunks of display width [max_width] and a last chunk
    that holds what remains. *)
Definition line_as_stated (wcwidth : char -> Z) (max_width : Z)
    (words : list str) (l : str) : Prop :=
  wcswidth wcwidth l <= max_width
  \/ exists w,
       w ∈ words /\ max_width < wcswidth wcwidth w
       /\ ((exists pre post, w = pre ++ l ++ post)
             /\ wcswidth wcwidth l = max_width
           \/ l `suffix_of` w).

(** A line that respects the width, or is a chunk of an over-wide word. *)
Definition fits_or_chunk (wcwidth : char -> Z) (max_width : Z)
    (words : list str) (l : str) : Prop :=
  wcswidth wcwidth l <= max_width
  \/ exists w, w ∈ words /\ wcswidth wcwidth w > max_width
               /\ l ∈ chunks w (Z.to_nat max_width).

(** [current_line] as the loop builds it from the words of a line. *)
Definition sp_line (ws : list str) : list str :=
  match ws with
  | [] => []
  | w :: ws' => w :: flat_map (fun x => [[space]; x]) ws'
  end.

(** The loop invariant of the word-wrapping branch after the words [done]:
    [groups] are the words of the closed lines, [cur] those of the line
    under construction. *)
Definition wrap_inv (wcwidth : char -> Z) (max_width : Z) (done : list str)
    (st : wrap_state) (groups : list (list str)) (cur : list str) : Prop :=
  lines st = map (join [space]) groups
  /\ Forall (fun g => g <> [] /\ Forall is_word g) groups
  /\ Forall is_word cur
  /\ current_line st = sp_line cur
  /\ concat groups ++ cur = flat_map (pieces wcwidth max_width) done
  /\ -1 <= current_width st
  /\ (cur = [] -> current_width st = 0)
  /\ (wcwidth space = 1 ->
      Forall (fits_or_chunk wcwidth max_width done) (lines st)
      /\ (cur <> [] ->
          fits_or_chunk wcwidth max_width done (join [space] cur))
      /\ (wcswidth wcwidth (join [space] cur) < 0
          \/ current_width st = wcswidth wcwidth (join [space] cur))).

(** A line as the word-wrapping branch builds it: some words, joined by
    single spaces. *)
Definition is_line (l : str) : Prop :=
  split l <> [] /\ join [space] (split l) = l.

(** The non-whitespace characters of a text, in order. *)
Definition visible (text : str) : str :=
  List.filter (fun c => negb (isspace c)) text.

(** The first word of line [b] would not have fit at the end of line [a]. *)
Definition no_room (max_width : Z) (a b : str) : Prop :=
  exists w rest, split b = w :: rest /\ len a + 1 + len w > max_width.

(** A property of every two consecutive elements of a list. *)
Definition consecutive {A} (Q : A -> A -> Prop) (l : list A) : Prop :=
  forall i a b, l !! i = Some a -> l !! S i = Some b -> Q a b.

(** What the word-wrapping loop keeps of the greedy packing: the closed
    lines are packed, the line under construction starts with a word that
    had no room on the last closed line, and there is a line under
    construction as soon as a word has been read. *)
Definition greedy_inv (max_width : Z) (st : wrap_state) : Prop :=
  consecutive (no_room max_width) (lines st)
  /\ (current_line st <> [] ->
      forall a, last (lines st) = Some a ->
                no_room max_width a (concat (current_line st)))
  /\ (current_line st = [] -> lines st = []).

(** Every character of the text is one column wide. *)
Definition narrow_text (wcwidth : char -> Z) (text : str) : Prop :=
  Forall (fun c => wcwidth c = 1) text.

(** A configuration whose output is made of one-column characters only:
    the space is one column wide, no field has a color or a style, and the
    leading, closing and padding characters are one column wide. *)
Definition plain_config (wcwidth : char -> Z) (config : LogConfig) : Prop :=
  wcwidth space = 1
  /\ forall name,
       color (fields config name) = None
       /\ style (fields config name) = None
       /\ narrow_text wcwidth (leading_char (fields config name)
                               ++ closing_char (fields config name)
                               ++ padding_char (fields config name)).

(** The cap of a field, if it has one, leaves room for content between the
    leading and the closing character. *)
Definition cap_above_decoration (fc : FieldConfig) : Prop :=
  match max_width fc with
  | Some m => m = 0 \/ decoration fc < m
  | None => True
  end.

(** A "select graphic rendition" escape sequence: ESC, an opening bracket,
    digits and semicolons, the letter m. *)
Definition is_sgr (s : str) : bool :=
  match s with
  | e :: b :: rest =>
      (e =? ESC)%N && (b =? 91)%N
      && match rev rest with
         | m :: params =>
             (m =? 109)%N
             && forallb (fun c => ((48 <=? c) && (c <=? 57) || (c =? 59))%N)
                        params
         | [] => false
         end
  | _ => false
  end.

(** * Properties *)

(** ** Lists and slices *)

Lemma last_removelast {A} (l : list A) (x : A) :
  last l = Some x -> l = removelast l ++ [x].
Proof.
  induction l as [|a [|b l'] IH]; intros H; simplify_eq/=; [done|].
  f_equal. by apply IH.
Qed.

Lemma chunks_unfold (text : str) (n : nat) :
  chunks text n
  = map (fun k => take n (drop (k * n) text))
        (seq 0 ((length text + n - 1) / n)%nat).
Proof.
  unfold chunks, range_step, slice. rewrite map_map.
  apply map_ext. intros k. f_equal. lia.
Qed.

Lemma concat_take_drop (text : str) (n m : nat) :
  concat (map (fun k => take n (drop (k * n) text)) (seq 0 m))
  = take (m * n) text.
Proof.
  induction m as [|m IH]; [done|].
  rewrite seq_S, map_app, concat_app, IH. simpl.
  rewrite app_nil_r, take_take_drop. f_equal. lia.
Qed.

Lemma chunk_count_spec (len n k : nat) :
  (0 < n)%nat ->
  (k < (len + n - 1) / n)%nat <-> (k * n < len)%nat.
Proof.
  intros Hn. pose proof (Nat.div_mod_eq (len + n - 1) n) as E.
  pose proof (Nat.mod_upper_bound (len + n - 1) n ltac:(lia)) as B.
  set (q := ((len + n - 1) / n)%nat) in *.
  set (r := ((len + n - 1) mod n)%nat) in *.
  split; intros H; nia.
Qed.

(** Concatenating the chunks gives the text back. *)
Lemma chunks_concat (text : str) (n : nat) :
  (0 < n)%nat -> concat (chunks text n) = text.
Proof.
  intros Hn. rewrite chunks_unfold, concat_take_drop.
  apply take_ge.
  destruct (decide (length text <= (length text + n - 1) / n * n)%nat)
    as [|Hlt]; [done|].
  assert ((length text + n - 1) / n * n < length text)%nat as H by lia.
  apply chunk_count_spec in H; lia.
Qed.

(** The [i]-th chunk is the [n] characters from position [i * n] on. *)
Lemma chunks_lookup (text : str) (n i : nat) (c : str) :
  (0 < n)%nat ->
  chunks text n !! i = Some c ->
  c = take n (drop (i * n) text) /\ (i * n < length text)%nat.
Proof.
  intros Hn. rewrite chunks_unfold, list_lookup_fmap.
  intros H. apply fmap_Some in H as (k & Hk & ->).
  apply lookup_seq in Hk as [-> Hk]. split; [done|].
  by apply chunk_count_spec in Hk.
Qed.

Lemma chunks_length (text : str) (n : nat) :
  length (chunks text n) = ((length text + n - 1) / n)%nat.
Proof. rewrite chunks_unfold. by rewrite length_map, length_seq. Qed.

(** Every chunk but the last has exactly [n] characters; the last one has
    between 1 and [n]. *)
Lemma chunks_sizes (text : str) (n i : nat) (c : str) :
  (0 < n)%nat ->
  chunks text n !! i = Some c ->
  (0 < length c <= n)%nat
  /\ ((S i < length (chunks text n))%nat -> length c = n).
Proof.
  intros Hn H. destruct (chunks_lookup _ _ _ _ Hn H) as [-> Hi].
  rewrite length_take, length_drop. split; [lia|].
  rewrite chunks_length. intros HS.
  apply chunk_count_spec in HS; [|done]. lia.
Qed.

Lemma chunks_elem (text : str) (n : nat) (c : str) :
  (0 < n)%nat -> c ∈ chunks text n ->
  c <> [] /\ exists i, c = take n (drop i text).
Proof.
  intros Hn Hc. apply list_elem_of_lookup in Hc as [i Hi].
  destruct (chunks_sizes _ _ _ _ Hn Hi) as [Hlen _].
  destruct (chunks_lookup _ _ _ _ Hn Hi) as [-> _].
  split; [|by eexists]. intros E. rewrite E in Hlen. simpl in Hlen. lia.
Qed.

Lemma chunks_nonempty (text : str) (n : nat) :
  (0 < n)%nat -> text <> [] -> chunks text n <> [].
Proof.
  intros Hn Ht E. apply (f_equal length) in E.
  rewrite chunks_length in E. simpl in E.
  assert (0 < length text)%nat as Hl by (destruct text; simpl; [done|lia]).
  assert (0 < (length text + n - 1) / n)%nat; [|lia].
  apply (chunk_count_spec (length text) n 0); lia.
Qed.

(** ** [str.split] and [str.join] *)

Lemma split_from_nonspace (word w rest : str) :
  Forall nonspace w ->
  split_from word (w ++ rest) = split_from (word ++ w) rest.
Proof.
  intros H. revert word.
  induction H as [|c w Hc _ IH]; intros word; simpl.
  - by rewrite app_nil_r.
  - rewrite Hc, IH. by rewrite <- app_assoc.
Qed.

Lemma split_from_words (word text : str) :
  Forall nonspace word -> Forall is_word (split_from word text).
Proof.
  revert word. induction text as [|c rest IH]; intros word Hw; simpl.
  - destruct word; [constructor|].
    apply Forall_cons; split; [by split|constructor].
  - destruct (isspace c) eqn:Ec.
    + destruct word; [by apply IH|].
      constructor; [done|]. by apply IH.
    + apply IH. apply Forall_app. split; [done|]. by repeat constructor.
Qed.

(** [text.split()] only returns words. *)
Lemma split_words (text : str) : Forall is_word (split text).
Proof. by apply split_from_words. Qed.

Lemma split_word (w : str) : is_word w -> split w = [w].
Proof.
  intros [Hne Hw]. unfold split.
  rewrite <- (app_nil_r w), split_from_nonspace by done. simpl.
  rewrite app_nil_r. destruct w; simpl; congruence.
Qed.

Lemma join_cons (sep p : str) (ps : list str) :
  ps <> [] -> join sep (p :: ps) = p ++ sep ++ join sep ps.
Proof. by destruct ps. Qed.

Lemma join_snoc (sep p : str) (ps : list str) :
  ps <> [] -> join sep (ps ++ [p]) = join sep ps ++ sep ++ p.
Proof.
  induction ps as [|q ps IH]; [done|]. intros _.
  destruct ps as [|r ps]; [done|].
  change ((q :: r :: ps) ++ [p]) with (q :: ((r :: ps) ++ [p])).
  rewrite join_cons by (by destruct ps).
  rewrite IH by done. rewrite (join_cons sep q (r :: ps)) by done.
  by rewrite <- !app_assoc.
Qed.

(** Splitting words joined by single spaces gives the words back. *)
Lemma split_join (g : list str) :
  Forall is_word g -> split (join [space] g) = g.
Proof.
  induction 1 as [|w g Hw Hg IH]; [done|].
  destruct g as [|w' g']; [by apply split_word|].
  rewrite join_cons by done. destruct Hw as [Hne Hw].
  unfold split. rewrite split_from_nonspace by done. simpl.
  destruct w; [done|]. simpl. f_equal. apply IH.
Qed.

Lemma flat_map_split_join (groups : list (list str)) :
  Forall (Forall is_word) groups ->
  flat_map split (map (join [space]) groups) = concat groups.
Proof.
  induction 1 as [|g groups Hg _ IH]; [done|].
  simpl. by rewrite split_join, IH.
Qed.

Lemma join_app (sep : str) (a b : list str) :
  a <> [] -> b <> [] -> join sep (a ++ b) = join sep a ++ sep ++ join sep b.
Proof.
  intros Ha Hb. induction a as [|p a IH]; [done|].
  destruct a as [|q a].
  - change ([p] ++ b) with (p :: b). by rewrite join_cons.
  - change ((p :: q :: a) ++ b) with (p :: ((q :: a) ++ b)).
    rewrite (join_cons sep p ((q :: a) ++ b)) by done.
    rewrite IH by done. rewrite (join_cons sep p (q :: a)) by done.
    by rewrite <- !app_assoc.
Qed.

(** Joining the joined groups is joining all their words. *)
Lemma join_join (groups : list (list str)) :
  Forall (fun g => g <> []) groups ->
  join [space] (map (join [space]) groups) = join [space] (concat groups).
Proof.
  induction 1 as [|g groups Hg Hgs IH]; [done|].
  destruct groups as [|g' groups'].
  { simpl. by rewrite app_nil_r. }
  rewrite map_cons, join_cons by done. rewrite IH.
  change (concat (g :: g' :: groups')) with (g ++ concat (g' :: groups')).
  rewrite join_app; [done|done|].
  inversion Hgs; subst. simpl. by destruct g'.
Qed.

(** ** Display width *)

(** Case analysis on every integer comparison of the goal. *)
Ltac ltb_cases :=
  repeat (simpl;
          match goal with
          | |- context [?a <? ?b] => destruct (Z.ltb_spec a b)
          | |- context [?a <=? ?b] => destruct (Z.leb_spec a b)
          | |- context [?a >? ?b] =>
              rewrite (Z.gtb_ltb a b); destruct (Z.ltb_spec b a)
          end);
  simpl in *; try lia.

Section WidthFacts.

Variable wcwidth : char -> Z.

Local Abbreviation dw := (wcswidth wcwidth).

Lemma wcswidth_from_acc (acc : Z) (s : str) :
  0 <= acc ->
  wcswidth_from wcwidth acc s
  = if dw s <? 0 then -1 else acc + dw s.
Proof.
  unfold wcswidth. revert acc.
  induction s as [|c s IH]; intros acc Hacc; simpl.
  - lia.
  - destruct (wcwidth c <? 0) eqn:Ec; [done|].
    apply Z.ltb_ge in Ec.
    rewrite (IH (acc + wcwidth c)), (IH (0 + wcwidth c)) by lia.
    destruct (wcswidth_from wcwidth 0 s <? 0) eqn:Es; [done|].
    apply Z.ltb_ge in Es.
    destruct (_ <? 0) eqn:E2; [apply Z.ltb_lt in E2|]; lia.
Qed.

(** [wcswidth] is -1 or a sum of non-negative widths. *)
Lemma wcswidth_lower (s : str) : -1 <= dw s.
Proof.
  induction s as [|c s IH]; [done|].
  unfold wcswidth. simpl.
  destruct (wcwidth c <? 0) eqn:Ec; [done|]. apply Z.ltb_ge in Ec.
  rewrite wcswidth_from_acc by lia.
  destruct (dw s <? 0); lia.
Qed.

Lemma wcswidth_cons (c : char) (s : str) :
  dw (c :: s)
  = if (wcwidth c <? 0) || (dw s <? 0) then -1
    else wcwidth c + dw s.
Proof.
  unfold wcswidth at 1. simpl.
  destruct (wcwidth c <? 0) eqn:Ec; [done|]. apply Z.ltb_ge in Ec.
  by rewrite wcswidth_from_acc by lia.
Qed.

Lemma wcswidth_app (a b : str) :
  dw (a ++ b)
  = if (dw a <? 0) || (dw b <? 0) then -1
    else dw a + dw b.
Proof.
  induction a as [|c a IH]; simpl.
  - change (dw []) with 0. simpl.
    pose proof (wcswidth_lower b).
    destruct (dw b <? 0) eqn:E; [apply Z.ltb_lt in E|]; lia.
  - rewrite !wcswidth_cons, IH.
    pose proof (wcswidth_lower a). pose proof (wcswidth_lower b).
    ltb_cases.
Qed.

(** With no character wider than one column, the display width is at most
    the number of characters. *)
Lemma wcswidth_narrow (s : str) :
  Forall (fun c => wcwidth c <= 1) s -> dw s <= len s.
Proof.
  unfold len. induction 1 as [|c s Hc _ IH]; [done|].
  rewrite wcswidth_cons. simpl length.
  destruct (_ || _); lia.
Qed.

(** With every character exactly one column wide, the display width is the
    number of characters. *)
Lemma wcswidth_exact (s : str) :
  Forall (fun c => wcwidth c = 1) s -> dw s = len s.
Proof.
  unfold len. induction 1 as [|c s Hc _ IH]; [done|].
  rewrite wcswidth_cons, Hc, IH. simpl length.
  destruct (Z.of_nat (length s) <? 0) eqn:E; [apply Z.ltb_lt in E|]; simpl; lia.
Qed.

End WidthFacts.

(** ** The word-wrapping loop *)

Lemma sp_line_concat (cur : list str) : concat (sp_line cur) = join [space] cur.
Proof.
  destruct cur as [|w cur]; [done|]. simpl. revert w.
  induction cur as [|w' cur IH]; intros w; simpl.
  - by rewrite app_nil_r.
  - by rewrite IH.
Qed.

Lemma sp_line_snoc (cur : list str) (w : str) :
  cur <> [] -> (sp_line cur ++ [[space]]) ++ [w] = sp_line (cur ++ [w]).
Proof.
  destruct cur as [|w0 cur]; [done|]. intros _. simpl.
  rewrite flat_map_app. simpl. by rewrite <- !app_assoc.
Qed.

Lemma sp_line_nil (cur : list str) : sp_line cur = [] <-> cur = [].
Proof. by destruct cur. Qed.

Lemma fits_or_chunk_mono wcwidth max_width (done more : list str) (l : str) :
  fits_or_chunk wcwidth max_width done l ->
  fits_or_chunk wcwidth max_width (done ++ more) l.
Proof.
  intros [H|(w & Hw & H)]; [by left|right].
  exists w. split; [|done]. apply elem_of_app. by left.
Qed.

Lemma chunk_is_word (w c : str) (n : nat) :
  (0 < n)%nat -> is_word w -> c ∈ chunks w n -> is_word c.
Proof.
  intros Hn [_ Hw] Hc.
  destruct (chunks_elem _ _ _ Hn Hc) as (Hne & i & ->).
  split; [done|]. by apply Forall_take, Forall_drop.
Qed.

Section WrapFacts.

Variable wcwidth : char -> Z.
Variable max_width : Z.
Hypothesis max_width_pos : 0 < max_width.

Local Abbreviation dw := (wcswidth wcwidth).
Local Abbreviation inv := (wrap_inv wcwidth max_width).
Local Abbreviation ok := (fits_or_chunk wcwidth max_width).

Lemma wcswidth_space : wcwidth space = 1 -> dw [space] = 1.
Proof. intros H. unfold wcswidth. simpl. rewrite H. done. Qed.

Lemma pieces_snoc (done : list str) (word : str) :
  flat_map (pieces wcwidth max_width) (done ++ [word])
  = flat_map (pieces wcwidth max_width) done ++ pieces wcwidth max_width word.
Proof. rewrite flat_map_app. simpl. by rewrite app_nil_r. Qed.

Lemma wrap_inv_init : inv [] wrap_init [] [].
Proof.
  unfold wrap_inv. simpl. repeat split; try done; try lia.
  right. done.
Qed.

(** Closing the line under construction. *)
Lemma wrap_inv_close (done : list str) (st : wrap_state)
    (groups : list (list str)) (cur : list str) :
  inv done st groups cur -> cur <> [] ->
  inv done (WrapState (lines st ++ [concat (current_line st)]) [] 0)
      (groups ++ [cur]) [].
Proof.
  intros (Hl & Hg & Hc & Hcl & Hcat & Hw & Hw0 & Hsp) Hne.
  unfold wrap_inv. simpl.
  rewrite Hcl, sp_line_concat, Hl.
  split; [by rewrite map_app|].
  split; [apply Forall_app; split; [done|by apply Forall_singleton]|].
  split; [constructor|]. split; [done|].
  split; [by rewrite concat_app, app_nil_r; simpl; rewrite app_nil_r|].
  split; [lia|]. split; [done|].
  intros Hs. destruct (Hsp Hs) as (Hok & Hcur & _).
  split; [|split; [done|by right]].
  apply Forall_app. split; [by rewrite <- Hl|]. apply Forall_singleton. auto.
Qed.

(** One iteration keeps the invariant, and does not raise. *)
Lemma wrap_word_inv (done : list str) (st : wrap_state)
    (groups : list (list str)) (cur : list str) (word : str) :
  inv done st groups cur -> is_word word ->
  exists st' groups' cur',
    wrap_word wcwidth max_width st word = Some st'
    /\ inv (done ++ [word]) st' groups' cur'.
Proof.
  intros Hinv Hword.
  pose proof (wcswidth_lower wcwidth word) as Hlow.
  unfold wrap_word.
  destruct (_ <=? max_width) eqn:Efit.
  - (* the word fits on the current line *)
    apply Z.leb_le in Efit.
    destruct Hinv as (Hl & Hg & Hc & Hcl & Hcat & Hw & Hw0 & Hsp).
    assert (dw word <= max_width) as Hle.
    { destruct cur; simpl in Hcl; rewrite Hcl in Efit; [|lia].
      rewrite Hw0 in Efit by done. lia. }
    assert (pieces wcwidth max_width word = [word]) as Hp.
    { unfold pieces. by ltb_cases. }
    destruct cur as [|w0 cur'] eqn:Ecur.
    + simpl in Hcl. rewrite Hcl. simpl.
      eexists _, groups, [word]. split; [done|].
      unfold wrap_inv. simpl. rewrite Hcl, Hw0 by done. simpl.
      split; [done|]. split; [done|]. split; [by apply Forall_singleton|].
      split; [done|].
      split; [by rewrite pieces_snoc, Hp, <- Hcat, app_nil_r|].
      split; [lia|]. split; [done|].
      intros Hs. destruct (Hsp Hs) as (Hok & _ & _).
      split; [|split; [intros _; left; lia|right; lia]].
      eapply Forall_impl; [exact Hok|]. intros. by apply fits_or_chunk_mono.
    + rewrite <- Ecur in *. assert (cur <> []) as Hne by (by subst).
      assert (current_line st <> []) as Hne'.
      { rewrite Hcl. by rewrite sp_line_nil. }
      destruct (current_line st) as [|x xs] eqn:Eline; [done|].
      rewrite <- Eline in *. simpl.
      eexists _, groups, (cur ++ [word]). split; [done|].
      unfold wrap_inv. simpl.
      split; [done|]. split; [done|].
      split; [apply Forall_app; split; [done|by apply Forall_singleton]|].
      split; [by rewrite Hcl, sp_line_snoc|].
      split; [by rewrite pieces_snoc, Hp, <- Hcat, app_assoc|].
      split; [lia|]. split; [by destruct cur|].
      intros Hs. destruct (Hsp Hs) as (Hok & Hcur & Hwd).
      rewrite join_snoc by done.
      rewrite !wcswidth_app, (wcswidth_space Hs).
      pose proof (wcswidth_lower wcwidth (join [space] cur)).
      split; [eapply Forall_impl; [exact Hok|];
              intros; by apply fits_or_chunk_mono|].
      split.
      * intros _. left.
        rewrite !wcswidth_app, (wcswidth_space Hs). ltb_cases.
      * ltb_cases.
  - (* it does not: the current line is closed *)
    apply Z.leb_gt in Efit.
    set (st1 := match current_line st with
                | [] => st
                | _ => WrapState (lines st ++ [concat (current_line st)]) [] 0
                end).
    assert (exists groups1, inv done st1 groups1 []) as [groups1 Hinv1].
    { destruct cur as [|w0 cur'] eqn:Ecur.
      - exists groups. subst st1.
        destruct Hinv as (Hl & Hg & Hc & Hcl & Hrest).
        simpl in Hcl. by rewrite Hcl.
      - exists (groups ++ [cur]). subst st1.
        assert (current_line st <> []) as Hne'.
        { destruct Hinv as (_ & _ & _ & Hcl & _). by rewrite Hcl. }
        destruct (current_line st) eqn:Eline; [done|].
        rewrite <- Eline, Ecur. by apply wrap_inv_close. }
    clearbody st1. clear Hinv Efit.
    destruct Hinv1 as (Hl & Hg & _ & Hcl & Hcat & Hw & Hw0 & Hsp).
    simpl in Hcl. rewrite app_nil_r in Hcat.
    destruct (dw word >? max_width) eqn:Elong.
    + (* an over-wide word is cut into chunks *)
      rewrite Z.gtb_ltb in Elong. apply Z.ltb_lt in Elong.
      assert (0 < Z.to_nat max_width)%nat as Hn by lia.
      assert (pieces wcwidth max_width word
              = chunks word (Z.to_nat max_width)) as Hp.
      { unfold pieces. by ltb_cases. }
      set (wrapped_word := chunks word (Z.to_nat max_width)) in *.
      assert (wrapped_word <> []) as Hwne.
      { apply chunks_nonempty; [done|]. by destruct Hword. }
      destruct (last wrapped_word) as [tail|] eqn:Elast;
        [|by apply last_None in Elast].
      simpl.
      pose proof (last_removelast _ _ Elast) as Hsplit.
      assert (Forall is_word wrapped_word) as Hws.
      { apply Forall_forall. intros c Hc. by eapply chunk_is_word. }
      assert (Forall is_word (removelast wrapped_word) /\ is_word tail)
        as [Hinit Htail].
      { rewrite Hsplit in Hws. apply Forall_app in Hws as [? Ht].
        split; [done|]. by inversion Ht. }
      eexists _, (groups1 ++ map (fun c => [c]) (removelast wrapped_word)),
        [tail].
      split; [done|]. unfold wrap_inv. simpl.
      split.
      { rewrite Hl, map_app, map_map. f_equal.
        symmetry. erewrite map_ext; [apply map_id|done]. }
      split.
      { apply Forall_app. split; [done|]. apply Forall_map.
        eapply Forall_impl; [exact Hinit|]. intros c Hc.
        split; [done|by apply Forall_singleton]. }
      split; [by apply Forall_singleton|]. split; [done|].
      split.
      { rewrite pieces_snoc, Hp, <- Hcat, concat_app, <- app_assoc.
        f_equal. rewrite Hsplit at 2. f_equal.
        clear. induction (removelast wrapped_word); simpl; congruence. }
      pose proof (wcswidth_lower wcwidth tail).
      split; [done|]. split; [done|].
      intros Hs. destruct (Hsp Hs) as (Hok & _ & _).
      assert (forall c, c ∈ wrapped_word -> ok (done ++ [word]) c) as Hchunk.
      { intros c Hc. right. exists word. split; [|split; [lia|done]].
        apply elem_of_app. right. by apply list_elem_of_singleton. }
      split.
      { apply Forall_app. split.
        - eapply Forall_impl; [exact Hok|].
          intros; by apply fits_or_chunk_mono.
        - apply Forall_forall. intros c Hc. apply Hchunk.
          rewrite Hsplit. apply elem_of_app. by left. }
      split; [|by right].
      intros _. apply Hchunk. rewrite Hsplit. apply elem_of_app. right.
      by apply list_elem_of_singleton.
    + (* any other word starts the next line *)
      rewrite Z.gtb_ltb in Elong. apply Z.ltb_ge in Elong.
      assert (pieces wcwidth max_width word = [word]) as Hp.
      { unfold pieces. by ltb_cases. }
      eexists _, groups1, [word]. split; [done|].
      unfold wrap_inv. simpl.
      split; [done|]. split; [done|]. split; [by apply Forall_singleton|].
      split; [done|]. split; [by rewrite pieces_snoc, Hp, <- Hcat|].
      split; [done|]. split; [done|].
      intros Hs. destruct (Hsp Hs) as (Hok & _ & _).
      split; [|split; [intros _; by left|by right]].
      eapply Forall_impl; [exact Hok|]. intros. by apply fits_or_chunk_mono.
Qed.

(** The whole loop keeps the invariant, and does not raise. *)
Lemma wrap_words_inv (words done : list str) (st : wrap_state)
    (groups : list (list str)) (cur : list str) :
  inv done st groups cur -> Forall is_word words ->
  exists st' groups' cur',
    wrap_words wcwidth max_width words st = Some st'
    /\ inv (done ++ words) st' groups' cur'.
Proof.
  intros Hinv Hwords. revert done st groups cur Hinv.
  induction Hwords as [|word words Hword _ IH];
    intros done st groups cur Hinv; simpl.
  - rewrite app_nil_r. by eexists _, _, _.
  - destruct (wrap_word_inv _ _ _ _ _ Hinv Hword)
      as (st1 & groups1 & cur1 & -> & Hinv1). simpl.
    destruct (IH _ _ _ _ Hinv1) as (st' & groups' & cur' & Hrun & Hinv').
    rewrite <- app_assoc in Hinv'. by eexists _, _, _.
Qed.

(** The lines the word-wrapping branch returns are groups of words joined
    by single spaces; the groups, read in order, are the pieces of the
    words of the text; every line fits or is a chunk of an over-wide word
    (the latter when a space is one column wide). *)
Lemma wrap_text_groups (text : str) :
  exists groups,
    _wrap_text wcwidth text max_width true
    = Some (map (join [space]) groups)
    /\ Forall (fun g => g <> [] /\ Forall is_word g) groups
    /\ concat groups = flat_map (pieces wcwidth max_width) (split text)
    /\ (wcwidth space = 1 ->
        Forall (ok (split text)) (map (join [space]) groups)).
Proof.
  unfold _wrap_text.
  destruct (bool_decide (text = [])) eqn:Et; simpl.
  { apply bool_decide_eq_true in Et as ->. exists []. by repeat split. }
  destruct (Z.leb_spec max_width 0) as [|_]; [lia|].
  destruct (wrap_words_inv (split text) [] wrap_init [] []
              wrap_inv_init (split_words text))
    as (st & groups & cur & -> & Hinv). simpl.
  destruct Hinv as (Hl & Hg & Hc & Hcl & Hcat & _ & _ & Hsp).
  unfold wrap_finish. rewrite Hcl.
  destruct cur as [|w0 cur'] eqn:Ecur.
  - exists groups. simpl in *. rewrite app_nil_r in Hcat.
    split; [by rewrite Hl|]. split; [done|]. split; [done|].
    intros Hs. rewrite <- Hl. by apply Hsp.
  - rewrite <- Ecur in *. assert (cur <> []) as Hne by (by subst).
    exists (groups ++ [cur]).
    replace (match sp_line cur with
             | [] => lines st
             | _ => lines st ++ [concat (sp_line cur)]
             end) with (lines st ++ [concat (sp_line cur)])
      by (subst cur; done).
    rewrite sp_line_concat, Hl, map_app. simpl.
    split; [done|].
    split; [apply Forall_app; split; [done|by apply Forall_singleton]|].
    split; [by rewrite concat_app; simpl; rewrite app_nil_r|].
    intros Hs. destruct (Hsp Hs) as (Hok & Hcur & _).
    apply Forall_app. split; [by rewrite <- Hl|].
    apply Forall_singleton. auto.
Qed.

End WrapFacts.

(** ** [_wrap_text]: the claims *)

Lemma split_from_chars (P : char -> Prop) (word text : str) :
  Forall P word ->
  (forall c, c ∈ text -> isspace c = false -> P c) ->
  Forall (Forall P) (split_from word text).
Proof.
  revert word. induction text as [|c rest IH]; intros word Hw Ht; simpl.
  - destruct word; [constructor|]. by apply Forall_singleton.
  - assert (forall c0, c0 ∈ rest -> isspace c0 = false -> P c0) as Hrest.
    { intros c0 Hc0. apply Ht. by right. }
    destruct (isspace c) eqn:Ec.
    + destruct word; [by apply IH|].
      constructor; [done|]. by apply IH.
    + apply IH; [|done]. apply Forall_app. split; [done|].
      apply Forall_singleton. apply Ht; [left|done].
Qed.

Lemma chunks_chars (P : char -> Prop) (w : str) (n : nat) :
  (0 < n)%nat -> Forall P w -> Forall (Forall P) (chunks w n).
Proof.
  intros Hn Hw. apply Forall_forall. intros c Hc.
  destruct (chunks_elem _ _ _ Hn Hc) as (_ & i & ->).
  by apply Forall_take, Forall_drop.
Qed.

Lemma join_chars (P : char -> Prop) (g : list str) :
  P space -> Forall (Forall P) g -> Forall P (join [space] g).
Proof.
  intros Hs. induction 1 as [|w g Hw Hg IH]; [constructor|].
  destruct g as [|w' g']; [done|].
  rewrite join_cons by done. apply Forall_app. split; [done|].
  apply Forall_app. split; [by apply Forall_singleton|done].
Qed.

Lemma wcswidth_nonneg (wcwidth : char -> Z) (s : str) :
  Forall (fun c => 0 <= wcwidth c) s -> 0 <= wcswidth wcwidth s.
Proof.
  induction 1 as [|c s Hc _ IH]; [done|].
  rewrite wcswidth_cons.
  destruct (wcwidth c <? 0) eqn:Ec; [lia|].
  destruct (wcswidth wcwidth s <? 0) eqn:Es; [lia|]. simpl. lia.
Qed.

(** C1, as the code has it.  With [word_wrap=True], [max_width > 0] and a
    text without control characters, the function returns; every returned
    line has a display width from 0 to [max_width], or is a chunk of a
    word whose own width exceeds [max_width]; the words of the lines, read
    in order, are the words of the text, an over-wide word being replaced
    by its chunks.  An over-wide word is cut by characters, not by
    columns: its chunks, concatenated, are the word, each has from 1 to
    [max_width] characters, and all but the last have [max_width]
    characters. *)
Theorem wrap_text_word_wrap (wcwidth : char -> Z) (text : str) (max_width : Z) :
  0 < max_width ->
  wcwidth space = 1 ->
  printable wcwidth text ->
  exists ls,
    _wrap_text wcwidth text max_width true = Some ls
    /\ Forall (fun l =>
                 0 <= wcswidth wcwidth l <= max_width
                 \/ exists w,
                      w ∈ split text /\ max_width < wcswidth wcwidth w
                      /\ l ∈ chunks w (Z.to_nat max_width)) ls
    /\ flat_map split ls
       = flat_map (pieces wcwidth max_width) (split text)
    /\ forall w,
         w ∈ split text ->
         if wcswidth wcwidth w >? max_width
         then concat (pieces wcwidth max_width w) = w
              /\ Forall (fun c => 0 < len c <= max_width)
                   (pieces wcwidth max_width w)
              /\ forall i c,
                   pieces wcwidth max_width w !! i = Some c ->
                   (S i < length (pieces wcwidth max_width w))%nat ->
                   len c = max_width
         else pieces wcwidth max_width w = [w].
Proof.
  intros Hpos Hs Hp.
  destruct (wrap_text_groups wcwidth max_width Hpos text)
    as (groups & Hrun & Hg & Hcat & Hok).
  exists (map (join [space]) groups).
  split; [done|].
  set (P := fun c => 0 <= wcwidth c).
  assert (Forall (Forall P) (split text)) as Hwords.
  { apply split_from_chars; [constructor|].
    intros c Hc Hsp. by apply (proj1 (Forall_forall _ _) Hp c). }
  assert (Forall (Forall P) (concat groups)) as Hpieces.
  { rewrite Hcat. revert Hwords. generalize (split text).
    induction 1 as [|w ws Hw _ IH]; [done|].
    simpl. apply Forall_app. split; [|done].
    unfold pieces. destruct (_ >? _).
    - apply chunks_chars; [lia|done].
    - by apply Forall_singleton. }
  split.
  { specialize (Hok Hs). apply Forall_forall. intros l Hl.
    pose proof (proj1 (Forall_forall _ _) Hok l Hl) as [Hfit|Hchunk].
    - left. split; [|done]. apply wcswidth_nonneg.
      apply list_elem_of_fmap in Hl as (g & -> & Hgin).
      apply join_chars; [unfold P; lia|].
      apply (proj1 (Forall_concat (Forall P) groups)) in Hpieces.
      by apply (proj1 (Forall_forall _ _) Hpieces g).
    - right. destruct Hchunk as (w & Hw & Hwide & Hin). exists w.
      split; [done|]. split; [lia|done]. }
  split.
  { rewrite flat_map_split_join; [done|].
    eapply Forall_impl; [exact Hg|]. by intros g [_ ?]. }
  intros w Hw. unfold pieces.
  destruct (wcswidth wcwidth w >? max_width) eqn:Ewide; [|done].
  split; [apply chunks_concat; lia|].
  split.
  - apply Forall_forall. intros c Hc.
    apply list_elem_of_lookup in Hc as [i Hi].
    destruct (chunks_sizes w (Z.to_nat max_width) i c ltac:(lia) Hi)
      as [Hsize _].
    unfold len. lia.
  - intros i c Hc Hi.
    destruct (chunks_sizes w (Z.to_nat max_width) i c ltac:(lia) Hc)
      as [_ Hfull].
    unfold len. rewrite Hfull by done. lia.
Qed.

Lemma wrap_text_word_wrap_witness :
  exists ls,
    _wrap_text wcwidth_sample (lit "ab abcdefgh cd") 3 true = Some ls
    /\ Forall (fun l =>
                 0 <= wcswidth wcwidth_sample l <= 3
                 \/ exists w,
                      w ∈ split (lit "ab abcdefgh cd")
                      /\ 3 < wcswidth wcwidth_sample w
                      /\ l ∈ chunks w (Z.to_nat 3)) ls
    /\ flat_map split ls
       = flat_map (pieces wcwidth_sample 3) (split (lit "ab abcdefgh cd"))
    /\ forall w,
         w ∈ split (lit "ab abcdefgh cd") ->
         if wcswidth wcwidth_sample w >? 3
         then concat (pieces wcwidth_sample 3 w) = w
              /\ Forall (fun c => 0 < len c <= 3) (pieces wcwidth_sample 3 w)
              /\ forall i c,
                   pieces wcwidth_sample 3 w !! i = Some c ->
                   (S i < length (pieces wcwidth_sample 3 w))%nat ->
                   len c = 3
         else pieces wcwidth_sample 3 w = [w].
Proof.
  apply (wrap_text_word_wrap wcwidth_sample (lit "ab abcdefgh cd") 3);
    [lia | reflexivity |].
  apply (bool_decide_unpack _). vm_compute. exact I.
Defined.

(** C1 as stated fails: an over-wide word is cut by characters, so a chunk
    of wide characters is wider than [max_width].  The word of three wide
    characters, six columns, is cut for [max_width = 2] into a chunk of
    two characters, four columns wide, and the last character: the first
    line neither respects the width nor is two columns wide, nor is it
    what remains of the word. *)
Lemma wrap_text_word_wrap_wide :
  _wrap_text wcwidth_sample three_kanji 2 true
  = Some [kanji; [28450%N]]
  /\ wcswidth wcwidth_sample kanji = 4
  /\ ~ Forall (line_as_stated wcwidth_sample 2 (split three_kanji))
         [kanji; [28450%N]].
Proof.
  split; [by vm_compute|]. split; [by vm_compute|].
  intros H. apply Forall_cons in H as [H _].
  destruct H as [H|(w & Hw & _ & [[_ H]|H])].
  - vm_compute in H. by apply H.
  - by vm_compute in H.
  - assert (split three_kanji = [three_kanji]) as E by (by vm_compute).
    rewrite E in Hw. apply list_elem_of_singleton in Hw as ->.
    destruct H as [k Hk]. apply (f_equal last) in Hk.
    by rewrite last_app in Hk.
Qed.

(** C2, as the code has it.  With [word_wrap=False] and [max_width > 0]
    the function returns the chunks of the text: concatenated they are the
    text; each has between 1 and [max_width] characters, and exactly
    [max_width] unless it is the last; when no character of the text is
    wider than one column, each has display width at most [max_width]. *)
Theorem wrap_text_char_wrap (wcwidth : char -> Z) (text : str) (max_width : Z) :
  0 < max_width ->
  exists ls,
    _wrap_text wcwidth text max_width false = Some ls
    /\ concat ls = text
    /\ (forall i l, ls !! i = Some l ->
          0 < len l <= max_width
          /\ ((S i < length ls)%nat -> len l = max_width))
    /\ (Forall (fun c => wcwidth c <= 1) text ->
        Forall (fun l => wcswidth wcwidth l <= max_width) ls).
Proof.
  intros Hpos. unfold _wrap_text.
  destruct (bool_decide (text = [])) eqn:Et; simpl.
  { apply bool_decide_eq_true in Et as ->. exists [].
    split; [done|]. split; [done|]. split; [|by constructor].
    intros i l Hl. by rewrite lookup_nil in Hl. }
  destruct (Z.leb_spec max_width 0) as [|_]; [lia|].
  assert (0 < Z.to_nat max_width)%nat as Hn by lia.
  eexists. split; [done|]. split; [by apply chunks_concat|].
  assert (forall i l, chunks text (Z.to_nat max_width) !! i = Some l ->
            0 < len l <= max_width
            /\ ((S i < length (chunks text (Z.to_nat max_width)))%nat ->
                len l = max_width)) as Hsizes.
  { intros i l Hl. destruct (chunks_sizes _ _ _ _ Hn Hl) as [Hlen Hfull].
    unfold len. split; [lia|]. intros Hi. rewrite Hfull by done. lia. }
  split; [done|].
  intros Hnarrow. apply Forall_forall. intros l Hl.
  apply list_elem_of_lookup in Hl as [i Hi].
  destruct (Hsizes i l Hi) as [Hlen _].
  destruct (chunks_lookup _ _ _ _ Hn Hi) as [-> _].
  etrans; [apply wcswidth_narrow|lia].
  by apply Forall_take, Forall_drop.
Qed.

Lemma wrap_text_char_wrap_witness :
  exists ls,
    _wrap_text wcwidth_sample (lit "abcdefgh") 3 false = Some ls
    /\ concat ls = lit "abcdefgh"
    /\ (forall i l, ls !! i = Some l ->
          0 < len l <= 3 /\ ((S i < length ls)%nat -> len l = 3))
    /\ (Forall (fun c => wcwidth_sample c <= 1) (lit "abcdefgh") ->
        Forall (fun l => wcswidth wcwidth_sample l <= 3) ls).
Proof.
  apply (wrap_text_char_wrap wcwidth_sample (lit "abcdefgh") 3). lia.
Defined.

(** C2 as stated fails: slicing counts characters, so a chunk of wide
    characters is wider than [max_width] columns. *)
Lemma wrap_text_char_wrap_wide :
  _wrap_text wcwidth_sample kanji 2 false = Some [kanji]
  /\ ~ Forall (fun l => wcswidth wcwidth_sample l <= 2) [kanji].
Proof.
  split; [reflexivity|]. intros H.
  apply (proj1 (Forall_singleton _ _)) in H.
  vm_compute in H. by apply H.
Qed.

(** C10. When no word is wider than [max_width], joining the returned
    lines with single spaces gives the words of the text joined with single
    spaces. *)
Theorem wrap_text_join (wcwidth : char -> Z) (text : str) (max_width : Z) :
  0 < max_width ->
  Forall (fun w => wcswidth wcwidth w <= max_width) (split text) ->
  exists ls,
    _wrap_text wcwidth text max_width true = Some ls
    /\ join [space] ls = join [space] (split text).
Proof.
  intros Hpos Hfit.
  destruct (wrap_text_groups wcwidth max_width Hpos text)
    as (groups & Hrun & Hg & Hcat & _).
  exists (map (join [space]) groups). split; [done|].
  rewrite join_join by (eapply Forall_impl; [exact Hg|]; by intros g [? _]).
  rewrite Hcat. f_equal. clear Hcat Hrun.
  induction Hfit as [|w ws Hw _ IH]; [done|].
  simpl. rewrite IH. unfold pieces.
  destruct (Z.gtb_spec (wcswidth wcwidth w) max_width); [lia|done].
Qed.

Lemma wrap_text_join_witness :
  exists ls,
    _wrap_text wcwidth_sample (lit "  the quick   brown fox ") 10 true = Some ls
    /\ join [space] ls
       = join [space] (split (lit "  the quick   brown fox ")).
Proof.
  apply (wrap_text_join wcwidth_sample (lit "  the quick   brown fox ") 10);
    [lia | apply (bool_decide_unpack _); vm_compute; exact I].
Defined.

(** Runs of whitespace are collapsed: the lines do not concatenate to the
    text. *)
Example wrap_text_collapses_whitespace :
  _wrap_text wcwidth_sample (lit "a  b") 10 true = Some [lit "a b"].
Proof. reflexivity. Qed.
Example split_example :
  split (lit "  alpha beta" ++ [newline] ++ lit "gamma ")
  = [lit "alpha"; lit "beta"; lit "gamma"].
Proof. reflexivity. Qed.

Example chunks_example :
  chunks (lit "abcdefgh") 3 = [lit "abc"; lit "def"; lit "gh"].
Proof. reflexivity. Qed.

Example wrap_example :
  _wrap_text wcwidth_sample (lit "the quick brown fox jumps") 10 true
  = Some [lit "the quick"; lit "brown fox"; lit "jumps"].
Proof. reflexivity. Qed.

(** The last chunk of an over-wide word starts the next line, and the next
    word joins it when it fits. *)
Example wrap_seed_example :
  _wrap_text wcwidth_sample (lit "abcdefg h") 3 true
  = Some [lit "abc"; lit "def"; lit "g h"].
Proof. reflexivity. Qed.

Example wrap_long_word_example :
  _wrap_text wcwidth_sample (lit "ab abcdefgh cd") 3 true
  = Some [lit "ab"; lit "abc"; lit "def"; lit "gh"; lit "cd"].
Proof. reflexivity. Qed.

(** ** The formatter does not raise *)

Section FormatFacts.

Variable wcwidth : char -> Z.
Variable config : LogConfig.

Local Abbreviation dw := (wcswidth wcwidth).

Lemma bind_some {A B} (x : A) (f : A -> option B) : Some x ≫= f = f x.
Proof. done. Qed.

Lemma wrap_text_total (text : str) (max_width : Z) (word_wrap : bool) :
  exists ls, _wrap_text wcwidth text max_width word_wrap = Some ls.
Proof.
  destruct (Z.leb_spec max_width 0) as [Hle|Hpos].
  - exists []. unfold _wrap_text.
    destruct (Z.leb_spec max_width 0); [|lia]. by rewrite orb_true_r.
  - destruct word_wrap.
    + destruct (wrap_text_groups wcwidth max_width Hpos text) as (g & H & _).
      by eexists.
    + unfold _wrap_text. simpl. destruct (_ || _); by eexists.
Qed.

Lemma format_field_total (content : str) (name : field_name) (width : Z) :
  exists ls, _format_field wcwidth config content name width = Some ls
             /\ ls <> [].
Proof.
  unfold _format_field.
  destruct name; try (by eexists);
    (destruct (wrap _); simpl; [|by eexists];
     match goal with
     | |- context [_wrap_text wcwidth ?c ?w ?b] =>
         destruct (wrap_text_total c w b) as [ws ->]
     end; simpl;
     eexists; split; [done|]; by destruct ws).
Qed.

(** The padding field is one line: leading character, fill, closing
    character. *)
Lemma format_field_padding (content : str) (width : Z) :
  _format_field wcwidth config content Padding width
  = Some [leading_char (fields config Padding)
          ++ str_mul (padding_char (fields config Padding))
               (width - len (leading_char (fields config Padding))
                - len (closing_char (fields config Padding)))
          ++ closing_char (fields config Padding)].
Proof. done. Qed.

(** [format_line] always gets through its preparation: every field
    formats, and the line count is the largest number of lines of a field,
    at least one. *)
Lemma format_layout_total (message : str) (reason status : option str) :
  exists l,
    format_layout wcwidth config message reason status = Some l
    /\ l_widths l = _calculate_widths wcwidth config message reason status
    /\ _format_field wcwidth config message Message (w_message (l_widths l))
       = Some (l_message_lines l)
    /\ _format_field wcwidth config [] Padding (w_padding (l_widths l))
       = Some [l_padding l]
    /\ (if truthy reason && (w_reason (l_widths l) >? 0)
        then _format_field wcwidth config (text_of reason) Reason
               (w_reason (l_widths l))
        else Some []) = Some (l_reason_lines l)
    /\ (if truthy status && (w_status (l_widths l) >? 0)
        then _format_field wcwidth config (text_of status) Status
               (w_status (l_widths l))
        else Some []) = Some (l_status_lines l)
    /\ l_max_lines l
       = (length (l_message_lines l) `max` (length (l_reason_lines l)
            `max` (length (l_status_lines l) `max` 1)))%nat.
Proof.
  unfold format_layout.
  remember (_calculate_widths wcwidth config message reason status) as w.
  destruct (format_field_total message Message (w_message w))
    as (ml & Hml & _).
  assert (exists rl,
            (if truthy reason && (w_reason w >? 0)
             then _format_field wcwidth config (text_of reason) Reason
                    (w_reason w)
             else Some []) = Some rl) as [rl Hrl].
  { destruct (_ && _); [|by eexists].
    destruct (format_field_total (text_of reason) Reason (w_reason w))
      as (rl & ? & _). by eexists. }
  assert (exists sl,
            (if truthy status && (w_status w >? 0)
             then _format_field wcwidth config (text_of status) Status
                    (w_status w)
             else Some []) = Some sl) as [sl Hsl].
  { destruct (truthy status && _); [|by eexists].
    destruct (format_field_total (text_of status) Status (w_status w))
      as (sl & ? & _). by eexists. }
  rewrite Hml, bind_some, format_field_padding, !bind_some.
  change (head [?x]) with (Some x). rewrite bind_some, Hrl, bind_some.
  rewrite Hsl, bind_some.
  eexists. split; [done|]. cbn [l_widths l_message_lines l_padding
    l_reason_lines l_status_lines l_max_lines].
  by rewrite format_field_padding.
Qed.

Lemma length_formatted_lines (status : option str) (l : layout) :
  length (formatted_lines config status l) = l_max_lines l.
Proof. unfold formatted_lines. by rewrite length_map, length_seq. Qed.

End FormatFacts.

(** ** [_calculate_widths] and [format_line]: the claims *)

Lemma len_nonneg (s : str) : 0 <= len s.
Proof. unfold len. lia. Qed.

Lemma str_mul_space (k : Z) : str_mul [space] k = blanks k.
Proof.
  unfold str_mul, blanks. induction (Z.to_nat k) as [|n IH]; [done|].
  simpl. by rewrite IH.
Qed.

(** C4, as the code has it.  The padding width is the larger of
    [min_width + len(leading_char) + len(closing_char)] of the padding
    field and [total_width] minus the widths of the other fields (an absent
    field counts 0); so it is at least the configured [min_width], the
    block is never narrower than [total_width], and it is wider when the
    other fields alone exceed [total_width]. *)
Theorem calculate_widths_padding (wcwidth : char -> Z) (config : LogConfig)
    (message : str) (reason status : option str) :
  w_padding (_calculate_widths wcwidth config message reason status)
  = Z.max (min_width (fields config Padding)
           + len (leading_char (fields config Padding))
           + len (closing_char (fields config Padding)))
          (total_width config
           - used_width (_calculate_widths wcwidth config message reason status))
  /\ min_width (fields config Padding)
     <= w_padding (_calculate_widths wcwidth config message reason status)
  /\ total_width config
     <= block_width (_calculate_widths wcwidth config message reason status)
  /\ (truthy reason = false ->
      w_reason (_calculate_widths wcwidth config message reason status) = 0)
  /\ (truthy status = false ->
      w_status (_calculate_widths wcwidth config message reason status) = 0)
  /\ (total_width config
      < used_width (_calculate_widths wcwidth config message reason status) ->
      0 <= min_width (fields config Padding) ->
      total_width config
      < block_width (_calculate_widths wcwidth config message reason status)).
Proof.
  unfold block_width, used_width, _calculate_widths, decoration. simpl.
  pose proof (len_nonneg (leading_char (fields config Padding))).
  pose proof (len_nonneg (closing_char (fields config Padding))).
  split; [f_equal; lia|]. split; [lia|]. split; [lia|].
  split; [by intros ->|]. split; [by intros ->|]. lia.
Qed.

(** C4 as stated fails: the lower bound of the padding width includes the
    leading and closing characters of the padding field. *)
Lemma calculate_widths_padding_decoration :
  w_padding (_calculate_widths wcwidth_sample default_config
               (replicate 55 97%N) (Some (replicate 20 98%N))
               (Some (lit "OK"))) = 3
  /\ Z.max (min_width (fields default_config Padding))
           (total_width default_config
            - used_width (_calculate_widths wcwidth_sample default_config
                            (replicate 55 97%N) (Some (replicate 20 98%N))
                            (Some (lit "OK")))) = 1
  /\ w_padding (_calculate_widths wcwidth_sample default_config
                  (replicate 55 97%N) (Some (replicate 20 98%N))
                  (Some (lit "OK")))
     <> Z.max (min_width (fields default_config Padding))
              (total_width default_config
               - used_width (_calculate_widths wcwidth_sample default_config
                               (replicate 55 97%N) (Some (replicate 20 98%N))
                               (Some (lit "OK")))).
Proof. split; [by vm_compute|]. split; by vm_compute. Qed.

(** [format_line] returns for every input. *)
Lemma format_line_total (wcwidth : char -> Z) (config : LogConfig)
    (message : str) (reason status : option str) :
  exists s, format_line wcwidth config message reason status = Some s.
Proof.
  unfold format_line.
  destruct (format_layout_total wcwidth config message reason status)
    as (l & -> & _). by eexists.
Qed.

(** C5 fails on the code.  Under the default configuration, a two-line
    message with a reason of wide characters: line 0 is 82 columns wide,
    line 1 is 80 (no style is configured, so the lines hold no escape
    sequence).  [rjust] pads by the number of characters while the column
    width was computed by [wcswidth]. *)
Theorem format_line_wide_reason :
  (fun l => map (wcswidth wcwidth_sample)
              (formatted_lines default_config (Some (lit "OK")) l))
  <$> format_layout wcwidth_sample default_config long_message
        (Some kanji) (Some (lit "OK"))
  = Some [82; 80].
Proof. by vm_compute. Qed.

(** The same message with a reason of narrow characters is aligned. *)
Example format_line_narrow_reason :
  (fun l => map (wcswidth wcwidth_sample)
              (formatted_lines default_config (Some (lit "OK")) l))
  <$> format_layout wcwidth_sample default_config long_message
        (Some (lit "ab")) (Some (lit "OK"))
  = Some [80; 80].
Proof. by vm_compute. Qed.

(** C9 fails on the code.  [wcswidth] is -1 for a message with a
    non-printable character; the message field then gets the width -1,
    nothing of the message is rendered and the line is the padding alone. *)
Theorem format_line_nonprintable :
  wcswidth wcwidth_sample bell_message = -1
  /\ w_message (_calculate_widths wcwidth_sample default_config
                  bell_message None None) = -1
  /\ format_line wcwidth_sample default_config bell_message None None
     = Some ([space] ++ replicate 79 46%N ++ [space]).
Proof. repeat split; by vm_compute. Qed.




(** C7 fails on the code.  With a leading and a closing character
    configured for the message field, the field of an empty message is 2
    columns wide.  With wrapping, as by default, no line is formatted and
    the fallback is the empty string: the message column of line 0 is
    empty, neither the brackets nor blanks, and the line is the padding
    alone, 78 columns.  Without wrapping the same field is the two
    brackets, and a line the field does not have is rendered as blanks of
    the field's width. *)
Theorem format_line_empty_message_bracketed :
  w_message (_calculate_widths wcwidth_sample bracket_config [] None None)
  = 2
  /\ _format_field wcwidth_sample bracket_config [] Message 2 = Some [[]]
  /\ format_line wcwidth_sample bracket_config [] None None
     = Some ([space] ++ replicate 76 46%N ++ [space])
  /\ _format_field wcwidth_sample bracket_unwrapped [] Message 2
     = Some [lit "[]"]
  /\ format_line wcwidth_sample bracket_unwrapped [] None None
     = Some (lit "[]" ++ [space] ++ replicate 76 46%N ++ [space])
  /\ message_part bracket_config
       (_calculate_widths wcwidth_sample bracket_config [] None None)
       [[]] 1
     = lit "  ".
Proof. repeat split; by vm_compute. Qed.

(** ** The defaults cascade *)

Module DefaultsFacts.

Import Defaults.

Local Open Scope nat_scope.

Local Arguments nonempty_dict : simpl never.

(** *** Attribute updates keep the shape of the store *)

Lemma same_kind_refl (o : obj) : same_kind o o.
Proof. by destruct o. Qed.

Lemma same_kind_trans (o1 o2 o3 : obj) :
  same_kind o1 o2 -> same_kind o2 o3 -> same_kind o1 o3.
Proof. destruct o1, o2; simpl; intros; by simplify_eq. Qed.

Lemma shape_refl (h : store) : shape h h.
Proof. apply Forall2_same_length_lookup. split; [done|].
  intros i x y ? ?. simplify_eq. apply same_kind_refl. Qed.

Lemma shape_trans (h1 h2 h3 : store) : shape h1 h2 -> shape h2 h3 -> shape h1 h3.
Proof.
  unfold shape. intros H12 H23.
  eapply Forall2_trans; [|done..]. apply same_kind_trans.
Qed.

Lemma shape_length (h h' : store) : shape h h' -> length h' = length h.
Proof. intros H. symmetry. by eapply Forall2_length. Qed.

Lemma shape_lookup (h h' : store) (l : loc) (o : obj) :
  shape h h' -> h !! l = Some o -> exists o', h' !! l = Some o' /\ same_kind o o'.
Proof. intros H Hl. by eapply Forall2_lookup_l. Qed.

Lemma shape_config (h h' : store) (l : loc) tw fs ls :
  shape h h' -> h !! l = Some (OLogConfig tw fs ls) ->
  h' !! l = Some (OLogConfig tw fs ls).
Proof.
  intros H Hl. destruct (shape_lookup _ _ _ _ H Hl) as (o' & Ho' & Hk).
  simpl in Hk. by subst.
Qed.

Lemma shape_fields_of (h h' : store) (c : loc) (fs : list (string * loc)) :
  shape h h' -> fields_of h c = Some fs -> fields_of h' c = Some fs.
Proof.
  unfold fields_of. intros H Hf.
  destruct (h !! c) as [[| tw fs0 ls | |]|] eqn:E; simplify_eq.
  by rewrite (shape_config _ _ _ _ _ _ H E).
Qed.

Lemma shape_insert (h : store) (l : loc) (a a' : gmap string pyval) :
  h !! l = Some (OFieldConfig a) -> shape h (<[l := OFieldConfig a']> h).
Proof.
  intros Hl. apply Forall2_same_length_lookup.
  split; [by rewrite length_insert|].
  intros i x y Hx Hy.
  destruct (decide (i = l)) as [->|Hne].
  - rewrite list_lookup_insert_eq in Hy by (by eapply lookup_lt_Some).
    by simplify_eq.
  - rewrite list_lookup_insert_ne in Hy by done. simplify_eq.
    apply same_kind_refl.
Qed.

Lemma setattr_inv (h h' : store) (l : loc) (key : string) (value : pyval) :
  setattr h l key value = Some h' ->
  exists a a', h !! l = Some (OFieldConfig a)
               /\ h' = <[l := OFieldConfig a']> h.
Proof.
  unfold setattr. intros H.
  destruct (h !! l) as [[a| | |]|]; simplify_eq.
  repeat case_match; simplify_eq; by eexists _, _.
Qed.

(** A name that is none of the three special ones is stored in the
    instance dictionary. *)
Lemma setattr_ordinary (h : store) (l : loc) (key : string) (value : pyval)
    (a : gmap string pyval) :
  key ∉ ["__class__"; "__weakref__"; "__dict__"] ->
  h !! l = Some (OFieldConfig a) ->
  setattr h l key value = Some (<[l := OFieldConfig (<[key := value]> a)]> h).
Proof.
  intros Hk Hl. unfold setattr. rewrite Hl.
  rewrite !bool_decide_eq_false_2; [done|..];
    intros ->; apply Hk; set_solver.
Qed.

Lemma setattrs_inv (h h' : store) (l : loc) (d : dict) :
  setattrs h l d = Some h' ->
  shape h h' /\ forall l', l' <> l -> h' !! l' = h !! l'.
Proof.
  revert h. induction d as [|[key value] d IH]; intros h H; simpl in H.
  - simplify_eq. split; [apply shape_refl|done].
  - destruct (setattr h l key value) as [h1|] eqn:E1; [|done]. simpl in H.
    apply setattr_inv in E1 as (a & a' & Ha & ->).
    destruct (IH _ H) as [Hs Ho]. split.
    + eapply shape_trans; [by eapply shape_insert|done].
    + intros l' Hne. rewrite Ho by done. by rewrite list_lookup_insert_ne.
Qed.

Lemma dict_lookup_elem {A} (key : string) (d : list (string * A)) (v : A) :
  dict_lookup key d = Some v -> v ∈ d.*2.
Proof.
  induction d as [|[k x] d IH]; [done|]. simpl.
  destruct (String.eqb k key); intros; simplify_eq; [left|right; auto].
Qed.

Lemma dict_lookup_None {A} (key : string) (d : list (string * A)) :
  dict_lookup key d = None <-> key ∉ d.*1.
Proof.
  induction d as [|[k x] d IH]; simpl.
  - split; [|done]. intros _ H. by apply elem_of_nil in H.
  - destruct (String.eqb_spec k key) as [->|Hne].
    + split; [done|]. intros H. exfalso. apply H. left.
    + rewrite IH. split.
      * intros H Hin. apply elem_of_cons in Hin as [?|?]; by simplify_eq.
      * intros H Hin. apply H. by right.
Qed.

(** One step of the patch loop, and the loop: attribute updates on the
    [FieldConfig]s the configuration refers to. *)
Lemma patch_fields_inv (h h' : store) (config : loc) (entries : dict) :
  patch_fields h config entries = Some h' ->
  shape h h'
  /\ forall fs, fields_of h config = Some fs ->
       forall l', l' ∉ fs.*2 -> h' !! l' = h !! l'.
Proof.
  revert h. induction entries as [|[name fc] rest IH]; intros h H; simpl in H.
  - simplify_eq. split; [apply shape_refl|done].
  - destruct (fields_of h config) as [fs|] eqn:Ef; [|done]. simpl in H.
    destruct (dict_lookup name fs) as [l|] eqn:El; simpl in H.
    + destruct (items fc) as [d|]; [|done]. simpl in H.
      destruct (setattrs h l d) as [h1|] eqn:E1; [|done]. simpl in H.
      destruct (setattrs_inv _ _ _ _ E1) as [Hs1 Ho1].
      destruct (IH _ H) as [Hs Ho]. split.
      * by eapply shape_trans.
      * intros fs0 [= <-] l' Hl'.
        rewrite (Ho fs (shape_fields_of _ _ _ _ Hs1 Ef) l' Hl').
        apply Ho1. intros ->. apply Hl'. by eapply dict_lookup_elem.
    + destruct (IH _ H) as [Hs Ho]. split; [done|].
      intros fs0 [= <-] l' Hl'. by apply (Ho fs).
Qed.

(** *** Copies are appended to the store *)

Lemma copy_fields_app (h h' : store) (memo : gmap loc loc)
    (fs fs' : list (string * loc)) :
  copy_fields h memo fs = Some (h', fs') ->
  exists new,
    h' = h ++ new /\ Forall is_field new /\ fs'.*1 = fs.*1
    /\ forall n, n <= length h ->
         (forall l l', memo !! l = Some l' -> n <= l') ->
         Forall (fun p => n <= p.2) fs'.
Proof.
  revert h h' memo fs'.
  induction fs as [|[name l] fs IH]; intros h h' memo fs' H; simpl in H.
  - simplify_eq. exists []. rewrite app_nil_r. by repeat split.
  - destruct (memo !! l) as [l'|] eqn:Em.
    + destruct (copy_fields h memo fs) as [[h1 rest']|] eqn:E; [|done].
      simpl in H. simplify_eq.
      destruct (IH _ _ _ _ E) as (new & -> & Hnew & Hn & Hfresh).
      exists new. split; [done|]. split; [done|]. split; [simpl; by f_equal|].
      intros n Hle Hmemo. constructor; [by eapply Hmemo|by apply Hfresh].
    + destruct (h !! l) as [[a| | |]|] eqn:El; try done. simpl in H.
      destruct (copy_fields (h ++ [OFieldConfig a]) (<[l:=length h]> memo) fs)
        as [[h1 rest']|] eqn:E; [|done].
      simpl in H. simplify_eq.
      destruct (IH _ _ _ _ E) as (new & -> & Hnew & Hn & Hfresh).
      exists (OFieldConfig a :: new). rewrite <- app_assoc.
      split; [done|]. split; [by constructor|]. split; [simpl; by f_equal|].
      intros n Hle Hmemo. constructor; [done|].
      apply Hfresh; [rewrite length_app; lia|].
      intros l0 l0' Hl0. destruct (decide (l0 = l)) as [->|Hne].
      * rewrite lookup_insert_eq in Hl0. by simplify_eq.
      * rewrite lookup_insert_ne in Hl0 by done. by eapply Hmemo.
Qed.

Lemma deepcopy_app (h h' : store) (l r : loc) :
  deepcopy h l = Some (h', r) ->
  exists new tw fs fs' ls,
    h !! l = Some (OLogConfig tw fs ls)
    /\ h' = h ++ new ++ [OLogConfig tw fs' ls]
    /\ r = length h + length new
    /\ Forall is_field new
    /\ fs'.*1 = fs.*1
    /\ Forall (fun p => length h <= p.2) fs'.
Proof.
  unfold deepcopy. intros H.
  destruct (h !! l) as [[|tw fs ls| |]|] eqn:El; try done.
  destruct (copy_fields h ∅ fs) as [[h1 fs']|] eqn:E; [|done].
  simpl in H. simplify_eq.
  destruct (copy_fields_app _ _ _ _ _ E) as (new & -> & Hnew & Hn & Hfresh).
  unfold alloc in H. injection H as <- <-.
  exists new, tw, fs, fs', ls. rewrite <- app_assoc, length_app.
  repeat split; try done. apply Hfresh; [done|].
  intros l0 l0' Hl0. by rewrite lookup_empty in Hl0.
Qed.

Lemma unchanged_below_app (n : nat) (h new : store) :
  n <= length h -> unchanged_below n h (h ++ new).
Proof. intros Hn l Hl. apply lookup_app_l. lia. Qed.

Lemma unchanged_below_trans (n m : nat) (h1 h2 h3 : store) :
  n <= m -> unchanged_below n h1 h2 -> unchanged_below m h2 h3 ->
  unchanged_below n h1 h3.
Proof. intros Hnm H12 H23 l Hl. rewrite H23 by lia. by apply H12. Qed.

Lemma fresh_config_mono (n m : nat) (h : store) (c : loc) :
  n <= m -> fresh_config m h c -> fresh_config n h c.
Proof.
  intros Hnm (Hc & fs & Hfs & Hall). split; [lia|].
  exists fs. split; [done|]. eapply Forall_impl; [done|]. simpl. lia.
Qed.

Lemma fresh_config_shape (n : nat) (h h' : store) (c : loc) :
  shape h h' -> fresh_config n h c -> fresh_config n h' c.
Proof.
  intros Hs (Hc & fs & Hfs & Hall). split; [done|].
  exists fs. split; [by eapply shape_fields_of|done].
Qed.

(** A deep copy is fresh, and leaves the store it was given as it was. *)
Lemma deepcopy_fresh (h h' : store) (l r : loc) :
  deepcopy h l = Some (h', r) ->
  unchanged_below (length h) h h'
  /\ length h <= length h'
  /\ fresh_config (length h) h' r
  /\ field_names h' r = field_names h l
  /\ level_styles_of h' r = level_styles_of h l.
Proof.
  intros H.
  destruct (deepcopy_app _ _ _ _ H)
    as (new & tw & fs & fs' & ls & Hl & -> & -> & Hnew & Hn & Hfresh).
  assert ((h ++ new ++ [OLogConfig tw fs' ls]) !! (length h + length new)
          = Some (OLogConfig tw fs' ls)) as Hr.
  { rewrite app_assoc, lookup_app_r by (rewrite length_app; lia).
    rewrite length_app. by replace (_ - _) with 0 by lia. }
  split; [by apply unchanged_below_app|].
  split; [rewrite length_app; lia|].
  split.
  { split; [lia|]. exists fs'. unfold fields_of. by rewrite Hr. }
  unfold field_names, fields_of, level_styles_of. rewrite Hr, Hl. simpl.
  by rewrite Hn.
Qed.

(** Patching a fresh configuration does not touch the objects below. *)
Lemma patch_fields_fresh (n : nat) (h h' : store) (config : loc)
    (entries : dict) :
  patch_fields h config entries = Some h' ->
  fresh_config n h config ->
  unchanged_below n h h' /\ shape h h'.
Proof.
  intros H (Hc & fs & Hfs & Hall).
  destruct (patch_fields_inv _ _ _ _ H) as [Hs Ho].
  split; [|done]. intros l Hl. apply (Ho fs Hfs).
  intros Hin. apply list_elem_of_fmap in Hin as ([name l0] & -> & Hin).
  rewrite Forall_forall in Hall. apply Hall in Hin. simpl in *. lia.
Qed.

Lemma set_total_width_inv (h h' : store) (c : loc) (value : pyval) :
  set_total_width h c value = Some h' ->
  exists tw fs ls,
    h !! c = Some (OLogConfig tw fs ls)
    /\ h' = <[c := OLogConfig value fs ls]> h.
Proof.
  unfold set_total_width. intros H.
  destruct (h !! c) as [[|tw fs ls| |]|]; simplify_eq. by eexists _, _, _.
Qed.

Lemma set_total_width_fresh (n : nat) (h h' : store) (c : loc)
    (value : pyval) :
  set_total_width h c value = Some h' ->
  fresh_config n h c ->
  unchanged_below n h h' /\ length h' = length h
  /\ fresh_config n h' c
  /\ field_names h' c = field_names h c
  /\ level_styles_of h' c = level_styles_of h c.
Proof.
  intros H (Hc & fs0 & Hfs & Hall).
  apply set_total_width_inv in H as (tw & fs & ls & Hl & ->).
  assert (c < length h) as Hlt by (by eapply lookup_lt_Some).
  assert (fs0 = fs) as -> by (unfold fields_of in Hfs; rewrite Hl in Hfs;
                               by simplify_eq).
  assert (<[c:=OLogConfig value fs ls]> h !! c
          = Some (OLogConfig value fs ls)) as Hr
    by (by apply list_lookup_insert_eq).
  split; [intros l Hlt'; apply list_lookup_insert_ne; lia|].
  split; [by rewrite length_insert|].
  split; [split; [done|]; exists fs; unfold fields_of; by rewrite Hr|].
  unfold field_names, fields_of, level_styles_of. by rewrite Hr, Hl.
Qed.

Lemma shape_cases (h h' : store) (l : loc) :
  shape h h' ->
  match h !! l with
  | Some (OFieldConfig _) => exists a', h' !! l = Some (OFieldConfig a')
  | o => h' !! l = o
  end.
Proof.
  intros Hs. destruct (h !! l) as [o|] eqn:El.
  - destruct (shape_lookup _ _ _ _ Hs El) as (o' & Ho' & Hk).
    destruct o; simpl in Hk; subst; try done.
    destruct o'; try done. by eexists.
  - apply lookup_ge_None. rewrite (shape_length _ _ Hs).
    by apply lookup_ge_None.
Qed.

Lemma shape_reads (h h' : store) (l : loc) :
  shape h h' ->
  fields_of h' l = fields_of h l
  /\ field_names h' l = field_names h l
  /\ level_styles_of h' l = level_styles_of h l
  /\ dict_at h' l = dict_at h l.
Proof.
  intros Hs. pose proof (shape_cases h h' l Hs) as H.
  unfold field_names, fields_of, level_styles_of, dict_at.
  destruct (h !! l) as [[| | |]|]; [destruct H as [a' ->]|rewrite H..]; done.
Qed.

(** [_merge_defaults] returns a fresh configuration with the field names
    and level styles of [base], and leaves the given store as it was. *)
Lemma merge_defaults_fresh (h h' : store) (base override r : loc) :
  _merge_defaults h base override = Some (h', r) ->
  unchanged_below (length h) h h'
  /\ length h <= length h'
  /\ fresh_config (length h) h' r
  /\ field_names h' r = field_names h base
  /\ level_styles_of h' r = level_styles_of h base.
Proof.
  unfold _merge_defaults. intros H.
  destruct (dict_at h override) as [ov|]; [|done]. simpl in H.
  destruct (deepcopy h base) as [[h1 result]|] eqn:Ecopy; [|done].
  simpl in H.
  destruct (deepcopy_fresh _ _ _ _ Ecopy) as (Hu1 & Hlen1 & Hf1 & Hn1 & Hl1).
  assert (exists h2,
            match dict_lookup "total_width" ov with
            | Some value => set_total_width h1 result value
            | None => Some h1
            end = Some h2) as [h2 E2].
  { destruct (match dict_lookup "total_width" ov with
              | Some value => _ | None => _ end); [by eexists|done]. }
  rewrite E2 in H. simpl in H.
  assert (unchanged_below (length h) h1 h2 /\ length h2 = length h1
          /\ fresh_config (length h) h2 result
          /\ field_names h2 result = field_names h1 result
          /\ level_styles_of h2 result = level_styles_of h1 result)
    as (Hu2 & Hlen2 & Hf2 & Hn2 & Hl2).
  { destruct (dict_lookup "total_width" ov).
    - by eapply set_total_width_fresh.
    - by simplify_eq. }
  assert (exists h3,
            match dict_lookup "fields" ov with
            | Some fields => entries ← items fields;
                             patch_fields h2 result entries
            | None => Some h2
            end = Some h3) as [h3 E3].
  { destruct (match dict_lookup "fields" ov with
              | Some fields => _ | None => _ end); [by eexists|done]. }
  rewrite E3 in H. simpl in H. simplify_eq.
  assert (unchanged_below (length h) h2 h' /\ shape h2 h') as [Hu3 Hs3].
  { destruct (dict_lookup "fields" ov) as [fields|].
    - destruct (items fields) as [entries|]; [|done]. simpl in E3.
      by eapply patch_fields_fresh.
    - simplify_eq. split; [done|apply shape_refl]. }
  destruct (shape_reads h2 h' r Hs3) as (_ & Hn3 & Hl3 & _).
  split.
  { apply (unchanged_below_trans (length h) (length h) h h1 h');
      [done|done|].
    by apply (unchanged_below_trans (length h) (length h) h1 h2 h'). }
  split; [rewrite (shape_length _ _ Hs3); lia|].
  split; [by eapply fresh_config_shape|].
  split; congruence.
Qed.

(** The optional merge of [get_effective_defaults]. *)
Lemma optional_merge_fresh (n : nat) (h h' : store) (config r : loc)
    (blob : option loc) :
  match blob with
  | Some b => _merge_defaults h config b
  | None => Some (h, config)
  end = Some (h', r) ->
  n <= length h -> fresh_config n h config ->
  unchanged_below n h h'
  /\ length h <= length h'
  /\ fresh_config n h' r
  /\ field_names h' r = field_names h config
  /\ level_styles_of h' r = level_styles_of h config.
Proof.
  intros H Hn Hf. destruct blob as [b|].
  - destruct (merge_defaults_fresh _ _ _ _ _ H) as (Hu & Hlen & Hf' & Hnm & Hl).
    split; [intros l Hl'; apply Hu; lia|]. split; [done|].
    split; [by eapply fresh_config_mono|done].
  - by simplify_eq.
Qed.

(** The level styles step of [get_effective_defaults]. *)
Lemma level_patch_fresh (n : nat) (h h' : store) (config : loc)
    (level : option string) (level_styles : dict) :
  match level with
  | Some (String a s) =>
      match dict_lookup (String a s) level_styles with
      | Some styles => entries ← items styles; patch_fields h config entries
      | None => Some h
      end
  | _ => Some h
  end = Some h' ->
  fresh_config n h config ->
  unchanged_below n h h' /\ shape h h'.
Proof.
  intros H Hf.
  destruct level as [[|a s]|]; try (simplify_eq; by split; [|apply shape_refl]).
  destruct (dict_lookup (String a s) level_styles) as [styles|];
    [|simplify_eq; by split; [|apply shape_refl]].
  destruct (items styles) as [entries|]; [|done]. simpl in H.
  by eapply patch_fields_fresh.
Qed.

(** [get_effective_defaults] returns a configuration all of whose objects
    are new, with the field names of the system defaults, and leaves every
    object of the store it was given as it was. *)
Lemma get_effective_defaults_fresh (h h' : store) (system_defaults r : loc)
    (instance_id : string) (template_name level : option string)
    (template_config : option loc) (kwargs : loc) :
  get_effective_defaults h system_defaults instance_id template_name level
    template_config kwargs = Some (h', r) ->
  unchanged_below (length h) h h'
  /\ length h <= length h'
  /\ fresh_config (length h) h' r
  /\ field_names h' r = field_names h system_defaults.
Proof.
  unfold get_effective_defaults. intros H.
  destruct (deepcopy h system_defaults) as [[h1 c1]|] eqn:E1; [|done].
  simpl in H.
  destruct (deepcopy_fresh _ _ _ _ E1) as (Hu1 & Hlen1 & Hf1 & Hn1 & _).
  destruct (nonempty_dict h1 template_config) as [tc|]; [|done]. simpl in H.
  destruct (match tc with
            | Some tc0 => _merge_defaults h1 c1 tc0
            | None => Some (h1, c1)
            end) as [[h2 c2]|] eqn:E2; [|done].
  simpl in H.
  destruct (optional_merge_fresh (length h) _ _ _ _ _ E2 Hlen1 Hf1)
    as (Hu2 & Hlen2 & Hf2 & Hn2 & _).
  destruct (level_styles_of h2 c2) as [level_styles|]; [|done]. simpl in H.
  destruct (match level with
            | Some (String a s) => _
            | _ => Some h2
            end) as [h3|] eqn:E3; [|done].
  simpl in H.
  destruct (level_patch_fresh (length h) _ _ _ _ _ E3 Hf2) as [Hu3 Hs3].
  destruct (nonempty_dict h3 (Some kwargs)) as [kw|]; [|done]. simpl in H.
  pose proof (fresh_config_shape _ _ _ _ Hs3 Hf2) as Hf3.
  assert (length h <= length h3) as Hlen3
    by (rewrite (shape_length _ _ Hs3); lia).
  destruct (optional_merge_fresh (length h) _ _ _ _ _ H Hlen3 Hf3)
    as (Hu4 & Hlen4 & Hf4 & Hn4 & _).
  destruct (shape_reads h2 h3 c2 Hs3) as (_ & Hn3 & _ & _).
  split.
  { apply (unchanged_below_trans (length h) (length h) h h1 h');
      [done|done|].
    apply (unchanged_below_trans (length h) (length h) h1 h2 h');
      [done|done|].
    by apply (unchanged_below_trans (length h) (length h) h2 h3 h'). }
  split; [lia|]. split; [done|]. congruence.
Qed.

(** *** Entries for unknown field names *)

Lemma field_names_lookup (h : store) (c : loc) (names : list string)
    (name : string) :
  field_names h c = Some names -> name ∉ names ->
  exists fs, fields_of h c = Some fs /\ dict_lookup name fs = None.
Proof.
  unfold field_names. intros H Hn.
  destruct (fields_of h c) as [fs|]; [|done]. simpl in H. simplify_eq.
  exists fs. split; [done|]. by apply dict_lookup_None.
Qed.

Lemma patch_fields_step_shape (h h' : store) (fs : list (string * loc))
    (name : string) (fc : pyval) :
  match dict_lookup name fs with
  | Some l => d ← items fc; setattrs h l d
  | None => Some h
  end = Some h' ->
  shape h h'.
Proof.
  destruct (dict_lookup name fs) as [l|]; [|intros; simplify_eq; apply shape_refl].
  destruct (items fc) as [d|]; [|done]. simpl. intros H.
  by destruct (setattrs_inv _ _ _ _ H).
Qed.

(** The patch loop skips an entry whose name is not a key of
    [config.fields], whatever its value. *)
Lemma patch_fields_skip (h : store) (config : loc) (names : list string)
    (name : string) (v : pyval) (e1 e2 : dict) :
  field_names h config = Some names -> name ∉ names ->
  patch_fields h config (e1 ++ (name, v) :: e2)
  = patch_fields h config (e1 ++ e2).
Proof.
  intros Hnames Hn. revert h Hnames.
  induction e1 as [|[n1 fc1] e1 IH]; intros h Hnames; simpl.
  - destruct (field_names_lookup _ _ _ _ Hnames Hn) as (fs & Hfs & Hl).
    rewrite Hfs. simpl. by rewrite Hl.
  - destruct (fields_of h config) as [fs|] eqn:Ef; [|done]. simpl.
    destruct (match dict_lookup n1 fs with
              | Some l => _ | None => _ end) as [h1|] eqn:E1; [|done].
    simpl. apply IH.
    apply patch_fields_step_shape in E1.
    destruct (shape_reads h h1 config E1) as (_ & -> & _). done.
Qed.

(** Two blobs that differ in one entry of ['fields'] whose name is not a
    field name. *)
Lemma merge_defaults_skip (h : store) (base b1 b2 : loc)
    (names : list string) (d1 d2 : dict) (name : string) (v : pyval)
    (e1 e2 : dict) :
  field_names h base = Some names -> name ∉ names ->
  dict_at h b1 = Some d1 -> dict_at h b2 = Some d2 ->
  dict_lookup "total_width" d1 = dict_lookup "total_width" d2 ->
  dict_lookup "fields" d1 = Some (PDict (e1 ++ (name, v) :: e2)) ->
  dict_lookup "fields" d2 = Some (PDict (e1 ++ e2)) ->
  _merge_defaults h base b1 = _merge_defaults h base b2.
Proof.
  intros Hnames Hn Hb1 Hb2 Htw Hf1 Hf2. unfold _merge_defaults.
  rewrite Hb1, Hb2. simpl.
  destruct (deepcopy h base) as [[h1 result]|] eqn:Ecopy; [|done]. simpl.
  destruct (deepcopy_fresh _ _ _ _ Ecopy) as (_ & _ & Hfresh & Hn1 & _).
  rewrite Htw, Hf1, Hf2. simpl.
  destruct (match dict_lookup "total_width" d2 with
            | Some value => set_total_width h1 result value
            | None => Some h1
            end) as [h2|] eqn:E2; [|done].
  simpl. f_equal. eapply patch_fields_skip; [|done].
  destruct (dict_lookup "total_width" d2).
  - destruct (set_total_width_fresh _ _ _ _ _ E2 Hfresh)
      as (_ & _ & _ & -> & _). congruence.
  - simplify_eq. congruence.
Qed.

Lemma dict_at_lt (h : store) (b : loc) (d : dict) :
  dict_at h b = Some d -> b < length h.
Proof.
  unfold dict_at. intros H. destruct (h !! b) eqn:E; [|done].
  by eapply lookup_lt_Some.
Qed.

Lemma nonempty_dict_unchanged (h h' : store) (b : loc) (d : dict) :
  unchanged_below (length h) h h' -> dict_at h b = Some d ->
  nonempty_dict h' (Some b)
  = Some (match d with [] => None | _ => Some b end).
Proof.
  intros Hu Hb. unfold nonempty_dict, dict_at in *.
  rewrite Hu by (destruct (h !! b) eqn:E; [by eapply lookup_lt_Some|done]).
  destruct (h !! b) as [[| |d0|]|]; by simplify_eq.
Qed.

(** C8.  Let the system defaults have the field names [names] (the four
    names after [LogConfig()]), and let two blobs differ only in that the
    ['fields'] dict of the first has one more entry, under a name that is
    not in [names].  Then [get_effective_defaults] returns the same for
    both, as template config and as per-call override: the entry changes
    nothing and raises nothing, whatever its value.  The configuration
    returned always has exactly the field names [names]. *)
Theorem unknown_field_ignored (h : store) (system_defaults : loc)
    (instance_id : string) (template_name level : option string)
    (names : list string) (b1 b2 : loc) (d1 d2 : dict)
    (name : string) (v : pyval) (e1 e2 : dict) :
  field_names h system_defaults = Some names ->
  name ∉ names ->
  dict_at h b1 = Some d1 -> dict_at h b2 = Some d2 ->
  dict_lookup "total_width" d1 = dict_lookup "total_width" d2 ->
  dict_lookup "fields" d1 = Some (PDict (e1 ++ (name, v) :: e2)) ->
  dict_lookup "fields" d2 = Some (PDict (e1 ++ e2)) ->
  (forall kwargs,
     get_effective_defaults h system_defaults instance_id template_name
       level (Some b1) kwargs
     = get_effective_defaults h system_defaults instance_id template_name
         level (Some b2) kwargs)
  /\ (forall template_config,
        get_effective_defaults h system_defaults instance_id template_name
          level template_config b1
        = get_effective_defaults h system_defaults instance_id template_name
            level template_config b2)
  /\ (forall template_config kwargs h' r,
        get_effective_defaults h system_defaults instance_id template_name
          level template_config kwargs = Some (h', r) ->
        field_names h' r = Some names).
Proof.
  intros Hnames Hn Hb1 Hb2 Htw Hf1 Hf2.
  assert (d1 <> [] /\ d2 <> []) as [Hd1 Hd2].
  { split; intros ->; done. }
  split; [|split].
  - intros kwargs. unfold get_effective_defaults.
    destruct (deepcopy h system_defaults) as [[h1 c1]|] eqn:E1; [|done].
    simpl.
    destruct (deepcopy_fresh _ _ _ _ E1) as (Hu1 & Hlen1 & Hfr1 & Hn1 & _).
    rewrite (nonempty_dict_unchanged h h1 b1 d1 Hu1 Hb1).
    rewrite (nonempty_dict_unchanged h h1 b2 d2 Hu1 Hb2).
    destruct d1 as [|p1 d1]; [done|]. destruct d2 as [|p2 d2]; [done|].
    simpl.
    rewrite (merge_defaults_skip h1 c1 b1 b2 names (p1 :: d1) (p2 :: d2)
               name v e1 e2); try done.
    + congruence.
    + unfold dict_at in *. rewrite Hu1; [done|].
      destruct (h !! b1) eqn:E; [by eapply lookup_lt_Some|done].
    + unfold dict_at in *. rewrite Hu1; [done|].
      destruct (h !! b2) eqn:E; [by eapply lookup_lt_Some|done].
  - intros template_config. unfold get_effective_defaults.
    destruct (deepcopy h system_defaults) as [[h1 c1]|] eqn:E1; [|done].
    simpl.
    destruct (deepcopy_fresh _ _ _ _ E1) as (Hu1 & Hlen1 & Hfr1 & Hn1 & _).
    destruct (nonempty_dict h1 template_config) as [tc|]; [|done]. simpl.
    destruct (match tc with
              | Some tc0 => _merge_defaults h1 c1 tc0
              | None => Some (h1, c1)
              end) as [[h2 c2]|] eqn:E2; [|done].
    simpl.
    destruct (optional_merge_fresh (length h) _ _ _ _ _ E2 Hlen1 Hfr1)
      as (Hu2 & Hlen2 & Hfr2 & Hn2 & _).
    destruct (level_styles_of h2 c2) as [level_styles|]; [|done]. simpl.
    destruct (match level with
              | Some (String a s) => _
              | _ => Some h2
              end) as [h3|] eqn:E3; [|done].
    simpl.
    destruct (level_patch_fresh (length h) _ _ _ _ _ E3 Hfr2) as [Hu3 Hs3].
    destruct (shape_reads h2 h3 c2 Hs3) as (_ & Hn3 & _ & _).
    assert (unchanged_below (length h) h h3) as Hu.
    { apply (unchanged_below_trans (length h) (length h) h h1 h3);
        [done|done|].
      by apply (unchanged_below_trans (length h) (length h) h1 h2 h3). }
    rewrite (nonempty_dict_unchanged h h3 b1 d1 Hu Hb1).
    rewrite (nonempty_dict_unchanged h h3 b2 d2 Hu Hb2).
    destruct d1 as [|p1 d1]; [done|]. destruct d2 as [|p2 d2]; [done|].
    simpl.
    apply (merge_defaults_skip h3 c2 b1 b2 names (p1 :: d1) (p2 :: d2)
             name v e1 e2); try done.
    + congruence.
    + unfold dict_at in *. rewrite Hu; [done|].
      destruct (h !! b1) eqn:E; [by eapply lookup_lt_Some|done].
    + unfold dict_at in *. rewrite Hu; [done|].
      destruct (h !! b2) eqn:E; [by eapply lookup_lt_Some|done].
  - intros template_config kwargs h' r H.
    destruct (get_effective_defaults_fresh _ _ _ _ _ _ _ _ _ H)
      as (_ & _ & _ & Hnr). congruence.
Qed.

(** *** Running in a store with more objects

    [moved n k a b]: the run in [b] allocates every object [k] addresses
    further than the run in [a].  Every operation that succeeds in [a]
    succeeds in [b] with the moved result. *)

Section Moved.

Variables n k : nat.

Local Abbreviation mv := (move n k).
Local Abbreviation mvf := (move_fields n k).
Local Abbreviation mvo := (move_obj n k).
Local Abbreviation rel := (moved n k).

#[local] Instance move_inj : Inj (=) (=) mv.
Proof. intros x y. unfold move. repeat case_decide; lia. Qed.

Lemma move_ge (l : loc) : n <= l -> mv l = l + k.
Proof. unfold move. case_decide; lia. Qed.

Lemma move_lt (l : loc) : l < n -> mv l = l.
Proof. unfold move. case_decide; lia. Qed.

Lemma moved_lookup (a b : store) (l : loc) :
  rel a b ->
  b !! mv l = if decide (l < n) then a !! l else mvo <$> a !! l.
Proof.
  intros (Hlen & Hn & Hold & Hnew & Hd). case_decide.
  - rewrite move_lt by done. by apply Hold.
  - rewrite move_ge by lia. apply Hnew. lia.
Qed.

Lemma moved_lookup_field (a b : store) (l : loc) (at_ : gmap string pyval) :
  rel a b -> a !! l = Some (OFieldConfig at_) ->
  b !! mv l = Some (OFieldConfig at_).
Proof.
  intros H Hl. rewrite (moved_lookup a b l H), Hl. by case_decide.
Qed.

Lemma moved_field_at (a b : store) (l : loc) :
  rel a b -> field_at b (mv l) = field_at a l.
Proof.
  intros H. unfold field_at. rewrite (moved_lookup a b l H).
  case_decide; [done|]. by destruct (a !! l) as [[]|].
Qed.

Lemma moved_lookup_config (a b : store) (l : loc) tw fs ls :
  rel a b -> n <= l -> a !! l = Some (OLogConfig tw fs ls) ->
  b !! (l + k) = Some (OLogConfig tw (mvf fs) ls).
Proof.
  intros H Hl Ha. rewrite <- move_ge by done.
  rewrite (moved_lookup a b l H), Ha. case_decide; [lia|done].
Qed.

Lemma moved_dict_at (a b : store) (l : loc) (d : dict) :
  rel a b -> dict_at a l = Some d -> dict_at b l = Some d.
Proof.
  intros (Hlen & Hn & Hold & Hnew & Hd). unfold dict_at. intros H.
  destruct (a !! l) as [[| |d0|]|] eqn:E; simplify_eq.
  by rewrite (Hold l (Hd _ _ E)), E.
Qed.

Lemma moved_nonempty_dict (a b : store) (x y : option loc) :
  rel a b -> nonempty_dict a x = Some y -> nonempty_dict b x = Some y.
Proof.
  intros H. unfold nonempty_dict. destruct x as [l|]; [|done].
  destruct (dict_at a l) as [d|] eqn:E; [|done].
  by rewrite (moved_dict_at _ _ _ _ H E).
Qed.

Lemma moved_alloc (a b : store) (o : obj) :
  rel a b -> (forall d, o <> ODict d) ->
  rel (a ++ [o]) (b ++ [mvo o]) /\ length b = length a + k.
Proof.
  intros (Hlen & Hn & Hold & Hnew & Hd) Ho. split; [|done].
  split; [rewrite !length_app; simpl; lia|].
  split; [rewrite length_app; lia|].
  split; [|split].
  - intros l Hl. rewrite !lookup_app_l by lia. by apply Hold.
  - intros l Hl. destruct (decide (l < length a)) as [Hlt|Hge].
    + rewrite !lookup_app_l by lia. by apply Hnew.
    + rewrite !lookup_app_r by lia.
      replace (l + k - length b) with (l - length a) by lia.
      by destruct (l - length a) as [|[|]].
  - intros l d Hl. destruct (decide (l < length a)) as [Hlt|Hge].
    + rewrite lookup_app_l in Hl by done. by eapply Hd.
    + rewrite lookup_app_r in Hl by lia.
      destruct (l - length a) as [|m]; simpl in Hl;
        [|by rewrite lookup_nil in Hl].
      simplify_eq. by destruct (Ho d).
Qed.

Lemma moved_insert (a b : store) (l : loc) (o o' : obj) :
  rel a b -> a !! l = Some o ->
  (forall d, o' <> ODict d) ->
  (l < n -> mvo o' = o') ->
  rel (<[l := o']> a) (<[mv l := mvo o']> b).
Proof.
  intros (Hlen & Hn & Hold & Hnew & Hd) Hl Ho Hsame.
  assert (l < length a) as Hlt by (by eapply lookup_lt_Some).
  split; [by rewrite !length_insert|].
  split; [by rewrite length_insert|].
  split; [|split].
  - intros l0 Hl0. destruct (decide (l0 = l)) as [->|Hne].
    + rewrite move_lt by done.
      rewrite !list_lookup_insert_eq by lia. by rewrite Hsame.
    + rewrite (list_lookup_insert_ne a) by done.
      rewrite list_lookup_insert_ne; [by apply Hold|].
      unfold move. case_decide; lia.
  - intros l0 Hl0. destruct (decide (l0 = l)) as [->|Hne].
    + rewrite move_ge by done.
      by rewrite !list_lookup_insert_eq by lia.
    + rewrite (list_lookup_insert_ne a) by done.
      rewrite list_lookup_insert_ne; [by apply Hnew|].
      unfold move. case_decide; lia.
  - intros l0 d Hl0. destruct (decide (l0 = l)) as [->|Hne].
    + rewrite list_lookup_insert_eq in Hl0 by done. simplify_eq.
      by destruct (Ho d).
    + rewrite list_lookup_insert_ne in Hl0 by done. by eapply Hd.
Qed.

Lemma moved_setattr (a a' b : store) (l : loc) (key : string)
    (value : pyval) :
  rel a b -> setattr a l key value = Some a' ->
  exists b', setattr b (mv l) key value = Some b' /\ rel a' b'.
Proof.
  intros H Hs. unfold setattr in *.
  destruct (a !! l) as [[at_| | |]|] eqn:Hl; try done.
  rewrite (moved_lookup_field _ _ _ _ H Hl).
  repeat case_match; simplify_eq;
    (eexists; split; [done|];
     by apply (moved_insert a b l (OFieldConfig at_) (OFieldConfig _))).
Qed.

Lemma moved_setattrs (a a' b : store) (l : loc) (d : dict) :
  rel a b -> setattrs a l d = Some a' ->
  exists b', setattrs b (mv l) d = Some b' /\ rel a' b'.
Proof.
  revert a b. induction d as [|[key value] d IH]; intros a b H Hs;
    simpl in *.
  - simplify_eq. by eexists.
  - destruct (setattr a l key value) as [a1|] eqn:E1; [|done]. simpl in Hs.
    destruct (moved_setattr _ _ _ _ _ _ H E1) as (b1 & -> & H1). simpl.
    by eapply IH.
Qed.

Lemma dict_lookup_move (name : string) (fs : list (string * loc)) :
  dict_lookup name (mvf fs) = mv <$> dict_lookup name fs.
Proof.
  induction fs as [|[k0 l] fs IH]; [done|]. simpl.
  by destruct (String.eqb k0 name).
Qed.

Lemma moved_copy_fields (a a' b : store) (memo : gmap loc loc)
    (fs fs' : list (string * loc)) :
  rel a b -> copy_fields a memo fs = Some (a', fs') ->
  exists b',
    copy_fields b (kmap mv (mv <$> memo)) (mvf fs) = Some (b', mvf fs')
    /\ rel a' b'.
Proof.
  revert a a' b memo fs'.
  induction fs as [|[name l] fs IH]; intros a a' b memo fs' H Hc;
    simpl in *.
  - simplify_eq. by eexists.
  - rewrite lookup_kmap, lookup_fmap by apply _.
    destruct (memo !! l) as [l'|] eqn:Em; simpl.
    + destruct (copy_fields a memo fs) as [[a1 rest']|] eqn:E; [|done].
      simpl in Hc. simplify_eq.
      destruct (IH _ _ _ _ _ H E) as (b' & -> & H'). simpl.
      by eexists.
    + destruct (a !! l) as [[at_| | |]|] eqn:El; try done.
      rewrite (moved_lookup_field _ _ _ _ H El).
      unfold alloc in *.
      destruct (copy_fields (a ++ [OFieldConfig at_])
                  (<[l:=length a]> memo) fs) as [[a1 rest']|] eqn:E; [|done].
      simpl in Hc. simplify_eq.
      destruct (moved_alloc a b (OFieldConfig at_) H ltac:(done))
        as [H1 Hlen].
      destruct (IH _ _ _ _ _ H1 E) as (b' & Hb' & H').
      rewrite fmap_insert, kmap_insert in Hb' by apply _.
      destruct H as (_ & Hn & _).
      rewrite (move_ge (length a)) in Hb' by done.
      rewrite Hlen. simpl in Hb'. rewrite Hb'. simpl.
      eexists. split; [|done]. by rewrite move_ge.
Qed.

Local Abbreviation config_moved := (moved_config n k).

Lemma config_moved_new (a b : store) (l : loc) :
  rel a b -> n <= l -> config_moved a b l.
Proof.
  intros H Hl tw fs ls Ha. rewrite move_ge by done.
  by eapply moved_lookup_config.
Qed.

Lemma moved_deepcopy (a a' b : store) (l r : loc) :
  rel a b -> config_moved a b l -> deepcopy a l = Some (a', r) ->
  exists b', deepcopy b (mv l) = Some (b', r + k) /\ rel a' b' /\ n <= r.
Proof.
  intros H Hcfg Hc. unfold deepcopy in *.
  destruct (a !! l) as [[|tw fs ls| |]|] eqn:El; try done.
  rewrite (Hcfg _ _ _ El).
  destruct (copy_fields a ∅ fs) as [[a1 fs']|] eqn:E; [|done].
  simpl in Hc. unfold alloc in Hc. simplify_eq.
  destruct (moved_copy_fields _ _ _ _ _ _ H E) as (b1 & Hb1 & H1).
  rewrite fmap_empty, kmap_empty in Hb1. rewrite Hb1. simpl.
  destruct (moved_alloc a1 b1 (OLogConfig tw fs' ls) H1 ltac:(done))
    as [H2 Hlen].
  unfold alloc. rewrite Hlen. eexists. split; [done|]. split; [done|].
  by destruct H1 as (_ & ? & _).
Qed.

Lemma moved_set_total_width (a a' b : store) (c : loc) (value : pyval) :
  rel a b -> n <= c -> set_total_width a c value = Some a' ->
  exists b', set_total_width b (c + k) value = Some b' /\ rel a' b'.
Proof.
  intros H Hc Hs. apply set_total_width_inv in Hs as (tw & fs & ls & Hl & ->).
  unfold set_total_width. rewrite (moved_lookup_config _ _ _ _ _ _ H Hc Hl).
  eexists. split; [done|]. rewrite <- (move_ge c) by done.
  apply (moved_insert a b c (OLogConfig tw fs ls) (OLogConfig value fs ls));
    try done. lia.
Qed.

Lemma moved_fields_of (a b : store) (c : loc) (fs : list (string * loc)) :
  rel a b -> n <= c -> fields_of a c = Some fs ->
  fields_of b (c + k) = Some (mvf fs).
Proof.
  intros H Hc. unfold fields_of. intros Hf.
  destruct (a !! c) as [[|tw fs0 ls| |]|] eqn:E; simplify_eq.
  by rewrite (moved_lookup_config _ _ _ _ _ _ H Hc E).
Qed.

Lemma moved_level_styles_of (a b : store) (c : loc) (ls : dict) :
  rel a b -> n <= c -> level_styles_of a c = Some ls ->
  level_styles_of b (c + k) = Some ls.
Proof.
  intros H Hc. unfold level_styles_of. intros Hf.
  destruct (a !! c) as [[|tw fs0 ls0| |]|] eqn:E; simplify_eq.
  by rewrite (moved_lookup_config _ _ _ _ _ _ H Hc E).
Qed.

Lemma moved_patch_fields (a a' b : store) (c : loc) (entries : dict) :
  rel a b -> n <= c -> patch_fields a c entries = Some a' ->
  exists b', patch_fields b (c + k) entries = Some b' /\ rel a' b'.
Proof.
  intros H Hc. revert a b H.
  induction entries as [|[name fc] rest IH]; intros a b H Hp; simpl in *.
  - simplify_eq. by eexists.
  - destruct (fields_of a c) as [fs|] eqn:Ef; [|done]. simpl in Hp.
    rewrite (moved_fields_of _ _ _ _ H Hc Ef). simpl.
    rewrite dict_lookup_move.
    destruct (dict_lookup name fs) as [l|]; simpl in *.
    + destruct (items fc) as [d|]; [|done]. simpl in *.
      destruct (setattrs a l d) as [a1|] eqn:E1; [|done]. simpl in Hp.
      destruct (moved_setattrs _ _ _ _ _ H E1) as (b1 & -> & H1). simpl.
      by eapply IH.
    + by eapply IH.
Qed.

Lemma moved_merge_defaults (a a' b : store) (base override r : loc) :
  rel a b -> config_moved a b base ->
  _merge_defaults a base override = Some (a', r) ->
  exists b',
    _merge_defaults b (mv base) override = Some (b', r + k)
    /\ rel a' b' /\ n <= r.
Proof.
  intros H Hcfg Hm. unfold _merge_defaults in *.
  destruct (dict_at a override) as [ov|] eqn:Eo; [|done]. simpl in Hm.
  rewrite (moved_dict_at _ _ _ _ H Eo). simpl.
  destruct (deepcopy a base) as [[a1 result]|] eqn:Ecopy; [|done].
  simpl in Hm.
  destruct (moved_deepcopy _ _ _ _ _ H Hcfg Ecopy) as (b1 & -> & H1 & Hr).
  simpl.
  destruct (match dict_lookup "total_width" ov with
            | Some value => set_total_width a1 result value
            | None => Some a1
            end) as [a2|] eqn:E2; [|done].
  simpl in Hm.
  assert (exists b2,
            match dict_lookup "total_width" ov with
            | Some value => set_total_width b1 (result + k) value
            | None => Some b1
            end = Some b2 /\ rel a2 b2) as (b2 & -> & H2).
  { destruct (dict_lookup "total_width" ov).
    - by eapply moved_set_total_width.
    - simplify_eq. by eexists. }
  simpl.
  destruct (match dict_lookup "fields" ov with
            | Some fields => entries ← items fields;
                             patch_fields a2 result entries
            | None => Some a2
            end) as [a3|] eqn:E3; [|done].
  simpl in Hm. simplify_eq.
  assert (exists b3,
            match dict_lookup "fields" ov with
            | Some fields => entries ← items fields;
                             patch_fields b2 (r + k) entries
            | None => Some b2
            end = Some b3 /\ rel a' b3) as (b3 & -> & H3).
  { destruct (dict_lookup "fields" ov) as [fields|].
    - destruct (items fields) as [entries|]; [|done]. simpl in *.
      by eapply moved_patch_fields.
    - simplify_eq. by eexists. }
  simpl. by eexists.
Qed.

Lemma moved_optional_merge (a a' b : store) (c r : loc) (blob : option loc) :
  rel a b -> n <= c ->
  match blob with
  | Some x => _merge_defaults a c x
  | None => Some (a, c)
  end = Some (a', r) ->
  exists b',
    match blob with
    | Some x => _merge_defaults b (c + k) x
    | None => Some (b, c + k)
    end = Some (b', r + k)
    /\ rel a' b' /\ n <= r.
Proof.
  intros H Hc Hm. destruct blob as [x|].
  - rewrite <- (move_ge c) by done.
    eapply moved_merge_defaults; [done| |done].
    by apply config_moved_new.
  - simplify_eq. by eexists.
Qed.

Lemma moved_level_patch (a a' b : store) (c : loc) (level : option string)
    (level_styles : dict) :
  rel a b -> n <= c ->
  match level with
  | Some (String x s) =>
      match dict_lookup (String x s) level_styles with
      | Some styles => entries ← items styles; patch_fields a c entries
      | None => Some a
      end
  | _ => Some a
  end = Some a' ->
  exists b',
    match level with
    | Some (String x s) =>
        match dict_lookup (String x s) level_styles with
        | Some styles => entries ← items styles;
                         patch_fields b (c + k) entries
        | None => Some b
        end
    | _ => Some b
    end = Some b'
    /\ rel a' b'.
Proof.
  intros H Hc Hp.
  destruct level as [[|x s]|]; try (simplify_eq; by eexists).
  destruct (dict_lookup (String x s) level_styles) as [styles|];
    [|simplify_eq; by eexists].
  destruct (items styles) as [entries|]; [|done]. simpl in *.
  by eapply moved_patch_fields.
Qed.

(** The whole cascade, run in the store with more objects. *)
Lemma moved_get_effective_defaults (a a' b : store) (system_defaults r : loc)
    (instance_id : string) (template_name level : option string)
    (template_config : option loc) (kwargs : loc) :
  rel a b -> config_moved a b system_defaults -> system_defaults < n ->
  get_effective_defaults a system_defaults instance_id template_name level
    template_config kwargs = Some (a', r) ->
  exists b',
    get_effective_defaults b system_defaults instance_id template_name level
      template_config kwargs = Some (b', r + k)
    /\ rel a' b' /\ n <= r.
Proof.
  intros H Hcfg Hsys Hg. unfold get_effective_defaults in *.
  destruct (deepcopy a system_defaults) as [[a1 c1]|] eqn:E1; [|done].
  simpl in Hg.
  destruct (moved_deepcopy _ _ _ _ _ H Hcfg E1) as (b1 & Hb1 & H1 & Hc1).
  rewrite move_lt in Hb1 by done. rewrite Hb1. simpl.
  destruct (nonempty_dict a1 template_config) as [tc|] eqn:Etc; [|done].
  simpl in Hg. rewrite (moved_nonempty_dict _ _ _ _ H1 Etc). simpl.
  destruct (match tc with
            | Some tc0 => _merge_defaults a1 c1 tc0
            | None => Some (a1, c1)
            end) as [[a2 c2]|] eqn:E2; [|done].
  simpl in Hg.
  destruct (moved_optional_merge _ _ _ _ _ _ H1 Hc1 E2) as (b2 & -> & H2 & Hc2).
  simpl.
  destruct (level_styles_of a2 c2) as [level_styles|] eqn:Els; [|done].
  simpl in Hg. rewrite (moved_level_styles_of _ _ _ _ H2 Hc2 Els). simpl.
  destruct (match level with
            | Some (String x s) => _
            | _ => Some a2
            end) as [a3|] eqn:E3; [|done].
  simpl in Hg.
  destruct (moved_level_patch _ _ _ _ _ _ H2 Hc2 E3) as (b3 & -> & H3).
  simpl.
  destruct (nonempty_dict a3 (Some kwargs)) as [kw|] eqn:Ekw; [|done].
  simpl in Hg. rewrite (moved_nonempty_dict _ _ _ _ H3 Ekw). simpl.
  by eapply moved_optional_merge.
Qed.

(** The configuration read at the moved address is the same value. *)
Lemma moved_value_of (a b : store) (r : loc) :
  rel a b -> n <= r -> value_of b (r + k) = value_of a r.
Proof.
  intros H Hr. unfold value_of.
  rewrite <- (move_ge r) by done. rewrite (moved_lookup a b r H).
  case_decide; [lia|].
  destruct (a !! r) as [[|tw fs ls| |]|]; try done. simpl.
  f_equal. unfold move_fields. clear -H.
  induction fs as [|[name l] fs IH]; [done|].
  rewrite fmap_cons. cbn [mapM]. rewrite IH. simpl.
  by rewrite (moved_field_at _ _ _ H).
Qed.

End Moved.

(** A store that agrees with [h] on the addresses of [h] is [h] with the
    later allocations moved. *)
Lemma moved_extension (h h2 : store) :
  take (length h) h2 = h ->
  moved (length h) (length h2 - length h) h h2.
Proof.
  intros Ht.
  assert (length h <= length h2) as Hlen.
  { rewrite <- Ht at 1. rewrite length_take. lia. }
  split; [lia|]. split; [done|]. split; [|split].
  - intros l Hl. rewrite <- Ht at 1. by rewrite lookup_take_lt.
  - intros l Hl. rewrite (proj2 (lookup_ge_None h l)) by done.
    apply lookup_ge_None. lia.
  - intros l d Hl. by eapply lookup_lt_Some.
Qed.

(** *** Purity of the cascade *)

Lemma take_unchanged (h h' : store) :
  unchanged_below (length h) h h' -> length h <= length h' ->
  take (length h) h' = h.
Proof.
  intros Hu Hlen. apply list_eq. intros i.
  destruct (decide (i < length h)) as [Hlt|Hge].
  - rewrite lookup_take_lt by done. by apply Hu.
  - rewrite lookup_take_ge by lia. symmetry. apply lookup_ge_None. lia.
Qed.

(** A configuration that can be read out of [h] only holds addresses of
    [h]. *)
Lemma value_of_closed (h : store) (l : loc) (cv : config_value) :
  value_of h l = Some cv ->
  l < length h
  /\ exists tw fs ls,
      h !! l = Some (OLogConfig tw fs ls)
      /\ Forall (fun p => p.2 < length h) fs.
Proof.
  unfold value_of. intros H.
  destruct (h !! l) as [[|tw fs ls| |]|] eqn:El; try done.
  split; [by eapply lookup_lt_Some|]. exists tw, fs, ls. split; [done|].
  destruct (mapM _ fs) as [fvs|] eqn:Em; [|done]. clear H El.
  apply mapM_Some_1 in Em.
  induction Em as [|[name lf] y fs fvs Hf _ IH]; constructor; [|done].
  simpl. unfold field_at in Hf.
  destruct (h !! lf) eqn:Ef; [|done]. by eapply lookup_lt_Some.
Qed.

Lemma move_fields_closed (n k : nat) (fs : list (string * loc)) :
  Forall (fun p => p.2 < n) fs -> move_fields n k fs = fs.
Proof.
  induction 1 as [|[name l] fs Hl _ IH]; [done|].
  unfold move_fields in *. rewrite fmap_cons, IH. simpl.
  by rewrite move_lt.
Qed.

Lemma value_of_unchanged (h h' : store) (l : loc) (cv : config_value) :
  unchanged_below (length h) h h' ->
  value_of h l = Some cv -> value_of h' l = Some cv.
Proof.
  intros Hu Hv.
  destruct (value_of_closed _ _ _ Hv) as (Hl & tw & fs & ls & El & Hfs).
  unfold value_of in *. rewrite (Hu l Hl), El in *.
  rewrite <- Hv. f_equal. apply Forall_mapM_ext.
  eapply Forall_impl; [exact Hfs|]. intros [name lf] Hlf. simpl in Hlf.
  unfold field_at. by rewrite (Hu lf Hlf).
Qed.

(** Let the system defaults be a configuration that can be read out of
    the store.  If [get_effective_defaults] returns, then every object of
    the store it was given is as it was, and the configuration returned and
    all its fields are new objects.  A later call with the same arguments,
    in any store that still holds the objects of the first store unchanged,
    returns a configuration with the same value, again made of new
    objects. *)
Lemma cascade_rerun (h h' : store) (system_defaults r : loc)
    (instance_id : string) (template_name level : option string)
    (template_config : option loc) (kwargs : loc) (cv : config_value) :
  value_of h system_defaults = Some cv ->
  get_effective_defaults h system_defaults instance_id template_name level
    template_config kwargs = Some (h', r) ->
  take (length h) h' = h
  /\ value_of h' system_defaults = Some cv
  /\ fresh_config (length h) h' r
  /\ forall h2,
       take (length h) h2 = h ->
       exists h2' r2,
         get_effective_defaults h2 system_defaults instance_id template_name
           level template_config kwargs = Some (h2', r2)
         /\ value_of h2' r2 = value_of h' r
         /\ take (length h2) h2' = h2
         /\ fresh_config (length h2) h2' r2.
Proof.
  intros Hv Hg.
  destruct (get_effective_defaults_fresh _ _ _ _ _ _ _ _ _ Hg)
    as (Hu & Hlen & Hfresh & _).
  split; [by apply take_unchanged|].
  split; [by eapply value_of_unchanged|].
  split; [done|].
  intros h2 Ht.
  pose proof (moved_extension h h2 Ht) as Hm.
  destruct (value_of_closed _ _ _ Hv) as (Hl & tw & fs & ls & El & Hfs).
  assert (moved_config (length h) (length h2 - length h) h h2
            system_defaults) as Hcfg.
  { intros tw0 fs0 ls0 E0. rewrite El in E0. simplify_eq.
    rewrite move_lt by done. rewrite move_fields_closed by done.
    destruct Hm as (_ & _ & Hold & _). by rewrite Hold. }
  destruct (moved_get_effective_defaults _ _ _ _ _ _ _ _ _ _ _ _
              Hm Hcfg Hl Hg) as (h2' & Hg2 & Hm' & Hr).
  exists h2', (r + (length h2 - length h)). split; [done|].
  split; [by apply (moved_value_of (length h))|].
  destruct (get_effective_defaults_fresh _ _ _ _ _ _ _ _ _ Hg2)
    as (Hu2 & Hlen2 & Hfresh2 & _).
  split; [by apply take_unchanged|done].
Qed.

Lemma unknown_field_ignored_witness :
  (forall kwargs,
     get_effective_defaults sample_store 4 "id" (Some "default")
       (Some "INFO") (Some 5) kwargs
     = get_effective_defaults sample_store 4 "id" (Some "default")
         (Some "INFO") (Some 6) kwargs)
  /\ (forall template_config,
        get_effective_defaults sample_store 4 "id" (Some "default")
          (Some "INFO") template_config 5
        = get_effective_defaults sample_store 4 "id" (Some "default")
            (Some "INFO") template_config 6)
  /\ (forall template_config kwargs h' r,
        get_effective_defaults sample_store 4 "id" (Some "default")
          (Some "INFO") template_config kwargs = Some (h', r) ->
        field_names h' r = Some four_fields).
Proof.
  apply (unknown_field_ignored sample_store 4 "id" (Some "default")
           (Some "INFO") four_fields 5 6 blob_unknown blob_known
           "extra" (PInt 3) [red_message] [wide_status]);
    try reflexivity.
  apply (bool_decide_unpack _). by vm_compute.
Defined.

(** The configuration [LogConfig()] leaves in the store is the default
    configuration of the formatter. *)
Example default_store_default_config :
  exists config,
    value_of default_store 4 ≫= log_config_of = Some config
    /\ total_width config = total_width default_config
    /\ forall name, fields config name = fields default_config name.
Proof.
  eexists. split; [by vm_compute|]. split; [done|]. by intros [].
Qed.

(** The cascade on the sample store: ten new objects, the result at 17;
    the template sets the width and the message colour, the level styles
    set colour and style of the status field. *)
Example get_effective_defaults_sample :
  length sample_result.1 = 18
  /\ sample_result.2 = 17
  /\ (cv ← value_of sample_result.1 sample_result.2;
      fc ← dict_lookup "status" (cv_fields cv);
      Some (cv_total_width cv, fc !! "color", fc !! "style",
            fc !! "max_width"))
     = Some (PInt 100, Some (PStr "green"), Some (PStr "bold"),
             Some (PInt 12)).
Proof. by vm_compute. Qed.

End DefaultsFacts.

(** * Further properties of the wrapping *)

Lemma split_from_concat (word text : str) :
  Forall nonspace word ->
  concat (split_from word text) = word ++ visible text.
Proof.
  unfold visible. revert word.
  induction text as [|c rest IH]; intros word Hw; simpl.
  - destruct word; simpl; by rewrite ?app_nil_r.
  - destruct (isspace c) eqn:Ec; simpl.
    + destruct word as [|x word']; [by apply (IH [])|].
      simpl. f_equal. rewrite (IH []) by constructor. done.
    + rewrite IH.
      * by rewrite <- app_assoc.
      * apply Forall_app. split; [done|]. by apply Forall_singleton.
Qed.

(** The words of a text, concatenated, are its non-whitespace characters. *)
Lemma split_concat (text : str) : concat (split text) = visible text.
Proof. by apply (split_from_concat []). Qed.

Lemma visible_word (w : str) : Forall nonspace w -> visible w = w.
Proof.
  unfold visible. induction 1 as [|c w Hc _ IH]; [done|].
  simpl. unfold nonspace in Hc. by rewrite Hc, IH.
Qed.

Lemma visible_app (a b : str) : visible (a ++ b) = visible a ++ visible b.
Proof. apply List.filter_app. Qed.

Lemma visible_join (g : list str) :
  Forall is_word g -> visible (join [space] g) = concat g.
Proof.
  induction 1 as [|w g [_ Hw] Hg IH]; [done|].
  destruct g as [|w' g'].
  - simpl. by rewrite app_nil_r, visible_word.
  - rewrite join_cons by done. rewrite !visible_app, IH, visible_word by done.
    done.
Qed.

Lemma pieces_nonempty (wcwidth : char -> Z) (max_width : Z) (w : str) :
  0 < max_width -> w <> [] -> pieces wcwidth max_width w <> [].
Proof.
  intros Hpos Hw. unfold pieces. destruct (_ >? _); [|done].
  apply chunks_nonempty; [lia|done].
Qed.

Lemma concat_pieces (wcwidth : char -> Z) (max_width : Z) (ws : list str) :
  0 < max_width ->
  concat (flat_map (pieces wcwidth max_width) ws) = concat ws.
Proof.
  intros Hpos. induction ws as [|w ws IH]; [done|]. simpl.
  rewrite concat_app, IH. f_equal. unfold pieces.
  destruct (_ >? _); simpl; [by rewrite chunks_concat by lia|].
  by rewrite app_nil_r.
Qed.

Section WrapMore.

Variable wcwidth : char -> Z.
Variable max_width : Z.
Hypothesis max_width_pos : 0 < max_width.

Local Abbreviation dw := (wcswidth wcwidth).

(** The characters of the groups are non-whitespace characters of the
    text. *)
Lemma groups_chars (P : char -> Prop) (text : str)
    (groups : list (list str)) :
  (forall c, c ∈ text -> isspace c = false -> P c) ->
  concat groups = flat_map (pieces wcwidth max_width) (split text) ->
  Forall (Forall (Forall P)) groups.
Proof.
  intros Ht Hcat.
  assert (Forall (Forall P) (concat groups)) as H.
  { rewrite Hcat. pose proof (split_from_chars P [] text ltac:(constructor) Ht)
      as Hw. fold (split text) in Hw. clear Hcat.
    induction Hw as [|w ws Hw _ IH]; [constructor|].
    simpl. apply Forall_app. split; [|done].
    unfold pieces. destruct (_ >? _); [|by apply Forall_singleton].
    apply chunks_chars; [lia|done]. }
  clear -H. induction groups as [|g groups IH]; [constructor|].
  simpl in H. apply Forall_app in H as [Hg Hgs]. constructor; auto.
Qed.

End WrapMore.

(** X1.  When every non-whitespace character of the text is one column
    wide, and so is the space, every line of the word wrap, the chunks of
    over-wide words included, has at most [max_width] characters, and its
    display width is its number of characters. *)
Theorem wrap_text_narrow (wcwidth : char -> Z) (text : str) (max_width : Z) :
  0 < max_width ->
  wcwidth space = 1 ->
  (forall c, c ∈ text -> isspace c = false -> wcwidth c = 1) ->
  exists ls,
    _wrap_text wcwidth text max_width true = Some ls
    /\ Forall (fun l => wcswidth wcwidth l = len l /\ len l <= max_width) ls.
Proof.
  intros Hpos Hs Hnarrow.
  destruct (wrap_text_groups wcwidth max_width Hpos text)
    as (groups & Hrun & Hg & Hcat & Hok).
  exists (map (join [space]) groups). split; [done|].
  pose proof (groups_chars wcwidth max_width Hpos
                (fun c => wcwidth c = 1) text groups Hnarrow Hcat) as Hchars.
  specialize (Hok Hs). rewrite Forall_map in Hok. rewrite Forall_map.
  rewrite Forall_forall in Hchars, Hok. apply Forall_forall. intros g Hin.
  assert (wcswidth wcwidth (join [space] g) = len (join [space] g)) as Hw.
  { apply wcswidth_exact. apply join_chars; [done|]. by apply Hchars. }
  split; [done|].
  destruct (Hok g Hin) as [Hfit|(w & _ & _ & Hc)]; [lia|].
  apply list_elem_of_lookup in Hc as [i Hi].
  destruct (chunks_sizes w (Z.to_nat max_width) i _ ltac:(lia) Hi) as [Hlen _].
  unfold len. lia.
Qed.

Lemma wrap_text_narrow_witness :
  exists ls,
    _wrap_text wcwidth_sample (lit "ab abcdefgh cd") 3 true = Some ls
    /\ Forall (fun l => wcswidth wcwidth_sample l = len l /\ len l <= 3) ls.
Proof.
  apply (wrap_text_narrow wcwidth_sample (lit "ab abcdefgh cd") 3);
    [lia | reflexivity |].
  intros c Hc _. revert c Hc. apply Forall_forall.
  apply (bool_decide_unpack _). vm_compute. exact I.
Defined.

(** X2.  Word wrapping keeps the non-whitespace characters of the text, all
    of them and in order: they are the non-whitespace characters of the
    lines read one after the other. *)
Theorem wrap_text_visible (wcwidth : char -> Z) (text : str) (max_width : Z) :
  0 < max_width ->
  exists ls,
    _wrap_text wcwidth text max_width true = Some ls
    /\ visible (concat ls) = visible text.
Proof.
  intros Hpos.
  destruct (wrap_text_groups wcwidth max_width Hpos text)
    as (groups & Hrun & Hg & Hcat & _).
  exists (map (join [space]) groups). split; [done|].
  rewrite <- (split_concat text).
  rewrite <- (concat_pieces wcwidth max_width (split text) Hpos).
  rewrite <- Hcat. clear Hcat Hrun.
  induction Hg as [|g groups [_ Hg] _ IH]; [done|].
  simpl. by rewrite visible_app, IH, visible_join, concat_app.
Qed.

Lemma wrap_text_visible_witness :
  exists ls,
    _wrap_text wcwidth_sample (lit " ab  abcdefgh cd ") 3 true = Some ls
    /\ visible (concat ls) = visible (lit " ab  abcdefgh cd ").
Proof. apply (wrap_text_visible wcwidth_sample _ 3). lia. Defined.

(** X3.  Every line of the word wrap is a non-empty sequence of words
    joined by single spaces: never empty, no whitespace at either end, no
    whitespace but single spaces inside.  There is no line at all exactly
    when the text has no word. *)
Theorem wrap_text_lines (wcwidth : char -> Z) (text : str) (max_width : Z) :
  0 < max_width ->
  exists ls,
    _wrap_text wcwidth text max_width true = Some ls
    /\ Forall is_line ls
    /\ (ls = [] <-> split text = []).
Proof.
  intros Hpos.
  destruct (wrap_text_groups wcwidth max_width Hpos text)
    as (groups & Hrun & Hg & Hcat & _).
  exists (map (join [space]) groups). split; [done|]. split.
  - apply Forall_map. eapply Forall_impl; [exact Hg|].
    intros g [Hne Hw]. unfold is_line. simpl. by rewrite split_join.
  - split.
    + intros E. destruct groups as [|g groups]; [|done]. simpl in Hcat.
      pose proof (split_words text) as Hw.
      destruct (split text) as [|w ws]; [done|]. exfalso.
      inversion Hw as [|? ? [Hne _] _]; subst.
      pose proof (pieces_nonempty wcwidth max_width w Hpos Hne) as Hp.
      simpl in Hcat. by destruct (pieces wcwidth max_width w).
    + intros E. rewrite E in Hcat. simpl in Hcat.
      destruct groups as [|g groups]; [done|]. exfalso.
      inversion Hg as [|? ? [Hne _] _]; subst. simpl in Hcat.
      by destruct g.
Qed.

Lemma wrap_text_lines_witness :
  exists ls,
    _wrap_text wcwidth_sample (lit " ab  abcdefgh cd ") 3 true = Some ls
    /\ Forall is_line ls
    /\ (ls = [] <-> split (lit " ab  abcdefgh cd ") = []).
Proof. apply (wrap_text_lines wcwidth_sample _ 3). lia. Defined.

(** X4.  Character wrapping returns ceil(len(text) / max_width) lines. *)
Theorem wrap_text_char_count (wcwidth : char -> Z) (text : str)
    (max_width : Z) :
  0 < max_width ->
  exists ls,
    _wrap_text wcwidth text max_width false = Some ls
    /\ Z.of_nat (length ls) = (len text + max_width - 1) / max_width.
Proof.
  intros Hpos. unfold _wrap_text.
  destruct (bool_decide (text = [])) eqn:Et; simpl.
  { apply bool_decide_eq_true in Et as ->. exists []. split; [done|].
    unfold len. simpl. symmetry. apply Z.div_small. lia. }
  destruct (Z.leb_spec max_width 0) as [|_]; [lia|].
  eexists. split; [done|]. rewrite chunks_length. unfold len.
  rewrite Nat2Z.inj_div. f_equal; lia.
Qed.

Lemma wrap_text_char_count_witness :
  exists ls,
    _wrap_text wcwidth_sample (lit "abcdefgh") 3 false = Some ls
    /\ Z.of_nat (length ls) = (len (lit "abcdefgh") + 3 - 1) / 3.
Proof. apply (wrap_text_char_count wcwidth_sample _ 3). lia. Defined.

(** ** Greedy packing *)

Lemma consecutive_nil {A} (Q : A -> A -> Prop) : consecutive Q [].
Proof. intros i a b H. by rewrite lookup_nil in H. Qed.

Lemma consecutive_snoc {A} (Q : A -> A -> Prop) (l : list A) (b : A) :
  consecutive Q l -> (forall a, last l = Some a -> Q a b) ->
  consecutive Q (l ++ [b]).
Proof.
  intros Hl Hb i x y Hx Hy.
  destruct (decide (S i < length l)%nat) as [Hlt|Hge].
  - rewrite lookup_app_l in Hx, Hy by lia. by eapply Hl.
  - assert (S i = length l) as Hi.
    { apply lookup_lt_Some in Hy. rewrite length_app in Hy. simpl in Hy. lia. }
    rewrite lookup_app_l in Hx by lia.
    rewrite lookup_app_r in Hy by lia.
    replace (S i - length l)%nat with 0%nat in Hy by lia. simpl in Hy.
    simplify_eq. apply Hb. rewrite last_lookup. rewrite <- Hi. simpl. done.
Qed.

Lemma consecutive_app {A} (Q : A -> A -> Prop) (l k : list A) :
  consecutive Q l -> consecutive Q k ->
  (forall a b, last l = Some a -> head k = Some b -> Q a b) ->
  consecutive Q (l ++ k).
Proof.
  intros Hl Hk Hlk. revert l Hl Hlk.
  induction k as [|b k IH]; intros l Hl Hlk; [by rewrite app_nil_r|].
  replace (l ++ b :: k) with ((l ++ [b]) ++ k) by (by rewrite <- app_assoc).
  apply IH.
  - intros i x y Hx Hy. apply (Hk (S i)); done.
  - apply consecutive_snoc; [done|]. intros a Ha. by apply Hlk.
  - intros a c Ha Hc. rewrite last_snoc in Ha. simplify_eq.
    apply (Hk 0%nat); [done|]. by destruct k; simplify_eq.
Qed.

Lemma consecutive_snoc_inv {A} (Q : A -> A -> Prop) (l : list A) (b : A) :
  consecutive Q (l ++ [b]) ->
  consecutive Q l /\ forall a, last l = Some a -> Q a b.
Proof.
  intros H. split.
  - intros i x y Hx Hy. apply (H i).
    + rewrite lookup_app_l; [done|]. by eapply lookup_lt_Some.
    + rewrite lookup_app_l; [done|]. by eapply lookup_lt_Some.
  - intros a Ha. rewrite last_lookup in Ha.
    destruct l as [|x l]; [done|]. simpl in Ha.
    apply (H (length l)).
    + rewrite lookup_app_l; [done|]. simpl. lia.
    + change (S (length l)) with (length (x :: l)).
      by rewrite list_lookup_middle.
Qed.

Section Greedy.

Variable wcwidth : char -> Z.
Variable max_width : Z.
Hypothesis max_width_pos : 0 < max_width.
Hypothesis space_width : wcwidth space = 1.

Local Abbreviation dw := (wcswidth wcwidth).
Local Abbreviation narrow := (Forall (fun c => wcwidth c = 1)).

Lemma pieces_narrow (ws : list str) :
  Forall narrow ws ->
  Forall narrow (flat_map (pieces wcwidth max_width) ws).
Proof.
  induction 1 as [|w ws Hw _ IH]; [constructor|]. simpl.
  apply Forall_app. split; [|done]. unfold pieces.
  destruct (_ >? _); [|by apply Forall_singleton].
  apply chunks_chars; [lia|done].
Qed.

(** The chunks of a word of narrow characters that is wider than
    [max_width]: all but the last have [max_width] characters, and there
    are at least two. *)
Lemma chunks_packed (word : str) :
  is_word word -> narrow word -> max_width < dw word ->
  consecutive (no_room max_width) (chunks word (Z.to_nat max_width))
  /\ forall a c, head (chunks word (Z.to_nat max_width)) = Some c ->
                0 <= len a -> no_room max_width a c.
Proof.
  intros Hword Hn Hlong.
  assert (0 < Z.to_nat max_width)%nat as Hpos by lia.
  rewrite (wcswidth_exact wcwidth word Hn) in Hlong.
  assert (forall i c, chunks word (Z.to_nat max_width) !! i = Some c ->
                      split c = [c]) as Hsplit.
  { intros i c Hc. apply split_word. eapply chunk_is_word; [done..|].
    by eapply list_elem_of_lookup_2. }
  assert (1 < length (chunks word (Z.to_nat max_width)))%nat as Hmany.
  { rewrite chunks_length.
    apply (chunk_count_spec (length word) (Z.to_nat max_width) 1); [done|].
    unfold len in Hlong. lia. }
  split.
  - intros i a b Ha Hb. exists b, []. split; [by eapply Hsplit|].
    destruct (chunks_sizes _ _ _ _ Hpos Ha) as [_ Hfull].
    destruct (chunks_sizes _ _ _ _ Hpos Hb) as [Hlen _].
    unfold len. rewrite Hfull; [lia|]. by eapply lookup_lt_Some.
  - intros a c Hc Ha. rewrite head_lookup in Hc.
    exists c, []. split; [by eapply Hsplit|].
    destruct (chunks_sizes _ _ _ _ Hpos Hc) as [_ Hfull].
    unfold len in *. rewrite Hfull; lia.
Qed.

(** One iteration keeps the packing. *)
Lemma wrap_word_greedy (done : list str) (st st' : wrap_state)
    (groups : list (list str)) (cur : list str) (word : str) :
  wrap_inv wcwidth max_width done st groups cur ->
  Forall narrow done ->
  greedy_inv max_width st ->
  is_word word -> narrow word ->
  wrap_word wcwidth max_width st word = Some st' ->
  greedy_inv max_width st'.
Proof.
  intros (Hl & Hg & Hc & Hcl & Hcat & Hw & Hw0 & Hsp) Hdone
    (Hcons & Hcur & Hnil) Hword Hnw Hstep.
  destruct (Hsp space_width) as (_ & _ & Hwd).
  assert (narrow (join [space] cur)) as Hncur.
  { apply join_chars; [done|].
    pose proof (pieces_narrow done Hdone) as Hp. rewrite <- Hcat in Hp.
    by apply Forall_app in Hp as [_ ?]. }
  assert (current_width st = len (join [space] cur)) as Hcw.
  { rewrite (wcswidth_exact wcwidth _ Hncur) in Hwd. unfold len in *. lia. }
  assert (dw word = len word) as Hww by (by apply wcswidth_exact).
  assert (concat (current_line st) = join [space] cur) as Hconcat
    by (by rewrite Hcl, sp_line_concat).
  assert (split (join [space] cur) = cur) as Hsplit by (by apply split_join).
  unfold wrap_word in Hstep.
  destruct (_ <=? max_width) eqn:Efit.
  - (* the word fits *)
    apply Z.leb_le in Efit.
    destruct cur as [|w0 cur'] eqn:Ecur.
    + simpl in Hcl. rewrite Hcl in Hstep. simpl in Hstep. simplify_eq.
      rewrite Hcl. unfold greedy_inv. simpl.
      rewrite (Hnil Hcl). split; [apply consecutive_nil|]. split; [|done].
      intros _ a Ha. done.
    + assert (current_line st <> []) as Hne by (by rewrite Hcl).
      destruct (current_line st) as [|x xs] eqn:Eline; [done|].
      rewrite <- Eline in *. simpl in Hstep. simplify_eq.
      unfold greedy_inv. simpl. split; [done|]. split.
      * intros _ a Ha. destruct (Hcur Hne a Ha) as (w & rest & Hs & Hroom).
        rewrite Hconcat, Hsplit in Hs. simplify_eq.
        exists w, (rest ++ [word]). split; [|done].
        rewrite Hcl. rewrite sp_line_snoc by done.
        rewrite sp_line_concat. apply (split_join ((w :: rest) ++ [word])).
        apply Forall_app. split; [done|]. by apply Forall_singleton.
      * intros E. by destruct (current_line st).
  - (* the word does not fit: the current line is closed *)
    apply Z.leb_gt in Efit.
    set (st1 := match current_line st with
                | [] => st
                | _ => WrapState (lines st ++ [concat (current_line st)]) [] 0
                end) in *.
    assert (consecutive (no_room max_width) (lines st1)
            /\ forall a, last (lines st1) = Some a ->
                         0 <= len a
                         /\ (dw word <= max_width ->
                             len a + 1 + len word > max_width))
      as [Hcons1 Hlast1].
    { subst st1. destruct cur as [|w0 cur'] eqn:Ecur.
      - simpl in Hcl. rewrite Hcl. split; [done|].
        intros a Ha. rewrite (Hnil Hcl) in Ha. done.
      - assert (current_line st <> []) as Hne by (by rewrite Hcl).
        destruct (current_line st) as [|x xs] eqn:Eline; [done|].
        rewrite <- Eline in *. simpl. split.
        + apply consecutive_snoc; [done|]. by apply Hcur.
        + intros a Ha. rewrite last_snoc in Ha. simplify_eq.
          rewrite Hconcat. unfold len in *. split; lia. }
    clearbody st1.
    destruct (dw word >? max_width) eqn:Elong.
    + (* an over-wide word *)
      rewrite Z.gtb_ltb in Elong. apply Z.ltb_lt in Elong.
      destruct (chunks_packed word Hword Hnw Elong) as [Hpacked Hhead].
      destruct (last (chunks word (Z.to_nat max_width))) as [tail|] eqn:Elast;
        [|done].
      simpl in Hstep. simplify_eq.
      pose proof (last_removelast _ _ Elast) as Hsplitc.
      assert (consecutive (no_room max_width)
                ((lines st1
                  ++ removelast (chunks word (Z.to_nat max_width)))
                 ++ [tail])) as Hall.
      { rewrite <- app_assoc, <- Hsplitc. apply consecutive_app; [done..|].
        intros a b Ha Hb. apply Hhead; [done|]. by apply Hlast1. }
      apply consecutive_snoc_inv in Hall as [Hinit Htail].
      unfold greedy_inv. simpl. rewrite app_nil_r. by repeat split.
    + (* any other word *)
      rewrite Z.gtb_ltb in Elong. apply Z.ltb_ge in Elong.
      simplify_eq. unfold greedy_inv. simpl. rewrite app_nil_r.
      split; [done|]. split; [|done].
      intros _ a Ha. exists word, []. split; [by apply split_word|].
      by apply Hlast1.
Qed.

(** The whole loop keeps the packing. *)
Lemma wrap_words_greedy (words done : list str) (st st' : wrap_state)
    (groups : list (list str)) (cur : list str) :
  wrap_inv wcwidth max_width done st groups cur ->
  Forall narrow done ->
  greedy_inv max_width st ->
  Forall is_word words -> Forall narrow words ->
  wrap_words wcwidth max_width words st = Some st' ->
  greedy_inv max_width st'.
Proof.
  intros Hinv Hdone Hgr Hwords. revert done st groups cur Hinv Hdone Hgr.
  induction Hwords as [|word words Hword _ IH];
    intros done st groups cur Hinv Hdone Hgr Hn Hrun; simpl in Hrun.
  - by simplify_eq.
  - inversion Hn as [|? ? Hnw Hnws]; subst.
    destruct (wrap_word_inv wcwidth max_width max_width_pos
                _ _ _ _ _ Hinv Hword)
      as (st1 & groups1 & cur1 & Hstep & Hinv1).
    rewrite Hstep in Hrun. simpl in Hrun.
    eapply (IH (done ++ [word])); [exact Hinv1| |
      exact (wrap_word_greedy done st st1 groups cur word
               Hinv Hdone Hgr Hword Hnw Hstep)|done|done].
    apply Forall_app. split; [done|]. by apply Forall_singleton.
Qed.

End Greedy.

(** X5.  Greedy packing.  When every non-whitespace character of the text
    is one column wide, and so is the space, a line is closed only when the
    next word does not fit: for every two consecutive lines, the first word
    (or chunk) of the second would have made the first longer than
    [max_width], counting the space before it. *)
Theorem wrap_text_greedy (wcwidth : char -> Z) (text : str) (max_width : Z) :
  0 < max_width ->
  wcwidth space = 1 ->
  (forall c, c ∈ text -> isspace c = false -> wcwidth c = 1) ->
  exists ls,
    _wrap_text wcwidth text max_width true = Some ls
    /\ forall i a b,
         ls !! i = Some a -> ls !! S i = Some b ->
         exists w rest,
           split b = w :: rest /\ len a + 1 + len w > max_width.
Proof.
  intros Hpos Hs Hnarrow.
  destruct (wrap_text_total wcwidth text max_width true) as [ls Hrun].
  exists ls. split; [done|].
  unfold _wrap_text in Hrun.
  destruct (bool_decide (text = [])) eqn:Et; simpl in Hrun.
  { simplify_eq. intros i a b H. by rewrite lookup_nil in H. }
  destruct (Z.leb_spec max_width 0) as [|_]; [lia|].
  destruct (wrap_words wcwidth max_width (split text) wrap_init)
    as [st|] eqn:Eloop; [|done].
  simpl in Hrun. simplify_eq.
  assert (greedy_inv max_width wrap_init) as Hinit.
  { split; [apply consecutive_nil|]. by split. }
  pose proof (split_from_chars (fun c => wcwidth c = 1) [] text
                ltac:(constructor) Hnarrow) as Hwn.
  pose proof (wrap_words_greedy wcwidth max_width Hpos Hs (split text) []
                wrap_init st [] [] (wrap_inv_init wcwidth max_width)
                ltac:(constructor) Hinit (split_words text) Hwn Eloop)
    as (Hcons & Hcur & _).
  unfold wrap_finish.
  destruct (current_line st) as [|x xs] eqn:Eline; [done|].
  apply consecutive_snoc; [done|]. by apply Hcur.
Qed.

Lemma wrap_text_greedy_witness :
  exists ls,
    _wrap_text wcwidth_sample (lit "ab abcdefgh cd") 3 true = Some ls
    /\ forall i a b,
         ls !! i = Some a -> ls !! S i = Some b ->
         exists w rest,
           split b = w :: rest /\ len a + 1 + len w > 3.
Proof.
  apply (wrap_text_greedy wcwidth_sample (lit "ab abcdefgh cd") 3);
    [lia | reflexivity |].
  intros c Hc _. revert c Hc. apply Forall_forall.
  apply (bool_decide_unpack _). vm_compute. exact I.
Defined.

(** * Further properties of the formatter *)

Lemma len_app (a b : str) : len (a ++ b) = len a + len b.
Proof. unfold len. rewrite length_app. lia. Qed.

Lemma len_replicate (n : nat) (c : char) : len (replicate n c) = Z.of_nat n.
Proof. unfold len. by rewrite length_replicate. Qed.

Lemma len_ljust (s : str) (w : Z) : len (ljust s w) = Z.max (len s) w.
Proof. unfold ljust. rewrite len_app, len_replicate. unfold len. lia. Qed.

Lemma len_rjust (s : str) (w : Z) : len (rjust s w) = Z.max (len s) w.
Proof. unfold rjust. rewrite len_app, len_replicate. unfold len. lia. Qed.

Lemma len_blanks (k : Z) : len (blanks k) = Z.max 0 k.
Proof. unfold blanks. rewrite len_replicate. lia. Qed.

Lemma len_str_mul (c : char) (k : Z) : len (str_mul [c] k) = Z.max 0 k.
Proof.
  unfold str_mul, len.
  assert (forall n, length (concat (replicate n [c])) = n) as ->.
  { intros n. induction n as [|n IH]; [done|]. simpl. by rewrite IH. }
  lia.
Qed.

Lemma slice_to_prefix (content : str) (k : Z) :
  slice_to content k `prefix_of` content.
Proof.
  unfold slice_to. destruct (k <? 0);
    eexists; symmetry; apply take_drop.
Qed.

Lemma len_slice_to (content : str) (k : Z) :
  0 <= k -> len (slice_to content k) = Z.min (len content) k.
Proof.
  intros Hk. unfold slice_to. destruct (Z.ltb_spec k 0) as [|_]; [lia|].
  unfold len. rewrite length_take. lia.
Qed.

Lemma narrow_text_app (wcwidth : char -> Z) (a b : str) :
  narrow_text wcwidth (a ++ b)
  <-> narrow_text wcwidth a /\ narrow_text wcwidth b.
Proof. apply Forall_app. Qed.

Lemma apply_max_width_bounds (fc : FieldConfig) (n : Z) :
  cap_above_decoration fc -> 0 <= n ->
  decoration fc <= apply_max_width fc (n + decoration fc) <= n + decoration fc
  /\ (0 < n -> decoration fc < apply_max_width fc (n + decoration fc)).
Proof.
  unfold cap_above_decoration, apply_max_width, decoration.
  pose proof (len_nonneg (leading_char fc)).
  pose proof (len_nonneg (closing_char fc)).
  intros Hcap Hn.
  destruct (Z.gtb_spec (n + (len (leading_char fc) + len (closing_char fc))) 0);
    [|lia].
  destruct (max_width fc) as [m|]; [|lia].
  destruct (Z.eqb_spec m 0); lia.
Qed.

Section FormatMore.

Variable wcwidth : char -> Z.
Variable config : LogConfig.

Local Abbreviation dw := (wcswidth wcwidth).
Local Abbreviation col k s := (len s = k /\ narrow_text wcwidth s).

Hypothesis space_width : wcwidth space = 1.

Lemma col_app (a b : Z) (s t : str) : col a s -> col b t -> col (a + b) (s ++ t).
Proof.
  intros [Hs Hns] [Ht Hnt]. split; [rewrite len_app; lia|].
  by apply Forall_app.
Qed.

Lemma col_blanks (k : Z) : 0 <= k -> col k (blanks k).
Proof.
  intros Hk. split; [rewrite len_blanks; lia|].
  unfold blanks. by apply Forall_replicate.
Qed.

Lemma col_ljust (s : str) (w : Z) :
  len s <= w -> narrow_text wcwidth s -> col w (ljust s w).
Proof.
  intros Hle Hn. split; [rewrite len_ljust; lia|].
  unfold ljust. apply Forall_app. split; [done|]. by apply Forall_replicate.
Qed.

Lemma col_rjust (s : str) (w : Z) :
  len s <= w -> narrow_text wcwidth s -> col w (rjust s w).
Proof.
  intros Hle Hn. split; [rewrite len_rjust; lia|].
  unfold rjust. apply Forall_app. split; [by apply Forall_replicate|done].
Qed.

(** The lines of a text of one-column characters: none is longer than
    [max_width], and there is one as soon as the text has a word, or a
    character when the text is cut by characters. *)
Lemma wrap_text_narrow_lines (text : str) (max_width : Z) (word_wrap : bool) :
  0 < max_width ->
  narrow_text wcwidth text ->
  exists ls,
    _wrap_text wcwidth text max_width word_wrap = Some ls
    /\ Forall (fun l => len l <= max_width /\ narrow_text wcwidth l) ls
    /\ (split text <> [] -> ls <> []).
Proof.
  intros Hpos Hnarrow. destruct word_wrap.
  - destruct (wrap_text_groups wcwidth max_width Hpos text)
      as (groups & Hrun & Hg & Hcat & Hok).
    exists (map (join [space]) groups). split; [done|].
    assert (forall c, c ∈ text -> isspace c = false -> wcwidth c = 1) as Hn.
    { intros c Hc _. unfold narrow_text in Hnarrow.
      rewrite Forall_forall in Hnarrow. by apply Hnarrow. }
    pose proof (groups_chars wcwidth max_width Hpos
                  (fun c => wcwidth c = 1) text groups Hn Hcat) as Hchars.
    split.
    + specialize (Hok space_width). rewrite Forall_map in Hok.
      rewrite Forall_map.
      rewrite Forall_forall in Hchars, Hok. apply Forall_forall.
      intros g Hin.
      assert (narrow_text wcwidth (join [space] g)) as Hng.
      { apply join_chars; [done|]. by apply Hchars. }
      split; [|done].
      pose proof (wcswidth_exact wcwidth _ Hng) as Hw.
      destruct (Hok g Hin) as [Hfit|(w & _ & _ & Hc)]; [lia|].
      apply list_elem_of_lookup in Hc as [i Hi].
      destruct (chunks_sizes w (Z.to_nat max_width) i _ ltac:(lia) Hi)
        as [Hlen _].
      unfold len. lia.
    + intros Hsplit E. apply fmap_nil_inv in E. subst groups.
      simpl in Hcat. pose proof (split_words text) as Hw.
      destruct (split text) as [|w ws]; [done|].
      inversion Hw as [|? ? [Hne _] _]; subst.
      pose proof (pieces_nonempty wcwidth max_width w Hpos Hne) as Hp.
      simpl in Hcat. by destruct (pieces wcwidth max_width w).
  - unfold _wrap_text. simpl.
    destruct (bool_decide (text = [])) eqn:Et; simpl.
    { apply bool_decide_eq_true in Et as ->. exists []. by repeat split. }
    apply bool_decide_eq_false in Et.
    destruct (Z.leb_spec max_width 0) as [|_]; [lia|].
    eexists. split; [done|]. split.
    + pose proof (chunks_chars (fun c => wcwidth c = 1) text
                    (Z.to_nat max_width) ltac:(lia) Hnarrow) as Hc.
      rewrite Forall_forall in Hc. apply Forall_forall. intros c Hin.
      split; [|by apply Hc].
      apply list_elem_of_lookup in Hin as [i Hi].
      destruct (chunks_sizes text (Z.to_nat max_width) i _ ltac:(lia) Hi)
        as [Hlen _].
      unfold len. lia.
    + intros _. apply chunks_nonempty; [lia|done].
Qed.

(** A field that is not wrapped: one line of exactly [width] characters,
    when the width leaves room for the decoration and is no more than the
    content needs. *)
Lemma format_field_unwrapped_col (content : str) (name : field_name)
    (width : Z) :
  name <> Padding ->
  wrap (fields config name) = false ->
  narrow_text wcwidth content ->
  narrow_text wcwidth (leading_char (fields config name)
                       ++ closing_char (fields config name)) ->
  decoration (fields config name) <= width
  <= len content + decoration (fields config name) ->
  exists line,
    _format_field wcwidth config content name width = Some [line]
    /\ col width line.
Proof.
  intros Hname Hwrap Hn Hdec Hwidth. unfold decoration in Hwidth.
  apply narrow_text_app in Hdec as [Hlead Hclose].
  set (fc := fields config name) in *.
  set (mcw := width - len (leading_char fc) - len (closing_char fc)).
  assert (exists truncated,
            (if dw content >? mcw then slice_to content mcw else content)
            = truncated
            /\ col mcw truncated) as (truncated & Et & Hlen & Hnt).
  { eexists. split; [done|].
    rewrite (wcswidth_exact wcwidth _ Hn).
    destruct (Z.gtb_spec (len content) mcw) as [Hgt|Hle].
    - split; [rewrite len_slice_to; lia|].
      destruct (slice_to_prefix content mcw) as [k Hk].
      unfold narrow_text in Hn. rewrite Hk in Hn.
      by apply Forall_app in Hn as [? _].
    - split; [lia|done]. }
  assert (col width (leading_char fc ++ truncated ++ closing_char fc))
    as [Hraw Hnraw].
  { replace width
      with (len (leading_char fc) + (mcw + len (closing_char fc))) by lia.
    apply col_app; [done|]. by apply col_app. }
  exists (align name (leading_char fc ++ truncated ++ closing_char fc) width).
  split.
  - unfold _format_field. fold fc. fold mcw. rewrite Hwrap. simpl.
    rewrite Et. by destruct name.
  - destruct name; simpl; [apply col_ljust; [lia|done] |done|
      apply col_rjust; [lia|done] | done].
Qed.

(** A message or reason field that is wrapped: every line has exactly
    [width] characters, and there is a line when the content has a word. *)
Lemma format_field_wrapped_col (content : str) (name : field_name)
    (width : Z) :
  name = Message \/ name = Reason ->
  wrap (fields config name) = true ->
  narrow_text wcwidth content ->
  narrow_text wcwidth (leading_char (fields config name)
                       ++ closing_char (fields config name)) ->
  split content <> [] ->
  decoration (fields config name) < width ->
  exists ls,
    _format_field wcwidth config content name width = Some ls
    /\ ls <> []
    /\ Forall (fun l => col width l) ls.
Proof.
  intros Hname Hwrap Hn Hdec Hsplit Hwidth. unfold decoration in Hwidth.
  apply narrow_text_app in Hdec as [Hlead Hclose].
  set (fc := fields config name) in *.
  set (mcw := width - len (leading_char fc) - len (closing_char fc)).
  destruct (wrap_text_narrow_lines content mcw (word_wrap fc)
              ltac:(lia) Hn) as (ws & Hws & Hlines & Hne).
  specialize (Hne Hsplit).
  set (out := imap (fun i line =>
                 align name
                   ((if (i =? 0)%nat then leading_char fc else [])
                    ++ line
                    ++ (if (i =? length ws - 1)%nat
                        then closing_char fc else []))
                   width) ws).
  assert (_format_field wcwidth config content name width
          = Some (match out with [] => [[]] | _ => out end)) as Hrun.
  { unfold _format_field. fold fc. fold mcw. rewrite Hwrap. simpl.
    rewrite Hws. simpl. by destruct Hname as [-> | ->]. }
  assert (out <> []) as Hout.
  { intros E. apply (f_equal length) in E. unfold out in E.
    rewrite length_imap in E. by destruct ws. }
  exists out. split; [by destruct out|]. split; [done|].
  apply Forall_lookup. intros i l Hi. unfold out in Hi.
  rewrite list_lookup_imap in Hi.
  apply fmap_Some in Hi as (line & Eline & ->).
  destruct (proj1 (Forall_lookup _ _) Hlines i line Eline) as [Hlen Hnl].
  unfold mcw in Hlen.
  pose proof (len_nonneg (leading_char fc)).
  pose proof (len_nonneg (closing_char fc)).
  assert (narrow_text wcwidth
            ((if (i =? 0)%nat then leading_char fc else [])
             ++ line
             ++ (if (i =? length ws - 1)%nat then closing_char fc else [])))
    as Hnraw.
  { apply Forall_app. split; [by destruct (i =? 0)%nat|].
    apply Forall_app. split; [done|].
    by destruct (i =? length ws - 1)%nat. }
  assert (len ((if (i =? 0)%nat then leading_char fc else [])
               ++ line
               ++ (if (i =? length ws - 1)%nat then closing_char fc else []))
          <= width) as Hraw.
  { rewrite !len_app.
    destruct (i =? 0)%nat, (i =? length ws - 1)%nat;
      unfold len in *; simpl; lia. }
  destruct Hname as [-> | ->]; simpl;
    [by apply col_ljust | by apply col_rjust].
Qed.

(** The padding the layout holds, and its length when the padding
    character is a single character. *)
Lemma layout_padding (message : str) (reason status : option str)
    (l : layout) :
  format_layout wcwidth config message reason status = Some l ->
  l_padding l
  = leading_char (fields config Padding)
    ++ str_mul (padding_char (fields config Padding))
         (w_padding (l_widths l) - decoration (fields config Padding))
    ++ closing_char (fields config Padding)
  /\ min_width (fields config Padding) + decoration (fields config Padding)
     <= w_padding (l_widths l)
  /\ total_width config <= block_width (l_widths l).
Proof.
  intros Hl.
  destruct (format_layout_total wcwidth config message reason status)
    as (l' & Hl' & Hw & _ & Hpad & _).
  rewrite Hl in Hl'. injection Hl' as <-.
  rewrite format_field_padding in Hpad. injection Hpad as <-.
  split; [unfold decoration; do 3 f_equal; lia|].
  unfold block_width, used_width. rewrite Hw.
  unfold _calculate_widths. simpl. lia.
Qed.

Lemma layout_padding_len (message : str) (reason status : option str)
    (l : layout) :
  format_layout wcwidth config message reason status = Some l ->
  len (padding_char (fields config Padding)) = 1 ->
  0 <= min_width (fields config Padding) ->
  len (l_padding l) = w_padding (l_widths l).
Proof.
  intros Hl Hpc Hmin.
  destruct (layout_padding message reason status l Hl) as (-> & Hlow & _).
  destruct (padding_char (fields config Padding)) as [|c [|? ?]] eqn:Epc;
    try (unfold len in Hpc; simpl in Hpc; lia).
  rewrite !len_app, len_str_mul. unfold decoration in *. lia.
Qed.

Lemma narrow_str_mul (c : char) (k : Z) :
  wcwidth c = 1 -> narrow_text wcwidth (str_mul [c] k).
Proof.
  intros Hc. unfold str_mul, narrow_text.
  induction (Z.to_nat k) as [|n IH]; simpl; by constructor.
Qed.

Lemma styled_plain (name : field_name) (text : str) :
  plain_config wcwidth config -> styled config name text = text.
Proof.
  intros [_ Hplain]. destruct (Hplain name) as (Hc & Hs & _).
  unfold styled. by rewrite Hc, Hs.
Qed.

(** The lines of a message, reason or status field as [format_line] asks
    for them, for content of one-column characters: each has exactly the
    computed width. *)
Lemma format_field_col (content : str) (name : field_name) :
  name <> Padding ->
  (name = Status -> wrap (fields config name) = false) ->
  (wrap (fields config name) = true -> split content <> []) ->
  cap_above_decoration (fields config name) ->
  narrow_text wcwidth content ->
  narrow_text wcwidth (leading_char (fields config name)
                       ++ closing_char (fields config name)) ->
  exists ls,
    _format_field wcwidth config content name
      (apply_max_width (fields config name)
         (len content + decoration (fields config name))) = Some ls
    /\ ls <> []
    /\ Forall (fun l =>
                 col (apply_max_width (fields config name)
                        (len content + decoration (fields config name))) l)
         ls.
Proof.
  intros Hname Hstatus Hsplit Hcap Hn Hdec.
  destruct (apply_max_width_bounds (fields config name) (len content)
              Hcap (len_nonneg content)) as [Hbounds Hpos].
  destruct (wrap (fields config name)) eqn:Ewrap.
  - assert (0 < len content) as Hlen.
    { specialize (Hsplit eq_refl). destruct content; [done|].
      unfold len. simpl. lia. }
    apply format_field_wrapped_col;
      [|done|done|done|by apply Hsplit|by apply Hpos].
    destruct name; [by left|done|by right|by specialize (Hstatus eq_refl)].
  - destruct (format_field_unwrapped_col content name _ Hname Ewrap Hn Hdec
                Hbounds) as (line & Hrun & Hcol).
    exists [line]. split; [done|]. split; [done|]. by apply Forall_singleton.
Qed.

End FormatMore.

(** X6.  When the padding character is a single character and the minimum
    width of the padding is not negative, the padding column of a line has
    exactly the computed padding width: the leading character, at least
    [min_width] padding characters, the closing character; and with the
    widths of the other fields it fills the line up to [total_width] at
    least. *)
Theorem format_line_padding_width (wcwidth : char -> Z) (config : LogConfig)
    (message : str) (reason status : option str) :
  len (padding_char (fields config Padding)) = 1 ->
  0 <= min_width (fields config Padding) ->
  exists l fill,
    format_layout wcwidth config message reason status = Some l
    /\ l_padding l
       = leading_char (fields config Padding) ++ fill
         ++ closing_char (fields config Padding)
    /\ fill = str_mul (padding_char (fields config Padding)) (len fill)
    /\ min_width (fields config Padding) <= len fill
    /\ len (l_padding l) = w_padding (l_widths l)
    /\ total_width config <= used_width (l_widths l) + len (l_padding l).
Proof.
  intros Hpc Hmin.
  destruct (format_layout_total wcwidth config message reason status)
    as (l & Hl & _).
  destruct (layout_padding wcwidth config message reason status l Hl)
    as (Hpad & Hlow & Htotal).
  pose proof (layout_padding_len wcwidth config message reason status l
                Hl Hpc Hmin) as Hlen.
  exists l, (str_mul (padding_char (fields config Padding))
               (w_padding (l_widths l) - decoration (fields config Padding))).
  split; [done|]. split; [done|].
  destruct (padding_char (fields config Padding)) as [|c [|? ?]] eqn:Epc;
    try (unfold len in Hpc; simpl in Hpc; lia).
  rewrite len_str_mul.
  split; [f_equal; lia|]. split; [lia|]. split; [done|].
  rewrite Hlen. unfold block_width in Htotal. lia.
Qed.

Lemma format_line_padding_width_witness :
  exists l fill,
    format_layout wcwidth_sample default_config (lit "started") None
      (Some (lit "OK")) = Some l
    /\ l_padding l
       = leading_char (fields default_config Padding) ++ fill
         ++ closing_char (fields default_config Padding)
    /\ fill = str_mul (padding_char (fields default_config Padding)) (len fill)
    /\ min_width (fields default_config Padding) <= len fill
    /\ len (l_padding l) = w_padding (l_widths l)
    /\ total_width default_config
       <= used_width (l_widths l) + len (l_padding l).
Proof.
  apply (format_line_padding_width wcwidth_sample default_config
           (lit "started") None (Some (lit "OK"))).
  - reflexivity.
  - simpl. lia.
Defined.

(** X7.  Alignment.  Under a configuration without colors and styles, for
    texts and decoration of one-column characters, with caps that leave
    room for the content, a one-character padding and a status that is not
    wrapped: all lines [format_line] joins have the same number of
    characters and the same display width, the sum of the four computed
    widths, which is at least [total_width].  (A wrapped message or reason
    must hold a word.) *)
Theorem format_line_aligned (wcwidth : char -> Z) (config : LogConfig)
    (message : str) (reason status : option str) :
  plain_config wcwidth config ->
  narrow_text wcwidth (message ++ text_of reason ++ text_of status) ->
  (forall name, cap_above_decoration (fields config name)) ->
  len (padding_char (fields config Padding)) = 1 ->
  0 <= min_width (fields config Padding) ->
  wrap (fields config Status) = false ->
  (wrap (fields config Message) = true -> split message <> []) ->
  (wrap (fields config Reason) = true -> truthy reason = true ->
   split (text_of reason) <> []) ->
  exists l,
    format_layout wcwidth config message reason status = Some l
    /\ Forall (fun line =>
                 len line = block_width (l_widths l)
                 /\ wcswidth wcwidth line = block_width (l_widths l))
         (formatted_lines config status l)
    /\ total_width config <= block_width (l_widths l).
Proof.
  intros Hplain Hnarrow Hcap Hpc Hmin Hstatus Hmsg Hrsn.
  pose proof Hplain as [Hsp Hfields].
  apply narrow_text_app in Hnarrow as [Hnm Hnarrow].
  apply narrow_text_app in Hnarrow as [Hnr Hns].
  assert (forall name,
            narrow_text wcwidth (leading_char (fields config name)
                                 ++ closing_char (fields config name)))
    as Hdeco.
  { intros name. destruct (Hfields name) as (_ & _ & Hd).
    rewrite app_assoc in Hd. by apply narrow_text_app in Hd as [? _]. }
  destruct (format_layout_total wcwidth config message reason status)
    as (l & Hl & Hw & Hml & Hpad & Hrl & Hsl & Hmax).
  exists l. split; [done|].
  destruct (layout_padding wcwidth config message reason status l Hl)
    as (Epad & Hlow & Htotal).
  split; [|done].
  set (w := l_widths l) in *.
  (* the three widths *)
  assert (w_message w
          = apply_max_width (fields config Message)
              (len message + decoration (fields config Message))) as Hwm.
  { rewrite Hw. unfold _calculate_widths. simpl.
    by rewrite (wcswidth_exact wcwidth _ Hnm). }
  assert (w_reason w
          = if truthy reason
            then apply_max_width (fields config Reason)
                   (len (text_of reason) + decoration (fields config Reason))
            else 0) as Hwr.
  { rewrite Hw. unfold _calculate_widths. simpl.
    rewrite (wcswidth_exact wcwidth _ Hnr). by destruct (truthy reason). }
  assert (w_status w
          = if truthy status
            then apply_max_width (fields config Status)
                   (len (text_of status) + decoration (fields config Status))
            else 0) as Hws.
  { rewrite Hw. unfold _calculate_widths. simpl.
    rewrite (wcswidth_exact wcwidth _ Hns). by destruct (truthy status). }
  (* the message column *)
  assert (0 <= w_message w
          /\ Forall (fun s => len s = w_message w /\ narrow_text wcwidth s)
               (l_message_lines l)) as [Hwm0 Hmsgs].
  { destruct (format_field_col wcwidth config Hsp message Message
                ltac:(done) ltac:(done) Hmsg (Hcap Message) Hnm
                (Hdeco Message)) as (ls & Hrun & _ & Hcols).
    rewrite <- Hwm in Hrun, Hcols. rewrite Hml in Hrun.
    injection Hrun as ->. split; [|done].
    destruct (apply_max_width_bounds (fields config Message) (len message)
                (Hcap Message) (len_nonneg message)) as [Hb _].
    pose proof (len_nonneg (leading_char (fields config Message))).
    pose proof (len_nonneg (closing_char (fields config Message))).
    unfold decoration in *. lia. }
  assert (forall i,
            len (message_part config w (l_message_lines l) i) = w_message w
            /\ narrow_text wcwidth
                 (message_part config w (l_message_lines l) i)) as Hmp.
  { intros i. unfold message_part. rewrite (styled_plain wcwidth) by done.
    destruct (l_message_lines l !! i) as [s|] eqn:Ei.
    - by apply (proj1 (Forall_lookup _ _) Hmsgs i s).
    - rewrite str_mul_space. by apply col_blanks. }
  (* the padding column *)
  assert (len (padding_part config (l_padding l)) = w_padding w
          /\ narrow_text wcwidth (padding_part config (l_padding l)))
    as Hpp.
  { unfold padding_part. rewrite (styled_plain wcwidth) by done. split.
    - by apply (layout_padding_len wcwidth config message reason status).
    - rewrite Epad. destruct (Hfields Padding) as (_ & _ & Hd).
      apply narrow_text_app in Hd as [Hlead Hd].
      apply narrow_text_app in Hd as [Hclose Hchar].
      destruct (padding_char (fields config Padding)) as [|c [|? ?]] eqn:Epc;
        try (unfold len in Hpc; simpl in Hpc; lia).
      apply Forall_app. split; [done|]. apply Forall_app. split; [|done].
      apply narrow_str_mul. by inversion Hchar. }
  (* the reason column *)
  assert (forall i,
            len (concat (reason_part config w (l_reason_lines l) i))
            = w_reason w
            /\ narrow_text wcwidth
                 (concat (reason_part config w (l_reason_lines l) i)))
    as Hrp.
  { intros i. destruct (truthy reason) eqn:Etr.
    - destruct (format_field_col wcwidth config Hsp (text_of reason) Reason
                  ltac:(done) ltac:(done)
                  (fun H => Hrsn H eq_refl) (Hcap Reason) Hnr
                  (Hdeco Reason)) as (ls & Hrun & Hne & Hcols).
      rewrite <- Hwr in Hrun, Hcols.
      assert (0 < w_reason w) as Hpos.
      { rewrite Hwr.
        destruct (apply_max_width_bounds (fields config Reason)
                    (len (text_of reason)) (Hcap Reason)
                    (len_nonneg _)) as [_ Hb].
        pose proof (len_nonneg (leading_char (fields config Reason))).
        pose proof (len_nonneg (closing_char (fields config Reason))).
        assert (0 < len (text_of reason)).
        { destruct reason as [[|? ?]|]; try done; unfold len; simpl; lia. }
        unfold decoration in *. lia. }
      destruct (Z.gtb_spec (w_reason w) 0) as [_|]; [|lia].
      cbn [andb] in Hrl. rewrite Hrl in Hrun. injection Hrun as ->.
      unfold reason_part. rewrite (styled_plain wcwidth) by done.
      destruct ls as [|r rs] eqn:Els; [done|].
      rewrite <- Els in *. simpl. rewrite app_nil_r.
      destruct (_ !! i) as [s|] eqn:Ei.
      + by apply (proj1 (Forall_lookup _ _) Hcols i s).
      + rewrite str_mul_space. apply col_blanks; [done|lia].
    - cbn [andb] in Hrl. injection Hrl as <-. rewrite Hwr.
      split; [done|constructor]. }
  (* the status column *)
  assert (forall i,
            len (concat (status_part config w status (l_status_lines l) i))
            = w_status w
            /\ narrow_text wcwidth
                 (concat (status_part config w status (l_status_lines l) i)))
    as Hsp'.
  { intros i. destruct (truthy status) eqn:Ets.
    - destruct (format_field_col wcwidth config Hsp (text_of status) Status
                  ltac:(done) (fun _ => Hstatus)
                  ltac:(by rewrite Hstatus) (Hcap Status) Hns
                  (Hdeco Status)) as (ls & Hrun & Hne & Hcols).
      rewrite <- Hws in Hrun, Hcols.
      assert (0 < w_status w) as Hpos.
      { rewrite Hws.
        destruct (apply_max_width_bounds (fields config Status)
                    (len (text_of status)) (Hcap Status)
                    (len_nonneg _)) as [_ Hb].
        pose proof (len_nonneg (leading_char (fields config Status))).
        pose proof (len_nonneg (closing_char (fields config Status))).
        assert (0 < len (text_of status)).
        { destruct status as [[|? ?]|]; try done; unfold len; simpl; lia. }
        unfold decoration in *. lia. }
      destruct (Z.gtb_spec (w_status w) 0) as [_|]; [|lia].
      cbn [andb] in Hsl. rewrite Hsl in Hrun. injection Hrun as ->.
      unfold status_part.
      destruct ls as [|first rest] eqn:Els; [done|].
      destruct i as [|i].
      + rewrite (styled_plain wcwidth) by done. simpl. rewrite app_nil_r.
        by inversion Hcols.
      + rewrite Ets. simpl. rewrite app_nil_r, str_mul_space.
        apply col_blanks; [done|lia].
    - cbn [andb] in Hsl. injection Hsl as <-. unfold status_part.
      rewrite Hws, Ets. destruct i; (split; [done|constructor]). }
  (* a line *)
  apply Forall_forall. intros line Hin. unfold formatted_lines in Hin.
  apply list_elem_of_fmap in Hin as (i & -> & _).
  fold w. unfold line_parts. simpl. rewrite concat_app.
  assert (len (message_part config w (l_message_lines l) i
               ++ padding_part config (l_padding l)
               ++ concat (reason_part config w (l_reason_lines l) i)
               ++ concat (status_part config w status (l_status_lines l) i))
          = block_width w
          /\ narrow_text wcwidth
               (message_part config w (l_message_lines l) i
                ++ padding_part config (l_padding l)
                ++ concat (reason_part config w (l_reason_lines l) i)
                ++ concat (status_part config w status
                             (l_status_lines l) i))) as [Hlen Hnl].
  { replace (block_width w)
      with (w_message w + (w_padding w + (w_reason w + w_status w)))
      by (unfold block_width, used_width; lia).
    apply col_app; [done|]. apply col_app; [done|]. by apply col_app. }
  split; [done|]. by rewrite (wcswidth_exact wcwidth _ Hnl).
Qed.

Lemma format_line_aligned_witness :
  exists l,
    format_layout wcwidth_sample default_config long_message
      (Some (lit "timeout")) (Some (lit "FAILED")) = Some l
    /\ Forall (fun line =>
                 len line = block_width (l_widths l)
                 /\ wcswidth wcwidth_sample line = block_width (l_widths l))
         (formatted_lines default_config (Some (lit "FAILED")) l)
    /\ total_width default_config <= block_width (l_widths l).
Proof.
  apply (format_line_aligned wcwidth_sample default_config long_message
           (Some (lit "timeout")) (Some (lit "FAILED"))).
  - split; [reflexivity|].
    intros name. split; [by destruct name|]. split; [by destruct name|].
    destruct name; apply (bool_decide_unpack _); vm_compute; exact I.
  - apply (bool_decide_unpack _). vm_compute. exact I.
  - intros name. destruct name; simpl; try exact I; right;
      vm_compute; reflexivity.
  - reflexivity.
  - simpl. lia.
  - reflexivity.
  - intros _. vm_compute. discriminate.
  - simpl. discriminate.
Defined.

(** X8.  Truncation.  A message, reason or status field that is not
    wrapped is one line: the leading character, a prefix of the content,
    the closing character, aligned to the width.  Content whose display
    width fits between the two characters is kept whole; content of
    one-column characters is cut to exactly the room there is. *)
Theorem format_field_truncates (wcwidth : char -> Z) (config : LogConfig)
    (content : str) (name : field_name) (width : Z) :
  name <> Padding ->
  wrap (fields config name) = false ->
  exists kept,
    _format_field wcwidth config content name width
    = Some [align name (leading_char (fields config name) ++ kept
                        ++ closing_char (fields config name)) width]
    /\ kept `prefix_of` content
    /\ (wcswidth wcwidth content <= width - decoration (fields config name) ->
        kept = content)
    /\ (narrow_text wcwidth content ->
        0 <= width - decoration (fields config name) ->
        len kept
        = Z.min (len content) (width - decoration (fields config name))).
Proof.
  intros Hname Hwrap. unfold decoration.
  set (fc := fields config name) in *.
  set (mcw := width - len (leading_char fc) - len (closing_char fc)).
  exists (if wcswidth wcwidth content >? mcw
          then slice_to content mcw else content).
  split.
  { unfold _format_field. fold fc. fold mcw. rewrite Hwrap.
    by destruct name. }
  destruct (Z.gtb_spec (wcswidth wcwidth content) mcw) as [Hgt|Hle].
  - split; [apply slice_to_prefix|]. split; [unfold mcw in Hgt; lia|].
    intros Hn Hroom. rewrite (wcswidth_exact wcwidth _ Hn) in Hgt.
    rewrite len_slice_to; unfold mcw in *; lia.
  - split; [done|]. split; [done|].
    intros Hn Hroom. rewrite (wcswidth_exact wcwidth _ Hn) in Hle.
    unfold mcw in *. lia.
Qed.

Lemma format_field_truncates_witness :
  exists kept,
    _format_field wcwidth_sample default_config (lit "interrupted by user")
      Status 10
    = Some [align Status (leading_char (fields default_config Status) ++ kept
                          ++ closing_char (fields default_config Status)) 10]
    /\ kept `prefix_of` lit "interrupted by user"
    /\ (wcswidth wcwidth_sample (lit "interrupted by user")
        <= 10 - decoration (fields default_config Status) ->
        kept = lit "interrupted by user")
    /\ (narrow_text wcwidth_sample (lit "interrupted by user") ->
        0 <= 10 - decoration (fields default_config Status) ->
        len kept
        = Z.min (len (lit "interrupted by user"))
                (10 - decoration (fields default_config Status))).
Proof.
  apply (format_field_truncates wcwidth_sample default_config
           (lit "interrupted by user") Status 10).
  - discriminate.
  - reflexivity.
Defined.

(** ** [_apply_style] *)

Lemma dict_get_cases (d : list (str * str)) (key : str) :
  dict_get d key [] = [] \/ dict_get d key [] ∈ d.*2.
Proof.
  induction d as [|[k v] d IH]; [by left|]. simpl.
  destruct (bool_decide (k = key)); [right; apply list_elem_of_here|].
  destruct IH as [->|IH]; [by left|]. right. by apply list_elem_of_further.
Qed.

Lemma color_codes_sgr : Forall (fun v => is_sgr v = true) COLOR_CODES.*2.
Proof. apply (bool_decide_unpack _). vm_compute. exact I. Qed.

Lemma style_codes_sgr :
  Forall (fun v => v = [] \/ is_sgr v = true) STYLE_CODES.*2.
Proof. repeat constructor; (by left) || (by right). Qed.

Lemma reset_code_color : dict_get COLOR_CODES (lit "reset") [] = reset_code.
Proof. by vm_compute. Qed.

Lemma concat_codes (l : list str) :
  Forall (fun v => v = [] \/ is_sgr v = true) l ->
  exists codes,
    concat l = concat codes /\ Forall (fun c => is_sgr c = true) codes.
Proof.
  induction 1 as [|v l [->|Hv] _ (codes & E & Hc)].
  - by exists [].
  - by exists codes.
  - exists (v :: codes). simpl. rewrite E. split; [done|]. by constructor.
Qed.

Lemma concat_one (x : str) : concat [x] = x.
Proof. simpl. by rewrite app_nil_r. Qed.

Lemma concat_two (x y : str) : concat [x; y] = x ++ y.
Proof. simpl. by rewrite app_nil_r. Qed.

(** X9.  [_apply_style] never touches the text: the result is the text
    with escape sequences before it and reset sequences after it.  The
    sequences before it are well-formed "select graphic rendition"
    sequences from the two tables; after it comes one reset sequence for
    the color, if one is given, and one for the style, if one is given,
    whether or not their names are known.  Without color and style the
    text is returned as it is. *)
Theorem apply_style_wraps (text : str) (color style : option str) :
  exists codes resets,
    _apply_style text color style = concat codes ++ text ++ concat resets
    /\ Forall (fun c => is_sgr c = true) codes
    /\ Forall (fun r => r = reset_code) resets
    /\ length resets
       = ((if truthy color then 1 else 0)
          + (if truthy style then 1 else 0))%nat
    /\ (truthy color = false -> truthy style = false ->
        _apply_style text color style = text).
Proof.
  assert (forall c, exists codes,
            dict_get COLOR_CODES (strip c) [] = concat codes
            /\ Forall (fun c => is_sgr c = true) codes) as Hcolor.
  { intros c. destruct (dict_get_cases COLOR_CODES (strip c)) as [->|Hin].
    - by exists [].
    - eexists [_]. simpl. rewrite app_nil_r. split; [done|].
      apply Forall_singleton.
      by apply (proj1 (Forall_forall _ _) color_codes_sgr). }
  assert (forall s, exists codes,
            concat (map (fun s => dict_get STYLE_CODES (strip s) [])
                      (filter (fun s => strip s <> []) (split_on comma s)))
            = concat codes
            /\ Forall (fun c => is_sgr c = true) codes) as Hstyle.
  { intros s. apply concat_codes. apply Forall_map, Forall_forall.
    intros x _.
    destruct (dict_get_cases STYLE_CODES (strip x)) as [->|Hin]; [by left|].
    by apply (proj1 (Forall_forall _ _) style_codes_sgr). }
  unfold _apply_style, truthy.
  destruct color as [[|c cs]|], style as [[|s ss]|]; cbv beta iota zeta;
    try (exists [], []; simpl; rewrite app_nil_r;
         repeat split; (done || constructor)).
  - destruct (Hstyle (s :: ss)) as (codes & -> & Hc).
    exists codes, [reset_code]. rewrite concat_one.
    repeat split; try done. by apply Forall_singleton.
  - destruct (Hcolor (c :: cs)) as (codes & -> & Hc).
    exists codes, [reset_code]. rewrite concat_one.
    repeat split; try done. by apply Forall_singleton.
  - destruct (Hcolor (c :: cs)) as (codes & -> & Hc).
    destruct (Hstyle (s :: ss)) as (codes' & -> & Hc').
    exists (codes' ++ codes), [reset_code; reset_code].
    rewrite concat_two, concat_app, <- !app_assoc.
    repeat split; try done; [by apply Forall_app|by repeat constructor].
  - destruct (Hcolor (c :: cs)) as (codes & -> & Hc).
    exists codes, [reset_code]. rewrite concat_one.
    repeat split; try done. by apply Forall_singleton.
  - destruct (Hstyle (s :: ss)) as (codes & -> & Hc).
    exists codes, [reset_code]. rewrite concat_one.
    repeat split; try done. by apply Forall_singleton.
Qed.

(** * The cascade: what it returns *)

Module CascadeFacts.

Import Defaults DefaultsFacts.

Local Open Scope nat_scope.

Local Arguments nonempty_dict : simpl never.

(** ** Reading the store *)

Lemma field_at_app (h new : store) (l : loc) :
  is_Some (field_at h l) -> field_at (h ++ new) l = field_at h l.
Proof.
  unfold field_at. intros [a Ha].
  destruct (h !! l) as [o|] eqn:El; [|done].
  by rewrite (lookup_app_l_Some _ _ _ _ El).
Qed.

Lemma field_at_lt (h : store) (l : loc) :
  is_Some (field_at h l) -> l < length h.
Proof.
  unfold field_at. intros [a Ha].
  destruct (h !! l) as [o|] eqn:El; [|done]. by eapply lookup_lt_Some.
Qed.

Lemma field_at_shape (h h' : store) (l : loc) :
  shape h h' -> is_Some (field_at h l) -> is_Some (field_at h' l).
Proof.
  intros Hs [a Ha]. unfold field_at in *.
  pose proof (shape_cases h h' l Hs) as Hc.
  destruct (h !! l) as [[a0| | |]|]; try done.
  destruct Hc as [a' ->]. by eexists.
Qed.

(** A configuration all of whose fields are [FieldConfig] objects. *)
Lemma value_of_inv (h : store) (c : loc) (cv : config_value) :
  value_of h c = Some cv ->
  exists fs,
    h !! c = Some (OLogConfig (cv_total_width cv) fs (cv_level_styles cv))
    /\ Forall2 (fun p q => q.1 = p.1 /\ field_at h p.2 = Some q.2)
         fs (cv_fields cv).
Proof.
  unfold value_of. intros H.
  destruct (h !! c) as [[|tw fs ls| |]|]; try done.
  destruct (mapM _ fs) as [fvs|] eqn:Em; [|done]. simpl in H.
  injection H as <-. exists fs. split; [done|]. simpl.
  apply mapM_Some in Em. eapply Forall2_impl; [exact Em|].
  intros [name lf] [name' a] Hp. simpl in *.
  destruct (field_at h lf); simplify_eq/=. done.
Qed.

Lemma value_of_intro (h : store) (c : loc) (tw : pyval)
    (fs : list (string * loc)) (ls : dict)
    (fvs : list (string * gmap string pyval)) :
  h !! c = Some (OLogConfig tw fs ls) ->
  Forall2 (fun p q => q.1 = p.1 /\ field_at h p.2 = Some q.2) fs fvs ->
  value_of h c = Some (ConfigValue tw fvs ls).
Proof.
  intros Hc Hf. unfold value_of. rewrite Hc.
  assert (mapM (fun '(name, lf) => a ← field_at h lf; Some (name, a)) fs
          = Some fvs) as ->; [|done].
  apply mapM_Some. eapply Forall2_impl; [exact Hf|].
  intros [name lf] [name' a] [Hn Ha]. simpl in *. rewrite Ha. simpl.
  by rewrite Hn.
Qed.

(** Every field of the configuration is a [FieldConfig] object. *)
Lemma wf_fields (h : store) (c : loc) :
  is_Some (value_of h c)
  <-> exists tw fs ls,
        h !! c = Some (OLogConfig tw fs ls)
        /\ Forall (fun p => is_Some (field_at h p.2)) fs.
Proof.
  split.
  - intros [cv Hcv]. destruct (value_of_inv _ _ _ Hcv) as (fs & Hc & Hf).
    eexists _, fs, _. split; [done|]. clear Hc.
    induction Hf as [|p q fs fvs [_ Hp] _ IH]; [constructor|].
    constructor; [by eexists|done].
  - intros (tw & fs & ls & Hc & Hf).
    assert (exists fvs,
              Forall2 (fun p q => q.1 = p.1 /\ field_at h p.2 = Some q.2)
                fs fvs) as [fvs Hfvs].
    { clear Hc. induction Hf as [|[name l] fs [a Ha] _ [fvs IH]].
      - by exists [].
      - exists ((name, a) :: fvs). by constructor. }
    eexists. by eapply value_of_intro.
Qed.

Lemma dict_lookup_Some {A} (key : string) (d : list (string * A)) (v : A) :
  dict_lookup key d = Some v -> (key, v) ∈ d.
Proof.
  induction d as [|[k x] d IH]; [done|]. simpl.
  destruct (String.eqb_spec k key) as [->|Hne].
  - intros [= ->]. apply list_elem_of_here.
  - intros H. apply list_elem_of_further. by apply IH.
Qed.

Lemma dict_lookup_is_Some {A} (key : string) (d : list (string * A)) :
  is_Some (dict_lookup key d) <-> key ∈ d.*1.
Proof.
  destruct (dict_lookup key d) as [v|] eqn:E.
  - split; [|by eexists]. intros _.
    apply dict_lookup_Some in E. apply list_elem_of_fmap.
    by exists (key, v).
  - split; [by intros [? ?]|]. intros Hin.
    by apply dict_lookup_None in E.
Qed.

(** With distinct addresses, an address belongs to one field name. *)
Lemma dict_lookup_inj (fs : list (string * loc)) (n1 n2 : string) (l : loc) :
  NoDup fs.*2 ->
  dict_lookup n1 fs = Some l -> dict_lookup n2 fs = Some l -> n1 = n2.
Proof.
  intros Hnd H1 H2.
  apply dict_lookup_Some, list_elem_of_lookup in H1 as [i Hi].
  apply dict_lookup_Some, list_elem_of_lookup in H2 as [j Hj].
  assert (i = j) as ->.
  { eapply NoDup_lookup; [exact Hnd|..].
    - by rewrite list_lookup_fmap, Hi.
    - by rewrite list_lookup_fmap, Hj. }
  congruence.
Qed.

(** Two [fields] dicts with the same names, entry by entry. *)
Lemma dict_lookup_Forall2 {A B} (R : A -> B -> Prop)
    (d : list (string * A)) (d' : list (string * B)) (key : string) :
  Forall2 (fun p q => q.1 = p.1 /\ R p.2 q.2) d d' ->
  match dict_lookup key d, dict_lookup key d' with
  | Some x, Some y => R x y
  | None, None => True
  | _, _ => False
  end.
Proof.
  induction 1 as [|[k x] [k' y] d d' [Hk HR] _ IH]; [done|].
  simpl in *. subst k'. by destruct (String.eqb k key).
Qed.

(** The attributes of a well-formed configuration are those of its
    value. *)
Lemma attr_of_value (h : store) (c : loc) (cv : config_value)
    (name key : string) :
  value_of h c = Some cv ->
  attr_of h c name key = (a ← dict_lookup name (cv_fields cv); a !! key).
Proof.
  intros Hcv. destruct (value_of_inv _ _ _ Hcv) as (fs & Hc & Hf).
  unfold attr_of, fields_of. rewrite Hc. simpl.
  pose proof (dict_lookup_Forall2
                (fun l a => field_at h l = Some a) fs (cv_fields cv) name Hf)
    as Hl.
  destruct (dict_lookup name fs) as [l|], (dict_lookup name (cv_fields cv))
    as [a|]; try done.
  simpl. by rewrite Hl.
Qed.

Lemma total_width_of_value (h : store) (c : loc) (cv : config_value) :
  value_of h c = Some cv -> total_width_of h c = Some (cv_total_width cv).
Proof.
  intros Hcv. destruct (value_of_inv _ _ _ Hcv) as (fs & Hc & _).
  unfold total_width_of. by rewrite Hc.
Qed.

Lemma field_names_value (h : store) (c : loc) (cv : config_value) :
  value_of h c = Some cv -> field_names h c = Some (cv_fields cv).*1.
Proof.
  intros Hcv. destruct (value_of_inv _ _ _ Hcv) as (fs & Hc & Hf).
  unfold field_names, fields_of. rewrite Hc. simpl. f_equal. clear Hc Hcv.
  induction Hf as [|p q fs fvs [Hn _] _ IH]; [done|]. simpl. by f_equal.
Qed.

Lemma level_styles_of_value (h : store) (c : loc) (cv : config_value) :
  value_of h c = Some cv -> level_styles_of h c = Some (cv_level_styles cv).
Proof.
  intros Hcv. destruct (value_of_inv _ _ _ Hcv) as (fs & Hc & _).
  unfold level_styles_of. by rewrite Hc.
Qed.

(** ** [deepcopy] *)

Lemma copy_fields_total (h : store) (memo : gmap loc loc)
    (fs : list (string * loc)) :
  Forall (fun p => is_Some (field_at h p.2)) fs ->
  exists h' fs', copy_fields h memo fs = Some (h', fs').
Proof.
  revert h memo. induction fs as [|[name l] fs IH]; intros h memo Hf; simpl.
  - by eexists _, _.
  - inversion Hf as [|? ? [a Ha] Hrest]; subst. simpl in Ha.
    destruct (memo !! l) as [l'|].
    + destruct (IH h memo Hrest) as (h' & fs' & ->). by eexists _, _.
    + unfold field_at in Ha.
      destruct (h !! l) as [[a0| | |]|] eqn:El; try done. simpl.
      destruct (IH (h ++ [OFieldConfig a0]) (<[l:=length h]> memo))
        as (h' & fs' & ->); [|by eexists _, _].
      eapply Forall_impl; [exact Hrest|]. intros p Hp. simpl.
      by rewrite field_at_app.
Qed.

Lemma copy_fields_value (h h' : store) (memo : gmap loc loc)
    (fs fs' : list (string * loc)) :
  copy_fields h memo fs = Some (h', fs') ->
  Forall (fun p => is_Some (field_at h p.2)) fs ->
  (forall l l', memo !! l = Some l' ->
                is_Some (field_at h l) /\ field_at h l' = field_at h l) ->
  Forall2 (fun p p' => p'.1 = p.1 /\ field_at h' p'.2 = field_at h p.2)
    fs fs'.
Proof.
  revert h h' memo fs'.
  induction fs as [|[name l] fs IH]; intros h h' memo fs' H Hf Hmemo;
    simpl in H.
  - simplify_eq. constructor.
  - inversion Hf as [|? ? Hl Hrest]; subst. simpl in Hl.
    destruct (memo !! l) as [l'|] eqn:Em.
    + destruct (copy_fields h memo fs) as [[h1 rest']|] eqn:E; [|done].
      simpl in H. simplify_eq.
      destruct (copy_fields_app _ _ _ _ _ E) as (new & -> & _).
      destruct (Hmemo l l' Em) as [Hs Heq].
      constructor; [|by eapply IH]. simpl. split; [done|].
      rewrite field_at_app; [done|]. by rewrite Heq.
    + unfold field_at in Hl.
      destruct (h !! l) as [[a| | |]|] eqn:El; try done. simpl in H.
      destruct (copy_fields (h ++ [OFieldConfig a]) (<[l:=length h]> memo) fs)
        as [[h1 rest']|] eqn:E; [|done].
      simpl in H. simplify_eq.
      destruct (copy_fields_app _ _ _ _ _ E) as (new & -> & _).
      assert (field_at h l = Some a) as Hla by (unfold field_at; by rewrite El).
      assert (field_at (h ++ [OFieldConfig a]) (length h) = Some a) as Hnew.
      { unfold field_at. by rewrite list_lookup_middle. }
      constructor.
      * simpl. split; [done|]. rewrite Hla, <- Hnew.
        apply field_at_app. rewrite Hnew. by eexists.
      * assert (Forall2
                  (fun p p' =>
                     p'.1 = p.1
                     /\ field_at ((h ++ [OFieldConfig a]) ++ new) p'.2
                        = field_at (h ++ [OFieldConfig a]) p.2) fs rest')
          as Hrec.
        { eapply IH; [exact E| |].
          - eapply Forall_impl; [exact Hrest|]. intros p Hp. simpl.
            by rewrite field_at_app.
          - intros l0 l0' Hl0. destruct (decide (l0 = l)) as [->|Hne].
            + rewrite lookup_insert_eq in Hl0. simplify_eq.
              rewrite field_at_app by (rewrite Hla; by eexists).
              rewrite Hla, Hnew. split; [by eexists|done].
            + rewrite lookup_insert_ne in Hl0 by done.
              destruct (Hmemo l0 l0' Hl0) as [Hs Heq].
              rewrite !field_at_app; [done|by rewrite Heq|done]. }
        clear IH E. revert Hrec Hrest. clear. intros Hrec Hrest.
        induction Hrec as [|p p' fs rest' [Hn Hv] _ IH]; [constructor|].
        inversion Hrest; subst. constructor; [|by apply IH].
        split; [done|]. rewrite Hv. by apply field_at_app.
Qed.

Lemma copy_fields_nodup (h h' : store) (memo : gmap loc loc)
    (fs fs' : list (string * loc)) :
  copy_fields h memo fs = Some (h', fs') ->
  NoDup fs.*2 -> Forall (fun p => memo !! p.2 = None) fs ->
  NoDup fs'.*2 /\ Forall (fun p => length h <= p.2) fs'.
Proof.
  revert h h' memo fs'.
  induction fs as [|[name l] fs IH]; intros h h' memo fs' H Hnd Hmemo;
    simpl in H.
  - simplify_eq. split; constructor.
  - inversion Hmemo as [|? ? Hl Hrest]; subst. simpl in Hl. rewrite Hl in H.
    destruct (h !! l) as [[a| | |]|] eqn:El; try done. simpl in H.
    destruct (copy_fields (h ++ [OFieldConfig a]) (<[l:=length h]> memo) fs)
      as [[h1 rest']|] eqn:E; [|done].
    simpl in H. simplify_eq. simpl in Hnd. apply NoDup_cons in Hnd as [Hnl Hnd].
    destruct (IH _ _ _ _ E Hnd) as [Hnd' Hge].
    { apply Forall_forall. intros p Hp.
      rewrite lookup_insert_ne.
      - by apply (proj1 (Forall_forall _ _) Hrest).
      - intros ->. apply Hnl. apply list_elem_of_fmap. by exists p. }
    rewrite length_app in Hge. simpl in Hge. split.
    + simpl. apply NoDup_cons. split; [|done].
      intros Hin. apply list_elem_of_fmap in Hin as (p & Hp & Hin).
      apply (proj1 (Forall_forall _ _) Hge) in Hin. lia.
    + constructor; [done|]. eapply Forall_impl; [exact Hge|].
      intros p Hp. simpl in *. lia.
Qed.

Lemma fields_value_copy (h h1 hh : store) (fs fs' : list (string * loc))
    (fvs : list (string * gmap string pyval)) :
  Forall2 (fun p q => q.1 = p.1 /\ field_at h p.2 = Some q.2) fs fvs ->
  Forall2 (fun p p' => p'.1 = p.1 /\ field_at h1 p'.2 = field_at h p.2)
    fs fs' ->
  (forall l, is_Some (field_at h1 l) -> field_at hh l = field_at h1 l) ->
  Forall2 (fun p q => q.1 = p.1 /\ field_at hh p.2 = Some q.2) fs' fvs.
Proof.
  intros Hf Hval Hext. revert fs' Hval.
  induction Hf as [|p q fs fvs [Hn Hp] _ IH]; intros fs' Hval;
    inversion Hval as [|? p' ? rest' [Hn' Hp'] Hrest]; subst;
    [constructor|].
  constructor; [|by apply IH].
  split; [congruence|]. rewrite Hext; [congruence|].
  rewrite Hp', Hp. by eexists.
Qed.

(** A deep copy of a well-formed configuration exists and has the same
    value; it shares no [FieldConfig] between two fields when the original
    does not. *)
Lemma deepcopy_value (h : store) (l : loc) (cv : config_value) :
  value_of h l = Some cv ->
  exists h' r,
    deepcopy h l = Some (h', r)
    /\ value_of h' r = Some cv
    /\ forall fs, fields_of h l = Some fs -> NoDup fs.*2 ->
         exists fs', fields_of h' r = Some fs' /\ NoDup fs'.*2.
Proof.
  intros Hcv. destruct (value_of_inv _ _ _ Hcv) as (fs & Hc & Hf).
  assert (Forall (fun p => is_Some (field_at h p.2)) fs) as Hwf.
  { clear Hc. induction Hf as [|p q fs fvs [_ Hp] _ IH]; [constructor|].
    constructor; [by eexists|done]. }
  destruct (copy_fields_total h ∅ fs Hwf) as (h1 & fs' & Ecopy).
  exists (h1 ++ [OLogConfig (cv_total_width cv) fs' (cv_level_styles cv)]),
    (length h1).
  split; [unfold deepcopy; by rewrite Hc, Ecopy|].
  pose proof (copy_fields_value _ _ _ _ _ Ecopy Hwf) as Hval.
  destruct (copy_fields_app _ _ _ _ _ Ecopy) as (new & -> & Hnew & _).
  split.
  - destruct cv as [tw fvs ls]. simpl in *.
    apply (value_of_intro _ _ _ fs'); [by rewrite list_lookup_middle|].
    specialize (Hval ltac:(intros ? ? H; by rewrite lookup_empty in H)).
    eapply fields_value_copy; [exact Hf|exact Hval|].
    intros l0 Hl0. by apply field_at_app.
  - intros fs0 Hfs0 Hnd. unfold fields_of in Hfs0. rewrite Hc in Hfs0.
    injection Hfs0 as <-. exists fs'. split.
    + unfold fields_of. by rewrite list_lookup_middle.
    + eapply copy_fields_nodup; [exact Ecopy|done|].
      apply Forall_forall. intros p _. apply lookup_empty.
Qed.

(** ** The patch loop *)

Lemma first_of_two {A} (a b : option A) :
  first_of [a; b] = match a with Some x => Some x | None => b end.
Proof. by destruct a, b. Qed.

Lemma can_set_setattr (h : store) (l : loc) (key : string) (value : pyval) :
  is_Some (field_at h l) ->
  is_Some (setattr h l key value) <-> can_set key value = true.
Proof.
  intros [a Ha]. unfold setattr, can_set, field_at in *.
  destruct (h !! l) as [[a0| | |]|]; try done.
  destruct (_ || _).
  { split; [by intros [? ?]|done]. }
  destruct (bool_decide (key = "__dict__")).
  - destruct value; simpl; split; try done; by intros [? ?].
  - split; [done|by eexists].
Qed.

(** The inner loop returns exactly when [setattr] accepts every item. *)
Lemma setattrs_returns (h : store) (l : loc) (d : dict) :
  is_Some (field_at h l) ->
  is_Some (setattrs h l d) <-> settable (PDict d) = true.
Proof.
  revert h. induction d as [|[key value] d IH]; intros h Ha; simpl.
  { split; [done|by eexists]. }
  pose proof (can_set_setattr h l key value Ha) as Hc.
  destruct (setattr h l key value) as [h1|] eqn:E1; simpl.
  - rewrite (proj1 Hc) by (by eexists). simpl. apply IH.
    apply setattr_inv in E1 as (a & a' & Hl & ->).
    unfold field_at.
    rewrite list_lookup_insert_eq by (by eapply lookup_lt_Some).
    by eexists.
  - destruct (can_set key value); [|split; [by intros [? ?]|done]].
    destruct (proj2 Hc eq_refl) as [? ?]. done.
Qed.

Lemma setattr_plain (h h' : store) (l : loc) (key : string) (value : pyval) :
  setattr h l key value = Some h' -> key <> "__dict__" ->
  exists a, h !! l = Some (OFieldConfig a)
            /\ h' = <[l := OFieldConfig (<[key := value]> a)]> h.
Proof.
  unfold setattr. intros H Hk.
  destruct (h !! l) as [[a| | |]|]; try done.
  destruct (_ || _); [done|].
  rewrite bool_decide_eq_false_2 in H by done.
  simplify_eq. by exists a.
Qed.

(** After [for key, value in d.items(): setattr(obj, key, value)], when
    [d] does not set [__dict__], an entry of the instance dictionary has
    the value [d] gives it, or else the value it had. *)
Lemma setattrs_attr (h h' : store) (l : loc) (d : dict) (key : string) :
  setattrs h l d = Some h' -> NoDup d.*1 ->
  dict_lookup "__dict__" d = None ->
  field_at h' l ≫= (.!! key)
  = match dict_lookup key d with
    | Some v => Some v
    | None => field_at h l ≫= (.!! key)
    end.
Proof.
  revert h. induction d as [|[k v] d IH]; intros h H Hnd Hx; simpl in H.
  - by simplify_eq.
  - destruct (setattr h l k v) as [h1|] eqn:E1; [|done]. simpl in H.
    simpl in Hx. destruct (String.eqb_spec k "__dict__") as [->|Hk]; [done|].
    apply setattr_plain in E1 as (a & Ha & ->); [|done].
    simpl in Hnd. apply NoDup_cons in Hnd as [Hkd Hnd].
    rewrite (IH _ H Hnd Hx). simpl.
    assert (field_at (<[l:=OFieldConfig (<[k:=v]> a)]> h) l
            = Some (<[k:=v]> a)) as ->.
    { unfold field_at.
      by rewrite list_lookup_insert_eq by (by eapply lookup_lt_Some). }
    assert (field_at h l = Some a) as -> by (unfold field_at; by rewrite Ha).
    simpl. destruct (String.eqb_spec k key) as [->|Hne].
    + apply dict_lookup_None in Hkd. rewrite Hkd.
      by rewrite lookup_insert_eq.
    + rewrite lookup_insert_ne by done. by destruct (dict_lookup key d).
Qed.

Lemma setattrs_field_at (h h' : store) (l l' : loc) (d : dict) :
  setattrs h l d = Some h' -> l' <> l -> field_at h' l' = field_at h l'.
Proof.
  intros H Hne. destruct (setattrs_inv _ _ _ _ H) as [_ Hother].
  unfold field_at. by rewrite Hother.
Qed.

Lemma wf_shape (h h' : store) (c : loc) :
  shape h h' -> is_Some (value_of h c) -> is_Some (value_of h' c).
Proof.
  intros Hs Hwf. apply wf_fields in Hwf as (tw & fs & ls & Hc & Hf).
  apply wf_fields. exists tw, fs, ls. split; [by eapply shape_config|].
  eapply Forall_impl; [exact Hf|]. intros p Hp. by eapply field_at_shape.
Qed.

Lemma patchable_cons (names : list string) (n : string) (v : pyval)
    (entries : dict) :
  patchable names (PDict ((n, v) :: entries))
  = (negb (bool_decide (n ∈ names)) || settable v)
    && patchable names (PDict entries).
Proof. done. Qed.

(** The patch loop returns exactly when every entry for a field of the
    configuration is a dict that [setattr] accepts. *)
Lemma patch_fields_returns (h : store) (c : loc) (names : list string)
    (entries : dict) :
  is_Some (value_of h c) -> field_names h c = Some names ->
  is_Some (patch_fields h c entries)
  <-> patchable names (PDict entries) = true.
Proof.
  revert h. induction entries as [|[n v] entries IH]; intros h Hwf Hnames.
  { simpl. split; [done|by eexists]. }
  rewrite patchable_cons. cbn [patch_fields].
  unfold field_names in Hnames.
  destruct (fields_of h c) as [fs|] eqn:Efs; [|done].
  simpl in Hnames. injection Hnames as <-. simpl.
  destruct (dict_lookup n fs) as [l|] eqn:El.
  - assert (n ∈ fs.*1) as Hin by (apply dict_lookup_is_Some; by eexists).
    rewrite (bool_decide_eq_true_2 _ Hin). simpl.
    destruct v as [| | | |d|]; simpl;
      try (split; [by intros [? ?]|done]).
    assert (is_Some (field_at h l)) as Hl.
    { apply wf_fields in Hwf as (tw & fs' & ls & Hc & Hf).
      unfold fields_of in Efs. rewrite Hc in Efs. injection Efs as ->.
      apply dict_lookup_Some in El.
      by apply (proj1 (Forall_forall _ _) Hf (n, l)). }
    pose proof (setattrs_returns h l d Hl) as Hset. simpl in Hset.
    destruct (setattrs h l d) as [h1|] eqn:E1; simpl.
    + rewrite (proj1 Hset) by (by eexists). simpl.
      destruct (setattrs_inv _ _ _ _ E1) as [Hs _].
      apply IH; [by eapply wf_shape|].
      destruct (shape_reads h h1 c Hs) as (_ & -> & _).
      unfold field_names. by rewrite Efs.
    + split; [by intros [? ?]|].
      intros H. apply andb_prop in H as [H _].
      destruct (proj2 Hset H) as [? ?]. done.
  - assert (n ∉ fs.*1) as Hnin by (by apply dict_lookup_None).
    rewrite (bool_decide_eq_false_2 _ Hnin). simpl.
    apply IH; [done|]. unfold field_names. by rewrite Efs.
Qed.

Lemma lookup_attr_cons_ne (n name key : string) (v : pyval) (entries : dict) :
  n <> name ->
  lookup_attr ((n, v) :: entries) name key = lookup_attr entries name key.
Proof.
  intros Hne. unfold lookup_attr. simpl.
  by destruct (String.eqb_spec n name).
Qed.

Lemma attr_of_eq (h h' : store) (c : loc) (fs : list (string * loc))
    (name key : string) :
  fields_of h c = Some fs -> fields_of h' c = Some fs ->
  (forall l, dict_lookup name fs = Some l -> field_at h' l = field_at h l) ->
  attr_of h' c name key = attr_of h c name key.
Proof.
  intros Hfs Hfs' Hl. unfold attr_of. rewrite Hfs, Hfs'. simpl.
  destruct (dict_lookup name fs) as [l|]; [|done]. simpl.
  by rewrite Hl.
Qed.

(** After the patch loop, when the entries do not set [__dict__] on the
    field, an attribute of a field of the configuration has the value the
    entries give it, or else the value it had. *)
Lemma patch_fields_attr (h h' : store) (c : loc) (fs : list (string * loc))
    (entries : dict) (name key : string) :
  patch_fields h c entries = Some h' ->
  fields_of h c = Some fs -> NoDup fs.*2 ->
  unique_keys (PDict entries) = true ->
  name ∈ fs.*1 ->
  lookup_attr entries name "__dict__" = None ->
  attr_of h' c name key
  = first_of [lookup_attr entries name key; attr_of h c name key].
Proof.
  rewrite first_of_two.
  revert h. induction entries as [|[n v] entries IH];
    intros h H Hfs Hnd Huniq Hname Hx; simpl in H.
  { by simplify_eq. }
  rewrite Hfs in H. simpl in H.
  cbn [unique_keys] in Huniq.
  apply andb_prop in Huniq as [Hkeys Hvals].
  apply bool_decide_eq_true in Hkeys. simpl in Hkeys.
  apply NoDup_cons in Hkeys as [Hn Hkeys].
  simpl in Hvals. apply andb_prop in Hvals as [Hv Hvals].
  assert (unique_keys (PDict entries) = true) as Hrest.
  { cbn [unique_keys]. by rewrite (bool_decide_eq_true_2 _ Hkeys), Hvals. }
  destruct (match dict_lookup n fs with
            | Some l => d ← items v; setattrs h l d
            | None => Some h
            end) as [h1|] eqn:E1; [|done].
  simpl in H.
  pose proof (patch_fields_step_shape _ _ _ _ _ E1) as Hs.
  pose proof (shape_fields_of _ _ _ _ Hs Hfs) as Hfs1.
  destruct (decide (n = name)) as [->|Hne].
  - (* the entry of the field *)
    assert (forall k, lookup_attr entries name k = None) as Hnone.
    { intros k. unfold lookup_attr. apply dict_lookup_None in Hn.
      by rewrite Hn. }
    rewrite (IH h1 H Hfs1 Hnd Hrest Hname (Hnone _)). clear IH.
    rewrite Hnone.
    apply dict_lookup_is_Some in Hname as [l Hl]. rewrite Hl in E1.
    destruct v as [| | | |d|]; try done. simpl in E1, Hv.
    apply andb_prop in Hv as [Hd _]. apply bool_decide_eq_true in Hd.
    assert (dict_lookup "__dict__" d = None) as Hxd.
    { unfold lookup_attr in Hx. simpl in Hx.
      by rewrite String.eqb_refl in Hx. }
    pose proof (setattrs_attr _ _ _ _ key E1 Hd Hxd) as Hattr.
    unfold lookup_attr, attr_of. simpl. rewrite String.eqb_refl. simpl.
    rewrite Hfs, Hfs1. simpl. rewrite Hl. simpl.
    exact Hattr.
  - (* an entry of another field *)
    rewrite (lookup_attr_cons_ne _ _ _ _ _ Hne) in Hx.
    rewrite (IH h1 H Hfs1 Hnd Hrest Hname Hx). clear IH.
    rewrite (lookup_attr_cons_ne _ _ _ _ _ Hne).
    assert (attr_of h1 c name key = attr_of h c name key) as ->; [|done].
    apply (attr_of_eq _ _ _ fs); [done|done|].
    intros l Hl. destruct (dict_lookup n fs) as [l0|] eqn:El0;
      [|by simplify_eq].
    destruct (items v) as [d|]; [|done]. simpl in E1.
    eapply setattrs_field_at; [exact E1|].
    intros ->. apply Hne. by eapply dict_lookup_inj.
Qed.

(** ** [_merge_defaults] *)

Lemma unique_keys_lookup (d : dict) (key : string) (v : pyval) :
  unique_keys (PDict d) = true -> dict_lookup key d = Some v ->
  unique_keys v = true.
Proof.
  cbn [unique_keys]. intros H Hl. apply andb_prop in H as [_ H].
  apply dict_lookup_Some in Hl.
  rewrite forallb_forall in H. apply (H (key, v)).
  by apply list_elem_of_In.
Qed.

Lemma set_total_width_value (h : store) (c : loc) (value : pyval)
    (cv : config_value) :
  value_of h c = Some cv ->
  exists h',
    set_total_width h c value = Some h'
    /\ value_of h' c
       = Some (ConfigValue value (cv_fields cv) (cv_level_styles cv))
    /\ fields_of h' c = fields_of h c
    /\ forall l, field_at h' l = field_at h l.
Proof.
  intros Hcv. destruct (value_of_inv _ _ _ Hcv) as (fs & Hc & Hf).
  unfold set_total_width. rewrite Hc. eexists. split; [done|].
  assert (c < length h) as Hlt by (by eapply lookup_lt_Some).
  assert (forall l,
            field_at (<[c:=OLogConfig value fs (cv_level_styles cv)]> h) l
            = field_at h l) as Hfield.
  { intros l. unfold field_at. destruct (decide (l = c)) as [->|Hne].
    - by rewrite list_lookup_insert_eq, Hc by done.
    - by rewrite list_lookup_insert_ne by done. }
  split; [|split; [|done]].
  - apply (value_of_intro _ _ _ fs); [by rewrite list_lookup_insert_eq|].
    eapply Forall2_impl; [exact Hf|]. intros p q [Hn Hp].
    by rewrite Hfield.
  - unfold fields_of. by rewrite list_lookup_insert_eq, Hc by done.
Qed.

Lemma attr_of_fields (h h' : store) (c c' : loc) (name key : string) :
  fields_of h' c' = fields_of h c ->
  (forall l, field_at h' l = field_at h l) ->
  attr_of h' c' name key = attr_of h c name key.
Proof.
  intros Hfs Hl. unfold attr_of. rewrite Hfs.
  destruct (fields_of h c) as [fs|]; [|done]. simpl.
  destruct (dict_lookup name fs) as [l|]; [|done]. simpl. by rewrite Hl.
Qed.

Lemma total_width_of_shape (h h' : store) (c : loc) :
  shape h h' -> is_Some (value_of h c) ->
  total_width_of h' c = total_width_of h c.
Proof.
  intros Hs Hwf. apply wf_fields in Hwf as (tw & fs & ls & Hc & _).
  unfold total_width_of. by rewrite (shape_config _ _ _ _ _ _ Hs Hc), Hc.
Qed.

Lemma field_names_elem (h : store) (c : loc) (fs : list (string * loc))
    (names : list string) :
  fields_of h c = Some fs -> field_names h c = Some names -> names = fs.*1.
Proof. unfold field_names. intros ->. simpl. congruence. Qed.

(** What [_merge_defaults] does to a well-formed configuration: whether it
    returns, and what it then returns. *)
Lemma merge_defaults_spec (h : store) (base ov : loc) (d : dict)
    (cv : config_value) :
  value_of h base = Some cv -> dict_at h ov = Some d ->
  (is_Some (_merge_defaults h base ov)
   <-> blob_ok (cv_fields cv).*1 d = true)
  /\ forall h' r,
       _merge_defaults h base ov = Some (h', r) ->
       is_Some (value_of h' r)
       /\ total_width_of h' r
          = Some (default (cv_total_width cv) (dict_lookup "total_width" d))
       /\ forall fs,
            fields_of h base = Some fs -> NoDup fs.*2 ->
            (exists fs', fields_of h' r = Some fs' /\ NoDup fs'.*2)
            /\ (unique_keys (PDict d) = true ->
                forall name key,
                  name ∈ fs.*1 ->
                  lookup_attr (fields_entries d) name "__dict__" = None ->
                  attr_of h' r name key
                  = first_of [lookup_attr (fields_entries d) name key;
                              attr_of h base name key]).
Proof.
  intros Hcv Hd.
  destruct (deepcopy_value _ _ _ Hcv) as (h1 & r & Ecopy & Hcv1 & Hnd1).
  unfold _merge_defaults. rewrite Hd, Ecopy. simpl.
  set (tw := default (cv_total_width cv) (dict_lookup "total_width" d)).
  assert (exists h2,
            match dict_lookup "total_width" d with
            | Some value => set_total_width h1 r value
            | None => Some h1
            end = Some h2
            /\ value_of h2 r
               = Some (ConfigValue tw (cv_fields cv) (cv_level_styles cv))
            /\ fields_of h2 r = fields_of h1 r
            /\ forall l, field_at h2 l = field_at h1 l)
    as (h2 & -> & Hcv2 & Hfs2 & Hfield2).
  { unfold tw. destruct (dict_lookup "total_width" d) as [value|].
    - by apply set_total_width_value.
    - exists h1. by destruct cv. }
  simpl.
  assert (forall name key,
            attr_of h2 r name key = attr_of h base name key) as Hattr2.
  { intros name key. rewrite (attr_of_fields h1 h2 r r) by done.
    by rewrite (attr_of_value _ _ _ _ _ Hcv1), (attr_of_value _ _ _ _ _ Hcv). }
  pose proof (field_names_value _ _ _ Hcv2) as Hnames2. simpl in Hnames2.
  assert (forall fs, fields_of h base = Some fs -> NoDup fs.*2 ->
            exists fs', fields_of h2 r = Some fs' /\ NoDup fs'.*2
                        /\ fs'.*1 = fs.*1) as Hnd2.
  { intros fs Hfs Hnd. destruct (Hnd1 fs Hfs Hnd) as (fs' & Hfs' & Hnd').
    exists fs'. rewrite Hfs2. split; [done|]. split; [done|].
    pose proof (field_names_value _ _ _ Hcv) as Hn.
    rewrite <- Hfs2 in Hfs'.
    rewrite <- (field_names_elem _ _ _ _ Hfs' Hnames2).
    by rewrite <- (field_names_elem _ _ _ _ Hfs Hn). }
  unfold blob_ok.
  destruct (dict_lookup "fields" d) as [v|] eqn:Efields.
  - destruct v as [| | | |e|]; simpl;
      try (split; [split; [by intros [? ?]|done]|done]).
    pose proof (patch_fields_returns h2 r _ e ltac:(by eexists) Hnames2)
      as Hret.
    split.
    { rewrite <- Hret. destruct (patch_fields h2 r e) as [h3|]; simpl.
      - split; intros _; by eexists.
      - split; intros [? ?]; done. }
    intros h' r' H.
    destruct (patch_fields h2 r e) as [h3|] eqn:E3; [|done].
    simpl in H. injection H as <- <-.
    destruct (patch_fields_inv _ _ _ _ E3) as [Hs _].
    split; [eapply wf_shape; [done|by eexists]|].
    split.
    { rewrite (total_width_of_shape _ _ _ Hs) by (by eexists).
      by rewrite (total_width_of_value _ _ _ Hcv2). }
    intros fs Hfs Hnd. destruct (Hnd2 fs Hfs Hnd) as (fs' & Hfs' & Hnd' & Hn).
    split; [exists fs'; split; [by eapply shape_fields_of|done]|].
    intros Huniq name key Hname Hx.
    unfold fields_entries in *. rewrite Efields in *.
    rewrite (patch_fields_attr _ _ _ fs' e name key E3 Hfs' Hnd');
      [|by eapply unique_keys_lookup|by rewrite Hn|done].
    by rewrite Hattr2.
  - simpl. split; [split; [done|by eexists]|].
    intros h' r' [= <- <-].
    split; [by eexists|].
    split; [by rewrite (total_width_of_value _ _ _ Hcv2)|].
    intros fs Hfs Hnd. destruct (Hnd2 fs Hfs Hnd) as (fs' & Hfs' & Hnd' & Hn).
    split; [by exists fs'|].
    intros _ name key _ _. rewrite Hattr2. unfold fields_entries.
    rewrite Efields. unfold lookup_attr. simpl.
    by destruct (attr_of h base name key).
Qed.

(** The optional merges of [get_effective_defaults]: an absent or empty
    blob is skipped. *)
Lemma nonempty_dict_blob (h : store) (x : option loc) (d : dict) :
  blob_of h x = Some d ->
  nonempty_dict h x = Some (match d with [] => None | _ => x end).
Proof.
  unfold blob_of, nonempty_dict. destruct x as [l|].
  - intros ->. by destruct d.
  - by intros [= <-].
Qed.

Lemma blob_of_unchanged (h h' : store) (x : option loc) (d : dict) :
  unchanged_below (length h) h h' ->
  blob_of h x = Some d -> blob_of h' x = Some d.
Proof.
  intros Hu. destruct x as [l|]; [|done]. simpl. intros Hd.
  pose proof (dict_at_lt _ _ _ Hd) as Hlt.
  unfold dict_at in *. by rewrite (Hu l Hlt).
Qed.

Lemma optional_merge_spec (h : store) (c : loc) (x : option loc) (d : dict)
    (cv : config_value) :
  value_of h c = Some cv -> blob_of h x = Some d ->
  (is_Some (match (match d with [] => None | _ => x end) with
            | Some b => _merge_defaults h c b
            | None => Some (h, c)
            end)
   <-> blob_ok (cv_fields cv).*1 d = true)
  /\ forall h' r,
       match (match d with [] => None | _ => x end) with
       | Some b => _merge_defaults h c b
       | None => Some (h, c)
       end = Some (h', r) ->
       is_Some (value_of h' r)
       /\ total_width_of h' r
          = Some (default (cv_total_width cv) (dict_lookup "total_width" d))
       /\ forall fs,
            fields_of h c = Some fs -> NoDup fs.*2 ->
            (exists fs', fields_of h' r = Some fs' /\ NoDup fs'.*2)
            /\ (unique_keys (PDict d) = true ->
                forall name key,
                  name ∈ fs.*1 ->
                  lookup_attr (fields_entries d) name "__dict__" = None ->
                  attr_of h' r name key
                  = first_of [lookup_attr (fields_entries d) name key;
                              attr_of h c name key]).
Proof.
  intros Hcv Hd.
  assert (forall h' r,
            Some (h, c) = Some (h', r) -> d = [] ->
            is_Some (value_of h' r)
            /\ total_width_of h' r
               = Some (default (cv_total_width cv)
                         (dict_lookup "total_width" d))
            /\ forall fs,
                 fields_of h c = Some fs -> NoDup fs.*2 ->
                 (exists fs', fields_of h' r = Some fs' /\ NoDup fs'.*2)
                 /\ (unique_keys (PDict d) = true ->
                     forall name key,
                       name ∈ fs.*1 ->
                       lookup_attr (fields_entries d) name "__dict__" = None ->
                       attr_of h' r name key
                       = first_of [lookup_attr (fields_entries d) name key;
                                   attr_of h c name key])) as Hskip.
  { intros h' r [= <- <-] ->. split; [by eexists|].
    split; [by apply total_width_of_value|].
    intros fs Hfs Hnd. split; [by exists fs|].
    intros _ name key _ _. unfold fields_entries, lookup_attr. simpl.
    by destruct (attr_of h c name key). }
  destruct d as [|e d].
  - split; [split; [done|by eexists]|]. intros h' r H. by apply Hskip.
  - destruct x as [b|]; [|done]. simpl in Hd.
    by apply merge_defaults_spec.
Qed.

(** The level styles step of [get_effective_defaults]. *)
Lemma level_patch_spec (h : store) (c : loc) (level : option string)
    (cv : config_value) :
  value_of h c = Some cv ->
  (is_Some (match level with
            | Some (String a s) =>
                match dict_lookup (String a s) (cv_level_styles cv) with
                | Some styles =>
                    entries ← items styles; patch_fields h c entries
                | None => Some h
                end
            | _ => Some h
            end)
   <-> level_ok (cv_fields cv).*1 (cv_level_styles cv) level = true)
  /\ forall h',
       match level with
       | Some (String a s) =>
           match dict_lookup (String a s) (cv_level_styles cv) with
           | Some styles =>
               entries ← items styles; patch_fields h c entries
           | None => Some h
           end
       | _ => Some h
       end = Some h' ->
       forall fs,
         fields_of h c = Some fs -> NoDup fs.*2 ->
         unique_keys (PDict (cv_level_styles cv)) = true ->
         forall name key,
           name ∈ fs.*1 ->
           lookup_attr (level_entries (cv_level_styles cv) level)
             name "__dict__" = None ->
           attr_of h' c name key
           = first_of [lookup_attr (level_entries (cv_level_styles cv) level)
                         name key;
                       attr_of h c name key].
Proof.
  intros Hcv.
  assert (forall name key,
            attr_of h c name key
            = first_of [lookup_attr [] name key; attr_of h c name key])
    as Hskip.
  { intros name key. unfold lookup_attr. simpl.
    by destruct (attr_of h c name key). }
  unfold level_ok, level_entries.
  destruct level as [[|a s]|];
    try (split; [split; [done|by eexists]|];
         intros h' [= <-] fs _ _ _ name key _ _; apply Hskip).
  destruct (dict_lookup (String a s) (cv_level_styles cv)) as [styles|]
    eqn:Estyles;
    [|split; [split; [done|by eexists]|];
      intros h' [= <-] fs _ _ _ name key _ _; apply Hskip].
  destruct styles as [| | | |e|]; simpl;
    try (split; [split; [by intros [? ?]|done]|done]).
  split.
  - apply patch_fields_returns; [by eexists|by apply field_names_value].
  - intros h' H fs Hfs Hnd Huniq name key Hname Hx.
    eapply patch_fields_attr; [exact H|done|done| |done|done].
    by eapply unique_keys_lookup.
Qed.

(** ** [get_effective_defaults] *)

Lemma first_of_four {A} (a b c d : option A) :
  first_of [a; first_of [b; first_of [c; d]]] = first_of [a; b; c; d].
Proof. by destruct a, b, c, d. Qed.

(** What the cascade does with well-formed system defaults: whether it
    returns, and the width and the attributes of what it returns. *)
Lemma cascade_spec (h : store) (system_defaults : loc)
    (instance_id : string) (template_name level : option string)
    (template_config : option loc) (kwargs : loc)
    (cv : config_value) (tmpl kw : dict) :
  value_of h system_defaults = Some cv ->
  blob_of h template_config = Some tmpl ->
  dict_at h kwargs = Some kw ->
  (is_Some (get_effective_defaults h system_defaults instance_id
              template_name level template_config kwargs)
   <-> blob_ok (cv_fields cv).*1 tmpl = true
       /\ level_ok (cv_fields cv).*1 (cv_level_styles cv) level = true
       /\ blob_ok (cv_fields cv).*1 kw = true)
  /\ forall h' r,
       get_effective_defaults h system_defaults instance_id template_name
         level template_config kwargs = Some (h', r) ->
       is_Some (value_of h' r)
       /\ total_width_of h' r
          = Some (default
                    (default (cv_total_width cv)
                       (dict_lookup "total_width" tmpl))
                    (dict_lookup "total_width" kw))
       /\ forall fs,
            fields_of h system_defaults = Some fs -> NoDup fs.*2 ->
            unique_keys (PDict tmpl) = true ->
            unique_keys (PDict (cv_level_styles cv)) = true ->
            unique_keys (PDict kw) = true ->
            forall name key,
              name ∈ fs.*1 ->
              lookup_attr (fields_entries kw) name "__dict__" = None ->
              lookup_attr (level_entries (cv_level_styles cv) level)
                name "__dict__" = None ->
              lookup_attr (fields_entries tmpl) name "__dict__" = None ->
              attr_of h' r name key
              = first_of
                  [lookup_attr (fields_entries kw) name key;
                   lookup_attr (level_entries (cv_level_styles cv) level)
                     name key;
                   lookup_attr (fields_entries tmpl) name key;
                   attr_of h system_defaults name key].
Proof.
  intros Hcv Htmpl Hkw. unfold get_effective_defaults.
  (* the copy of the system defaults *)
  destruct (deepcopy_value _ _ _ Hcv) as (h1 & c1 & E1 & Hcv1 & Hnd1).
  rewrite E1. simpl.
  destruct (deepcopy_fresh _ _ _ _ E1) as (Hu1 & Hlen1 & Hf1 & _ & _).
  (* the template *)
  pose proof (blob_of_unchanged _ _ _ _ Hu1 Htmpl) as Htmpl1.
  rewrite (nonempty_dict_blob _ _ _ Htmpl1). simpl.
  destruct (optional_merge_spec h1 c1 template_config tmpl cv Hcv1 Htmpl1)
    as [Hret2 Heff2].
  destruct (match match tmpl with [] => None | _ => template_config end with
            | Some b => _merge_defaults h1 c1 b
            | None => Some (h1, c1)
            end) as [[h2 c2]|] eqn:E2; simpl; cycle 1.
  { split; [|done]. split; [by intros [? ?]|].
    intros (Hok & _ & _). apply Hret2 in Hok. by destruct Hok. }
  destruct (Heff2 h2 c2 eq_refl) as ([cv2 Hcv2] & Htw2 & Hattr2).
  destruct (optional_merge_fresh (length h) _ _ _ _ _ E2 Hlen1 Hf1)
    as (Hu2 & Hlen2 & Hf2 & Hn2 & Hl2).
  assert ((cv_fields cv2).*1 = (cv_fields cv).*1) as Hnames2.
  { rewrite (field_names_value _ _ _ Hcv2),
      (field_names_value _ _ _ Hcv1) in Hn2. congruence. }
  assert (cv_level_styles cv2 = cv_level_styles cv) as Hls2.
  { rewrite (level_styles_of_value _ _ _ Hcv2),
      (level_styles_of_value _ _ _ Hcv1) in Hl2. congruence. }
  (* the level styles *)
  rewrite (level_styles_of_value _ _ _ Hcv2). simpl.
  destruct (level_patch_spec h2 c2 level cv2 Hcv2) as [Hret3 Heff3].
  rewrite Hnames2, Hls2 in Hret3. rewrite Hls2 in Heff3.
  rewrite Hls2.
  destruct (match level with
            | Some (String a s) =>
                match dict_lookup (String a s) (cv_level_styles cv) with
                | Some styles =>
                    entries ← items styles; patch_fields h2 c2 entries
                | None => Some h2
                end
            | _ => Some h2
            end) as [h3|] eqn:E3; simpl; cycle 1.
  { split; [|done]. split; [by intros [? ?]|].
    intros (_ & Hok & _). apply Hret3 in Hok. by destruct Hok. }
  destruct (level_patch_fresh (length h) _ _ _ _ _ E3 Hf2) as [Hu3 Hs3].
  destruct (wf_shape _ _ c2 Hs3 ltac:(by eexists)) as [cv3 Hcv3].
  assert (length h <= length h3) as Hlen3
    by (rewrite (shape_length _ _ Hs3); lia).
  pose proof (fresh_config_shape _ _ _ _ Hs3 Hf2) as Hf3.
  destruct (shape_reads h2 h3 c2 Hs3) as (Hfs3 & Hn3 & Hl3 & _).
  assert ((cv_fields cv3).*1 = (cv_fields cv).*1) as Hnames3.
  { rewrite (field_names_value _ _ _ Hcv3),
      (field_names_value _ _ _ Hcv2) in Hn3. congruence. }
  assert (cv_total_width cv3
          = default (cv_total_width cv) (dict_lookup "total_width" tmpl))
    as Htw3.
  { pose proof (total_width_of_shape _ _ c2 Hs3 ltac:(by eexists)) as Ht.
    rewrite (total_width_of_value _ _ _ Hcv3), Htw2 in Ht. congruence. }
  (* the keyword arguments *)
  assert (unchanged_below (length h) h h3) as Hu03.
  { apply (unchanged_below_trans (length h) (length h) h h1 h3);
      [done|done|].
    by apply (unchanged_below_trans (length h) (length h) h1 h2 h3). }
  assert (blob_of h3 (Some kwargs) = Some kw) as Hkw3.
  { by apply (blob_of_unchanged h h3 (Some kwargs)). }
  rewrite (nonempty_dict_blob _ _ _ Hkw3). simpl.
  destruct (optional_merge_spec h3 c2 (Some kwargs) kw cv3 Hcv3 Hkw3)
    as [Hret4 Heff4].
  rewrite Hnames3 in Hret4. rewrite Htw3 in Heff4.
  split.
  { rewrite Hret4. split; [intros Hok|by intros (_ & _ & ?)].
    split; [apply Hret2; by eexists|]. split; [apply Hret3; by eexists|done]. }
  intros h' r H. destruct (Heff4 h' r H) as (Hwf4 & Htw4 & Hattr4).
  split; [done|]. split; [done|].
  intros fs Hfs Hnd Hut Hul Huk name key Hname Hxk Hxl Hxt.
  destruct (Hnd1 fs Hfs Hnd) as (fs1 & Hfs1 & Hnd1').
  assert (fs1.*1 = fs.*1) as Hn1.
  { pose proof (field_names_value _ _ _ Hcv) as Ha.
    pose proof (field_names_value _ _ _ Hcv1) as Hb.
    rewrite <- (field_names_elem _ _ _ _ Hfs Ha).
    by rewrite <- (field_names_elem _ _ _ _ Hfs1 Hb). }
  destruct (Hattr2 fs1 Hfs1 Hnd1') as [(fs2 & Hfs2 & Hnd2) Hattr2'].
  assert (fs2.*1 = fs.*1) as Hn2'.
  { pose proof (field_names_value _ _ _ Hcv2) as Ha.
    rewrite <- (field_names_elem _ _ _ _ Hfs2 Ha), Hnames2.
    pose proof (field_names_value _ _ _ Hcv) as Hb.
    by rewrite (field_names_elem _ _ _ _ Hfs Hb). }
  assert (fields_of h3 c2 = Some fs2) as Hfs3' by (by rewrite Hfs3).
  destruct (Hattr4 fs2 Hfs3' Hnd2) as [_ Hattr4'].
  rewrite (Hattr4' Huk name key) by (done || by rewrite Hn2').
  rewrite (Heff3 h3 eq_refl fs2 Hfs2 Hnd2 Hul name key)
    by (done || by rewrite Hn2').
  rewrite (Hattr2' Hut name key) by (done || by rewrite Hn1).
  rewrite first_of_four. do 4 f_equal.
  by rewrite (attr_of_value _ _ _ _ _ Hcv1), (attr_of_value _ _ _ _ _ Hcv).
Qed.

Lemma sample_store_value : value_of sample_store 4 = Some default_value.
Proof. by vm_compute. Qed.



(** [get_effective_defaults('id', fields={'message': {'__class__': 3}})]
    raises, and so does [__dict__] with a value that is not a dict. *)
Example cascade_class_raises :
  get_effective_defaults
    (default_store
     ++ [ODict [("fields", PDict [("message", PDict [("__class__", PInt 3)])])]])
    4 "id" None None None 5 = None
  /\ get_effective_defaults
       (default_store
        ++ [ODict [("fields", PDict [("message", PDict [("__dict__", PInt 3)])])]])
       4 "id" None None None 5 = None.
Proof. split; by vm_compute. Qed.

(** [get_effective_defaults('id', fields={'message': {'__dict__': {},
    'color': 'red'}})] returns a configuration whose message field has the
    instance dictionary [{'color': 'red'}]: the entries the system defaults
    had, [max_width] among them, are gone. *)
Example cascade_dict_replaces :
  let r := default ([], 0)
             (get_effective_defaults
                (default_store
                 ++ [ODict [("fields",
                             PDict [("message",
                                     PDict [("__dict__", PDict []);
                                            ("color", PStr "red")])])]])
                4 "id" None None None 5) in
  attr_of r.1 r.2 "message" "color" = Some (PStr "red")
  /\ attr_of r.1 r.2 "message" "max_width" = None
  /\ attr_of default_store 4 "message" "max_width" = Some (PInt 55).
Proof. repeat split; by vm_compute. Qed.

(** X11.  The total width of the configuration the cascade returns is the
    ['total_width'] of the keyword arguments if they have one, else the
    one of the template config if it has one, else the one of the system
    defaults. *)
Theorem cascade_total_width (h h' : store) (system_defaults r : loc)
    (instance_id : string) (template_name level : option string)
    (template_config : option loc) (kwargs : loc)
    (cv : config_value) (tmpl kw : dict) :
  value_of h system_defaults = Some cv ->
  blob_of h template_config = Some tmpl ->
  dict_at h kwargs = Some kw ->
  get_effective_defaults h system_defaults instance_id template_name level
    template_config kwargs = Some (h', r) ->
  total_width_of h' r
  = first_of [dict_lookup "total_width" kw;
              dict_lookup "total_width" tmpl;
              Some (cv_total_width cv)].
Proof.
  intros Hcv Htmpl Hkw H.
  destruct (cascade_spec h system_defaults instance_id template_name
              level template_config kwargs cv tmpl kw Hcv Htmpl Hkw)
    as [_ Heff].
  destruct (Heff h' r H) as (_ & -> & _).
  by destruct (dict_lookup "total_width" kw),
       (dict_lookup "total_width" tmpl).
Qed.

Lemma cascade_total_width_witness :
  total_width_of sample_result.1 sample_result.2
  = first_of [dict_lookup "total_width" [];
              dict_lookup "total_width" blob_unknown;
              Some (cv_total_width default_value)].
Proof.
  apply (cascade_total_width sample_store sample_result.1 4 sample_result.2
           "id" (Some "default") (Some "INFO") (Some 5) 7 default_value
           blob_unknown []).
  - vm_compute. reflexivity.
  - reflexivity.
  - reflexivity.
  - vm_compute. reflexivity.
Defined.



(** X13.  With no template config (or an empty one), no level (or an
    empty or unknown one) and no keyword arguments, the cascade returns a
    copy of well-formed system defaults: a configuration with the same
    value, all of whose objects are new. *)
Theorem cascade_no_layers (h : store) (system_defaults : loc)
    (instance_id : string) (template_name level : option string)
    (template_config : option loc) (kwargs : loc) (cv : config_value) :
  value_of h system_defaults = Some cv ->
  blob_of h template_config = Some [] ->
  (forall a s, level = Some (String a s) ->
               dict_lookup (String a s) (cv_level_styles cv) = None) ->
  dict_at h kwargs = Some [] ->
  exists h' r,
    get_effective_defaults h system_defaults instance_id template_name level
      template_config kwargs = Some (h', r)
    /\ value_of h' r = Some cv
    /\ value_of h' system_defaults = Some cv
    /\ fresh_config (length h) h' r.
Proof.
  intros Hcv Htmpl Hlevel Hkw.
  destruct (deepcopy_value _ _ _ Hcv) as (h1 & c1 & E1 & Hcv1 & _).
  destruct (deepcopy_fresh _ _ _ _ E1) as (Hu1 & Hlen1 & Hf1 & _ & _).
  exists h1, c1. split.
  - unfold get_effective_defaults. rewrite E1. simpl.
    rewrite (nonempty_dict_blob h1 template_config []); simpl;
      [|by eapply blob_of_unchanged].
    rewrite (level_styles_of_value _ _ _ Hcv1). simpl.
    assert (match level with
            | Some (String a s) =>
                match dict_lookup (String a s) (cv_level_styles cv) with
                | Some styles =>
                    entries ← items styles; patch_fields h1 c1 entries
                | None => Some h1
                end
            | _ => Some h1
            end = Some h1) as ->.
    { destruct level as [[|a s]|]; try done. by rewrite (Hlevel a s). }
    simpl. rewrite (nonempty_dict_blob h1 (Some kwargs) []); [done|].
    by apply (blob_of_unchanged h h1 (Some kwargs)).
  - split; [done|]. split; [by eapply value_of_unchanged|done].
Qed.

Lemma cascade_no_layers_witness :
  exists h' r,
    get_effective_defaults sample_store 4 "id" None (Some "TRACE")
      (Some 7) 7 = Some (h', r)
    /\ value_of h' r = Some default_value
    /\ value_of h' 4 = Some default_value
    /\ fresh_config (length sample_store) h' r.
Proof.
  apply (cascade_no_layers sample_store 4 "id" None (Some "TRACE")
           (Some 7) 7 default_value).
  - vm_compute. reflexivity.
  - reflexivity.
  - intros a s [= <- <-]. reflexivity.
  - reflexivity.
Defined.

(** X14.  An empty template config counts as none, and a level without
    styles in the system defaults counts as no level: the cascade returns
    the same in either case. *)
Theorem cascade_absent_layers (h : store) (system_defaults : loc)
    (instance_id : string) (template_name : option string)
    (level_styles : dict) :
  level_styles_of h system_defaults = Some level_styles ->
  (forall level kwargs b,
     dict_at h b = Some [] ->
     get_effective_defaults h system_defaults instance_id template_name
       level (Some b) kwargs
     = get_effective_defaults h system_defaults instance_id template_name
         level None kwargs)
  /\ (forall name template_config kwargs,
        dict_lookup name level_styles = None ->
        get_effective_defaults h system_defaults instance_id template_name
          (Some name) template_config kwargs
        = get_effective_defaults h system_defaults instance_id template_name
            None template_config kwargs).
Proof.
  intros Hls. split.
  - intros level kwargs b Hb. unfold get_effective_defaults.
    destruct (deepcopy h system_defaults) as [[h1 c1]|] eqn:E1; [|done].
    simpl. destruct (deepcopy_fresh _ _ _ _ E1) as (Hu1 & _).
    by rewrite (nonempty_dict_unchanged h h1 b [] Hu1 Hb).
  - intros name template_config kwargs Hname.
    destruct name as [|a s]; [done|].
    unfold get_effective_defaults.
    destruct (deepcopy h system_defaults) as [[h1 c1]|] eqn:E1; [|done].
    simpl.
    destruct (deepcopy_fresh _ _ _ _ E1) as (Hu1 & Hlen1 & Hf1 & _ & Hl1).
    destruct (nonempty_dict h1 template_config) as [tc|]; [|done]. simpl.
    destruct (match tc with
              | Some tc0 => _merge_defaults h1 c1 tc0
              | None => Some (h1, c1)
              end) as [[h2 c2]|] eqn:E2; [|done].
    simpl.
    destruct (optional_merge_fresh (length h) _ _ _ _ _ E2 Hlen1 Hf1)
      as (_ & _ & _ & _ & Hl2).
    rewrite Hl2, Hl1, Hls. simpl. by rewrite Hname.
Qed.

Lemma cascade_absent_layers_witness :
  (forall level kwargs b,
     dict_at sample_store b = Some [] ->
     get_effective_defaults sample_store 4 "id" (Some "default")
       level (Some b) kwargs
     = get_effective_defaults sample_store 4 "id" (Some "default")
         level None kwargs)
  /\ (forall name template_config kwargs,
        dict_lookup name default_level_styles = None ->
        get_effective_defaults sample_store 4 "id" (Some "default")
          (Some name) template_config kwargs
        = get_effective_defaults sample_store 4 "id" (Some "default")
            None template_config kwargs).
Proof.
  apply (cascade_absent_layers sample_store 4 "id" (Some "default")
           default_level_styles).
  reflexivity.
Defined.

End CascadeFacts.

(** * The cascade and shared objects *)

Module SharingFacts.

Import Defaults DefaultsFacts CascadeFacts.

Local Open Scope nat_scope.

Local Arguments nonempty_dict : simpl never.

(** ** Immutable values keep a configuration free of addresses *)

Local Abbreviation no_refs :=
  (map_Forall (fun (_ : string) v => refs_of v = [])).

Lemma keeps_plain_refl (h : store) : keeps_plain h h.
Proof. intros l a Ha Hp. by exists a. Qed.

Lemma keeps_plain_trans (h1 h2 h3 : store) :
  keeps_plain h1 h2 -> keeps_plain h2 h3 -> keeps_plain h1 h3.
Proof.
  intros H12 H23 l a Ha Hp.
  destruct (H12 l a Ha Hp) as (a2 & Ha2 & Hp2). by apply (H23 l a2).
Qed.

Lemma immutable_refs (v : pyval) : immutable v = true -> refs_of v = [].
Proof. by destruct v. Qed.

Lemma setattr_keeps_plain (h h' : store) (l : loc) (key : string)
    (value : pyval) :
  setattr h l key value = Some h' -> immutable value = true ->
  keeps_plain h h'.
Proof.
  intros H Hv l' a Ha Hp. unfold setattr in H.
  destruct (h !! l) as [[a0| | |]|] eqn:El; try done.
  assert (h' = <[l := OFieldConfig (<[key := value]> a0)]> h) as ->.
  { destruct (_ || _); [done|].
    destruct (bool_decide _); [by destruct value|by simplify_eq]. }
  unfold field_at in *. destruct (decide (l' = l)) as [->|Hne].
  - rewrite list_lookup_insert_eq by (by eapply lookup_lt_Some).
    rewrite El in Ha. simplify_eq. eexists. split; [done|].
    apply map_Forall_insert_2; [by apply immutable_refs|done].
  - rewrite list_lookup_insert_ne by done. by exists a.
Qed.

Lemma setattrs_keeps_plain (h h' : store) (l : loc) (d : dict) :
  setattrs h l d = Some h' ->
  forallb (fun q => immutable q.2) d = true ->
  keeps_plain h h'.
Proof.
  revert h. induction d as [|[key value] d IH]; intros h H Hd; simpl in *.
  - simplify_eq. apply keeps_plain_refl.
  - destruct (setattr h l key value) as [h1|] eqn:E1; [|done]. simpl in H.
    apply andb_prop in Hd as [Hv Hd].
    eapply keeps_plain_trans; [by eapply setattr_keeps_plain|by eapply IH].
Qed.

Lemma patch_fields_keeps_plain (h h' : store) (c : loc)
    (fs : list (string * loc)) (entries : dict) :
  patch_fields h c entries = Some h' ->
  fields_of h c = Some fs ->
  immutable_entries fs.*1 entries = true ->
  keeps_plain h h'.
Proof.
  revert h. induction entries as [|[n v] entries IH]; intros h H Hfs Hi;
    simpl in H.
  { simplify_eq. apply keeps_plain_refl. }
  rewrite Hfs in H. simpl in H.
  unfold immutable_entries in Hi. simpl in Hi.
  apply andb_prop in Hi as [Hv Hi].
  destruct (match dict_lookup n fs with
            | Some l => d ← items v; setattrs h l d
            | None => Some h
            end) as [h1|] eqn:E1; [|done].
  simpl in H.
  pose proof (patch_fields_step_shape _ _ _ _ _ E1) as Hs.
  pose proof (shape_fields_of _ _ _ _ Hs Hfs) as Hfs1.
  eapply keeps_plain_trans; [|by eapply IH].
  destruct (dict_lookup n fs) as [l|] eqn:El;
    [|simplify_eq; apply keeps_plain_refl].
  assert (n ∈ fs.*1) as Hin by (apply dict_lookup_is_Some; by eexists).
  rewrite (bool_decide_eq_true_2 _ Hin) in Hv. simpl in Hv.
  destruct v as [| | | |d|]; try done. simpl in E1.
  by eapply setattrs_keeps_plain.
Qed.

(** A plain configuration stays plain, with its field names, total width
    and level styles, when only attributes are set and instance
    dictionaries without addresses stay so. *)
Lemma plain_shape (h h' : store) (c : loc) (cv : config_value) :
  value_of h c = Some cv -> plain cv -> shape h h' -> keeps_plain h h' ->
  exists cv',
    value_of h' c = Some cv' /\ plain cv'
    /\ (cv_fields cv').*1 = (cv_fields cv).*1
    /\ cv_total_width cv' = cv_total_width cv
    /\ cv_level_styles cv' = cv_level_styles cv.
Proof.
  intros Hcv (Htw & Hf & Hls) Hs Hk.
  destruct (value_of_inv _ _ _ Hcv) as (fs & Hc & H2).
  pose proof (shape_config _ _ _ _ _ _ Hs Hc) as Hc'.
  assert (exists fvs,
            Forall2 (fun p q => q.1 = p.1 /\ field_at h' p.2 = Some q.2)
              fs fvs
            /\ Forall (fun p => no_refs p.2) fvs
            /\ fvs.*1 = (cv_fields cv).*1) as (fvs & H2' & Hf' & Hn).
  { clear Hc Hc' Hcv. revert H2 Hf. generalize (cv_fields cv).
    induction fs as [|[n l] fs IH]; intros fvs0 H2 Hf.
    - apply Forall2_nil_inv_l in H2 as ->. exists []. by repeat split.
    - apply Forall2_cons_inv_l in H2
        as ([n0 a0] & fvs1 & [Hn0 Ha0] & H2 & ->).
      simpl in Hn0, Ha0. subst n0.
      apply Forall_cons in Hf as [Hp Hf].
      destruct (IH fvs1 H2 Hf) as (fvs & H2' & Hf' & Hn).
      destruct (Hk l a0 Ha0 Hp) as (a' & Ha' & Hp').
      exists ((n, a') :: fvs). split; [by constructor|].
      split; [by constructor|]. rewrite !fmap_cons. simpl. by rewrite Hn. }
  exists (ConfigValue (cv_total_width cv) fvs (cv_level_styles cv)).
  split; [by apply (value_of_intro _ _ _ fs)|]. by repeat split.
Qed.

Lemma plain_total_width (cv : config_value) (value : pyval) :
  plain cv -> immutable value = true ->
  plain (ConfigValue value (cv_fields cv) (cv_level_styles cv)).
Proof.
  intros (_ & Hf & Hls) Hv. split; [by apply immutable_refs|done].
Qed.

(** [_merge_defaults] of a blob of immutable values into a plain
    configuration returns a plain configuration. *)
Lemma merge_defaults_plain (h h' : store) (base ov r : loc) (d : dict)
    (cv : config_value) :
  _merge_defaults h base ov = Some (h', r) ->
  dict_at h ov = Some d ->
  value_of h base = Some cv -> plain cv ->
  immutable_blob (cv_fields cv).*1 d = true ->
  exists cv',
    value_of h' r = Some cv' /\ plain cv'
    /\ (cv_fields cv').*1 = (cv_fields cv).*1
    /\ cv_level_styles cv' = cv_level_styles cv.
Proof.
  intros H Hd Hcv Hp Hi. unfold _merge_defaults in H.
  rewrite Hd in H. simpl in H.
  destruct (deepcopy_value _ _ _ Hcv) as (h1 & r1 & E1 & Hcv1 & _).
  rewrite E1 in H. simpl in H.
  unfold immutable_blob in Hi. apply andb_prop in Hi as [Htw Hi].
  assert (exists h2 cv2,
            match dict_lookup "total_width" d with
            | Some value => set_total_width h1 r1 value
            | None => Some h1
            end = Some h2
            /\ value_of h2 r1 = Some cv2 /\ plain cv2
            /\ cv_fields cv2 = cv_fields cv
            /\ cv_level_styles cv2 = cv_level_styles cv)
    as (h2 & cv2 & E2 & Hcv2 & Hp2 & Hf2 & Hl2).
  { destruct (dict_lookup "total_width" d) as [value|].
    - destruct (set_total_width_value _ _ value _ Hcv1)
        as (h2 & E2 & Hcv2 & _).
      exists h2, (ConfigValue value (cv_fields cv) (cv_level_styles cv)).
      split; [done|]. split; [done|].
      split; [by apply plain_total_width|done].
    - by exists h1, cv. }
  rewrite E2 in H. simpl in H. rewrite <- Hf2, <- Hl2.
  unfold fields_entries in Hi.
  destruct (dict_lookup "fields" d) as [v|]; cycle 1.
  { simpl in H. simplify_eq. by exists cv2. }
  destruct v as [| | | |entries|]; simpl in H; try done.
  destruct (patch_fields h2 r1 entries) as [h3|] eqn:E3; [|done].
  simpl in H. injection H as <- <-.
  destruct (patch_fields_inv _ _ _ _ E3) as [Hs _].
  pose proof (field_names_value _ _ _ Hcv2) as Hn.
  unfold field_names in Hn.
  destruct (fields_of h2 r1) as [fs|] eqn:Efs; [|done].
  simpl in Hn. injection Hn as Hn.
  rewrite <- Hf2, <- Hn in Hi.
  pose proof (patch_fields_keeps_plain _ _ _ _ _ E3 Efs Hi) as Hk.
  destruct (plain_shape _ _ _ _ Hcv2 Hp2 Hs Hk)
    as (cv3 & Hcv3 & Hp3 & Hn3 & _ & Hl3).
  by exists cv3.
Qed.

Lemma optional_merge_plain (h h' : store) (c r : loc) (x : option loc)
    (d : dict) (cv : config_value) :
  match (match d with [] => None | _ => x end) with
  | Some b => _merge_defaults h c b
  | None => Some (h, c)
  end = Some (h', r) ->
  blob_of h x = Some d ->
  value_of h c = Some cv -> plain cv ->
  immutable_blob (cv_fields cv).*1 d = true ->
  exists cv',
    value_of h' r = Some cv' /\ plain cv'
    /\ (cv_fields cv').*1 = (cv_fields cv).*1
    /\ cv_level_styles cv' = cv_level_styles cv.
Proof.
  intros H Hd Hcv Hp Hi.
  destruct d as [|e d]; [simplify_eq; by exists cv|].
  destruct x as [b|]; [|simplify_eq; by exists cv].
  by eapply merge_defaults_plain.
Qed.

(** The cascade over immutable values returns a plain configuration. *)
Lemma cascade_plain (h h' : store) (system_defaults r : loc)
    (instance_id : string) (template_name level : option string)
    (template_config : option loc) (kwargs : loc)
    (cv : config_value) (tmpl kw : dict) :
  value_of h system_defaults = Some cv -> plain cv ->
  blob_of h template_config = Some tmpl ->
  dict_at h kwargs = Some kw ->
  immutable_blob (cv_fields cv).*1 tmpl = true ->
  immutable_entries (cv_fields cv).*1
    (level_entries (cv_level_styles cv) level) = true ->
  immutable_blob (cv_fields cv).*1 kw = true ->
  get_effective_defaults h system_defaults instance_id template_name level
    template_config kwargs = Some (h', r) ->
  exists cv', value_of h' r = Some cv' /\ plain cv'.
Proof.
  intros Hcv Hp Htmpl Hkw Hit Hil Hik H.
  unfold get_effective_defaults in H.
  destruct (deepcopy_value _ _ _ Hcv) as (h1 & c1 & E1 & Hcv1 & _).
  rewrite E1 in H. simpl in H.
  destruct (deepcopy_fresh _ _ _ _ E1) as (Hu1 & Hlen1 & Hf1 & _ & _).
  pose proof (blob_of_unchanged _ _ _ _ Hu1 Htmpl) as Htmpl1.
  rewrite (nonempty_dict_blob _ _ _ Htmpl1) in H. simpl in H.
  destruct (match match tmpl with [] => None | _ => template_config end with
            | Some b => _merge_defaults h1 c1 b
            | None => Some (h1, c1)
            end) as [[h2 c2]|] eqn:E2; [|done].
  simpl in H.
  destruct (optional_merge_plain _ _ _ _ _ _ _ E2 Htmpl1 Hcv1 Hp Hit)
    as (cv2 & Hcv2 & Hp2 & Hn2 & Hl2).
  destruct (optional_merge_fresh (length h) _ _ _ _ _ E2 Hlen1 Hf1)
    as (Hu2 & Hlen2 & Hf2 & _ & _).
  rewrite (level_styles_of_value _ _ _ Hcv2), Hl2 in H. simpl in H.
  destruct (match level with
            | Some (String a s) =>
                match dict_lookup (String a s) (cv_level_styles cv) with
                | Some styles =>
                    entries ← items styles; patch_fields h2 c2 entries
                | None => Some h2
                end
            | _ => Some h2
            end) as [h3|] eqn:E3; [|done].
  simpl in H.
  destruct (level_patch_fresh (length h) _ _ _ _ _ E3 Hf2) as [Hu3 Hs3].
  assert (keeps_plain h2 h3) as Hk3.
  { unfold level_entries in Hil.
    destruct level as [[|a s]|]; try (simplify_eq; apply keeps_plain_refl).
    destruct (dict_lookup (String a s) (cv_level_styles cv)) as [styles|];
      [|simplify_eq; apply keeps_plain_refl].
    destruct styles as [| | | |entries|]; try done. simpl in E3.
    pose proof (field_names_value _ _ _ Hcv2) as Hn.
    unfold field_names in Hn.
    destruct (fields_of h2 c2) as [fs|] eqn:Efs; [|done].
    simpl in Hn. injection Hn as Hn.
    eapply patch_fields_keeps_plain; [exact E3|exact Efs|].
    by rewrite Hn, Hn2. }
  destruct (plain_shape _ _ _ _ Hcv2 Hp2 Hs3 Hk3)
    as (cv3 & Hcv3 & Hp3 & Hn3 & _ & Hl3).
  assert (unchanged_below (length h) h h3) as Hu03.
  { apply (unchanged_below_trans (length h) (length h) h h1 h3);
      [done|done|].
    by apply (unchanged_below_trans (length h) (length h) h1 h2 h3). }
  assert (blob_of h3 (Some kwargs) = Some kw) as Hkw3.
  { by apply (blob_of_unchanged h h3 (Some kwargs)). }
  rewrite (nonempty_dict_blob _ _ _ Hkw3) in H. simpl in H.
  rewrite <- Hn2, <- Hn3 in Hik.
  destruct (optional_merge_plain _ _ _ _ _ _ _ H Hkw3 Hcv3 Hp3 Hik)
    as (cv4 & Hcv4 & Hp4 & _).
  by exists cv4.
Qed.

(** A plain configuration made of new objects is independent. *)
Lemma plain_independent (n : nat) (h : store) (r : loc) (cv : config_value) :
  value_of h r = Some cv -> plain cv -> fresh_config n h r ->
  independent n h r.
Proof.
  intros Hcv (Htw & Hf & Hls) (Hr & fs & Hfs & Hfresh) l Hl.
  destruct Hl as [<-|[(fs0 & Hfs0 & Hin)|[(v & Hv & Hin)|
                   [(name & key & v & Hv & Hin)|(ls & Hl & Hin)]]]].
  - done.
  - rewrite Hfs in Hfs0. injection Hfs0 as <-.
    apply list_elem_of_fmap in Hin as (p & -> & Hp).
    by apply (proj1 (Forall_forall _ _) Hfresh p).
  - rewrite (total_width_of_value _ _ _ Hcv) in Hv. injection Hv as <-.
    rewrite Htw in Hin. by apply elem_of_nil in Hin.
  - rewrite (attr_of_value _ _ _ _ _ Hcv) in Hv.
    destruct (dict_lookup name (cv_fields cv)) as [a|] eqn:Ea; [|done].
    simpl in Hv. apply dict_lookup_Some in Ea.
    pose proof (proj1 (Forall_forall _ _) Hf _ Ea _ _ Hv) as Hnone.
    simpl in Hnone. rewrite Hnone in Hin. by apply elem_of_nil in Hin.
  - rewrite (level_styles_of_value _ _ _ Hcv) in Hl. injection Hl as <-.
    rewrite Hls in Hin. by apply elem_of_nil in Hin.
Qed.

(** C3, as the code has it.  Let the system defaults be a configuration
    that can be read out of the store and that holds no address, and let
    every attribute value and total width that the template config, the
    styles of the level and the keyword arguments give to the fields of
    the configuration be immutable: [None], a number, a string or a
    boolean, which is what [FieldConfig] declares.  If
    [get_effective_defaults] returns, then every object of the store it
    was given, the system defaults and the blobs included, is as it was,
    and the configuration returned is made of new objects only: nothing
    that was in the store before is reached from it.  A later call with
    the same arguments, in any store that still holds the objects of the
    first store unchanged, whatever was done to the objects allocated
    since, returns a configuration with the same value, again made of new
    objects only. *)
Theorem get_effective_defaults_pure (h h' : store) (system_defaults r : loc)
    (instance_id : string) (template_name level : option string)
    (template_config : option loc) (kwargs : loc) (cv : config_value)
    (tmpl kw : dict) :
  value_of h system_defaults = Some cv ->
  plain cv ->
  blob_of h template_config = Some tmpl ->
  dict_at h kwargs = Some kw ->
  immutable_blob (cv_fields cv).*1 tmpl = true ->
  immutable_entries (cv_fields cv).*1
    (level_entries (cv_level_styles cv) level) = true ->
  immutable_blob (cv_fields cv).*1 kw = true ->
  get_effective_defaults h system_defaults instance_id template_name level
    template_config kwargs = Some (h', r) ->
  take (length h) h' = h
  /\ value_of h' system_defaults = Some cv
  /\ independent (length h) h' r
  /\ forall h2,
       take (length h) h2 = h ->
       exists h2' r2,
         get_effective_defaults h2 system_defaults instance_id template_name
           level template_config kwargs = Some (h2', r2)
         /\ value_of h2' r2 = value_of h' r
         /\ take (length h2) h2' = h2
         /\ independent (length h2) h2' r2.
Proof.
  intros Hcv Hp Htmpl Hkw Hit Hil Hik Hg.
  destruct (cascade_rerun _ _ _ _ instance_id template_name level
              template_config kwargs cv Hcv Hg) as (Ht & Hsd & Hf & Hlater).
  destruct (cascade_plain _ _ _ _ _ _ _ _ _ _ _ _ Hcv Hp Htmpl Hkw Hit Hil
              Hik Hg) as (cv' & Hcv' & Hp').
  split; [done|]. split; [done|].
  split; [by eapply plain_independent|].
  intros h2 Ht2.
  destruct (Hlater h2 Ht2) as (h2' & r2 & Hg2 & Hv2 & Ht2' & Hf2).
  exists h2', r2. split; [done|]. split; [done|]. split; [done|].
  apply (plain_independent _ _ _ cv'); [by rewrite Hv2|done|done].
Qed.

Lemma get_effective_defaults_pure_witness :
  take (length sample_store) sample_result.1 = sample_store
  /\ value_of sample_result.1 4 = Some default_value
  /\ independent (length sample_store) sample_result.1 sample_result.2
  /\ forall h2,
       take (length sample_store) h2 = sample_store ->
       exists h2' r2,
         get_effective_defaults h2 4 "id" (Some "default") (Some "INFO")
           (Some 5) 7 = Some (h2', r2)
         /\ value_of h2' r2 = value_of sample_result.1 sample_result.2
         /\ take (length h2) h2' = h2
         /\ independent (length h2) h2' r2.
Proof.
  apply (get_effective_defaults_pure sample_store sample_result.1 4
           sample_result.2 "id" (Some "default") (Some "INFO") (Some 5) 7
           default_value blob_unknown []).
  - vm_compute. reflexivity.
  - split; [reflexivity|]. split; [|reflexivity].
    apply (bool_decide_unpack _). vm_compute. exact I.
  - reflexivity.
  - reflexivity.
  - vm_compute. reflexivity.
  - vm_compute. reflexivity.
  - vm_compute. reflexivity.
  - vm_compute. reflexivity.
Defined.

(** C3 as stated fails: a value is stored as it is given.  With a function
    object as the color of the message field in the keyword arguments, the
    configuration returned holds that very object, which was there before
    the call and which the blob holds too; after [f.x = 1] through the
    result, a later call with the same arguments returns a configuration
    whose color has [x = 1], which the color of the first result did not
    have when it was returned. *)
Lemma get_effective_defaults_shares :
  get_effective_defaults shared_store 4 "id" None None None 6
  = Some shared_result
  /\ attr_of shared_result.1 shared_result.2 "message" "color"
     = Some (PFunc 5)
  /\ shared_result.1 !! 5 = Some (OFunction [])
  /\ ~ independent (length shared_store) shared_result.1 shared_result.2
  /\ get_effective_defaults
       (<[5 := OFunction [("x", PInt 1)]]> shared_result.1)
       4 "id" None None None 6
     = Some shared_later
  /\ attr_of shared_later.1 shared_later.2 "message" "color"
     = Some (PFunc 5)
  /\ shared_later.1 !! 5 = Some (OFunction [("x", PInt 1)]).
Proof.
  split; [by vm_compute|]. split; [by vm_compute|]. split; [by vm_compute|].
  split; [|split; [by vm_compute|split; by vm_compute]].
  intros H.
  assert (length shared_store <= 5) as Hle; [|vm_compute in Hle; lia].
  apply H. right. right. right. left.
  exists "message", "color", (PFunc 5). split; [by vm_compute|].
  simpl. set_solver.
Qed.

End SharingFacts.

(** * The template name of a path *)

Lemma rfind_bounds (c : char) (s : str) : -1 <= rfind c s < len s.
Proof.
  unfold len. induction s as [|x s IH]; simpl; [lia|].
  destruct (Z.eqb_spec (rfind c s) (-1)); [|lia].
  destruct (x =? c)%N; lia.
Qed.

Lemma rfind_absent (c : char) (s : str) : c ∉ s -> rfind c s = -1.
Proof.
  induction s as [|x s IH]; [done|]. intros Hc.
  apply not_elem_of_cons in Hc as [Hne Hc]. simpl. rewrite (IH Hc). simpl.
  destruct (N.eqb_spec x c); [congruence|done].
Qed.

Lemma rfind_present (c : char) (s : str) : c ∈ s -> 0 <= rfind c s.
Proof.
  induction s as [|x s IH]; intros Hc; [by apply elem_of_nil in Hc|].
  simpl. pose proof (rfind_bounds c s).
  destruct (Z.eqb_spec (rfind c s) (-1)) as [E|]; [|lia].
  destruct (N.eqb_spec x c) as [|Hne]; [lia|].
  apply elem_of_cons in Hc as [->|Hc]; [done|]. specialize (IH Hc). lia.
Qed.

(** The last occurrence: nothing but the tail after it is free of [c]. *)
Lemma rfind_last (c : char) (a b : str) :
  c ∉ b -> rfind c (a ++ c :: b) = len a.
Proof.
  intros Hb. unfold len. induction a as [|x a IH]; simpl.
  - rewrite (rfind_absent c b Hb). simpl. by rewrite N.eqb_refl.
  - rewrite IH. destruct (Z.eqb_spec (Z.of_nat (length a)) (-1)); lia.
Qed.

Lemma last_occurrence (c : char) (s : str) :
  c ∈ s -> exists a b, s = a ++ c :: b /\ c ∉ b.
Proof.
  induction s as [|x s IH]; intros Hc; [by apply elem_of_nil in Hc|].
  destruct (decide (c ∈ s)) as [Hin|Hnin].
  - destruct (IH Hin) as (a & b & -> & Hb). by exists (x :: a), b.
  - apply elem_of_cons in Hc as [->|Hc]; [|done]. by exists [], s.
Qed.

Lemma take_len_app (a b : str) (k : Z) :
  k = len a -> take (Z.to_nat k) (a ++ b) = a.
Proof.
  intros ->. unfold len. rewrite Nat2Z.id. by rewrite take_app_length.
Qed.

Lemma drop_len_app (a b : str) (k : Z) :
  k = len a -> drop (Z.to_nat k) (a ++ b) = b.
Proof.
  intros ->. unfold len. rewrite Nat2Z.id. by rewrite drop_app_length.
Qed.

(** A path cut at its last slash. *)
Lemma basename_split (a b : str) :
  slash ∉ b -> basename (a ++ slash :: b) = b.
Proof.
  intros Hb. unfold basename. rewrite (rfind_last _ _ _ Hb).
  change (a ++ slash :: b) with (a ++ [slash] ++ b). rewrite app_assoc.
  apply drop_len_app. rewrite len_app. by unfold len.
Qed.

Lemma basename_whole (p : str) : slash ∉ p -> basename p = p.
Proof. intros Hp. unfold basename. by rewrite (rfind_absent _ _ Hp). Qed.

Lemma dirname_whole (p : str) : slash ∉ p -> dirname p = [].
Proof. intros Hp. unfold dirname. by rewrite (rfind_absent _ _ Hp). Qed.

Lemma lstrip_char_replicate (c : char) (k : nat) (s : str) :
  head s <> Some c ->
  lstrip_char c (replicate k c ++ s) = s.
Proof.
  intros Hs. induction k as [|k IH]; simpl.
  - destruct s as [|x s]; [done|]. simpl.
    destruct (N.eqb_spec x c) as [->|]; [done|done].
  - by rewrite N.eqb_refl.
Qed.

Lemma replicate_snoc (c : char) (k : nat) :
  replicate k c ++ [c] = replicate (S k) c.
Proof. induction k as [|k IH]; simpl; [done|]. by rewrite IH. Qed.

Lemma rev_replicate (c : char) (k : nat) :
  rev (replicate k c) = replicate k c.
Proof.
  induction k as [|k IH]; [done|]. simpl. by rewrite IH, replicate_snoc.
Qed.

Lemma head_rev (s : str) : head (rev s) = last s.
Proof.
  induction s as [|x s _] using rev_ind; [done|].
  by rewrite rev_app_distr, last_snoc.
Qed.

Lemma rstrip_char_replicate (c : char) (k : nat) (s : str) :
  last s <> Some c ->
  rstrip_char c (s ++ replicate k c) = s.
Proof.
  intros Hs. unfold rstrip_char.
  rewrite rev_app_distr, rev_replicate.
  rewrite lstrip_char_replicate; [by rewrite rev_involutive|].
  by rewrite head_rev.
Qed.

Lemma last_all (c : char) (l : str) :
  Forall (fun x => x = c) l -> l <> [] -> last l = Some c.
Proof.
  induction 1 as [|y l -> Hl IH]; [done|]. intros _.
  destruct l as [|z l]; [done|]. by apply IH.
Qed.

(** The directory of a path with a last component [file] below a
    directory path that does not end in a slash. *)
Lemma dirname_split (d file : str) (k : nat) :
  last d <> Some slash -> d <> [] -> slash ∉ file ->
  dirname (d ++ replicate (S k) slash ++ file) = d.
Proof.
  intros Hlast Hne Hfile. unfold dirname.
  rewrite <- (replicate_snoc slash), <- !app_assoc. simpl.
  rewrite (app_assoc d). rewrite (rfind_last _ _ _ Hfile).
  set (head := (d ++ replicate k slash) ++ [slash]).
  assert (take (Z.to_nat (len (d ++ replicate k slash) + 1))
            ((d ++ replicate k slash) ++ slash :: file) = head) as ->.
  { change ((d ++ replicate k slash) ++ slash :: file)
      with ((d ++ replicate k slash) ++ [slash] ++ file).
    rewrite app_assoc. apply take_len_app.
    unfold head. rewrite !len_app. by unfold len. }
  assert (head = d ++ replicate (S k) slash) as Ehead.
  { unfold head. by rewrite <- app_assoc, (replicate_snoc slash). }
  assert (head <> []) as Hhead by (rewrite Ehead; by destruct d).
  assert (head <> replicate (length head) slash) as Hall.
  { rewrite Ehead. intros E.
    destruct d as [|x d]; [done|]. simpl in E. injection E as -> E.
    apply Hlast. clear Hlast Hne.
    assert (Forall (fun c => c = slash) (slash :: d)) as Hd.
    { constructor; [done|].
      assert (Forall (fun c => c = slash) (d ++ slash :: replicate k slash))
        as H by (rewrite E; apply Forall_replicate; done).
      by apply Forall_app in H as [? _]. }
    by apply last_all. }
  rewrite (bool_decide_eq_true_2 _ Hhead), (bool_decide_eq_true_2 _ Hall).
  simpl. rewrite Ehead. by apply rstrip_char_replicate.
Qed.

Lemma basename_no_slash (p : str) : slash ∉ basename p.
Proof.
  destruct (decide (slash ∈ p)) as [Hin|Hnin].
  - apply last_occurrence in Hin as (a & b & -> & Hb).
    by rewrite basename_split.
  - by rewrite basename_whole.
Qed.

Lemma last_elem (s : str) (x : char) : last s = Some x -> x ∈ s.
Proof.
  intros H. apply last_removelast in H. rewrite H.
  apply elem_of_app. right. apply list_elem_of_here.
Qed.

(** X15.  The template name of a path is the name of the directory that
    holds the file: for a path [pre name / file] (one slash or more), where
    [name] is not empty and holds no slash, [file] holds no slash, and
    [pre] is empty or ends in a slash, it is [name]. *)
Theorem template_name_directory (pre name file : str) (k : nat) :
  name <> [] -> slash ∉ name -> slash ∉ file ->
  (pre = [] \/ last pre = Some slash) ->
  _get_template_name_from_path
    (pre ++ name ++ replicate (S k) slash ++ file) = name.
Proof.
  intros Hne Hname Hfile Hpre. unfold _get_template_name_from_path.
  assert (last (pre ++ name) <> Some slash) as Hlast.
  { destruct name as [|x name] using rev_ind; [done|].
    rewrite app_assoc, last_snoc. intros [= ->]. apply Hname.
    apply elem_of_app. right. apply list_elem_of_here. }
  assert (pre ++ name <> []) as Hd by (destruct pre, name; done).
  rewrite app_assoc.
  rewrite (dirname_split (pre ++ name) file k Hlast Hd Hfile).
  destruct (pre ++ name) as [|x d] eqn:E; [done|]. rewrite <- E.
  destruct Hpre as [->|Hpre].
  - by apply basename_whole.
  - apply last_removelast in Hpre. rewrite Hpre, <- app_assoc. simpl.
    by apply basename_split.
Qed.

Lemma template_name_directory_witness :
  _get_template_name_from_path
    (lit "themes/" ++ lit "compact" ++ replicate 1 slash
     ++ lit "compact_config.j2") = lit "compact".
Proof.
  apply (template_name_directory (lit "themes/") (lit "compact")
           (lit "compact_config.j2") 0).
  - discriminate.
  - apply (bool_decide_unpack _). vm_compute. exact I.
  - apply (bool_decide_unpack _). vm_compute. exact I.
  - right. reflexivity.
Defined.

(** X16.  A template name is never a path: it holds no slash.  It is
    ['default'] for a path without a slash, and the empty string for a
    file directly under the root. *)
Theorem template_name_plain (p : str) :
  (slash ∉ _get_template_name_from_path p)
  /\ (slash ∉ p -> _get_template_name_from_path p = lit "default")
  /\ (forall k file,
        slash ∉ file -> p = replicate (S k) slash ++ file ->
        _get_template_name_from_path p = []).
Proof.
  unfold _get_template_name_from_path. split; [|split].
  - destruct (dirname p); [|apply basename_no_slash].
    apply (bool_decide_unpack _). vm_compute. exact I.
  - intros Hp. by rewrite (dirname_whole _ Hp).
  - intros k file Hfile ->.
    assert (dirname (replicate (S k) slash ++ file) = replicate (S k) slash)
      as ->.
    { unfold dirname. rewrite <- (replicate_snoc slash), <- app_assoc.
      simpl. rewrite (rfind_last _ _ _ Hfile).
      assert (take (Z.to_nat (len (replicate k slash) + 1))
                (replicate k slash ++ slash :: file)
              = replicate k slash ++ [slash]) as ->.
      { change (replicate k slash ++ slash :: file)
          with (replicate k slash ++ [slash] ++ file).
        rewrite app_assoc. apply take_len_app.
        rewrite len_app. by unfold len. }
      rewrite (replicate_snoc slash), length_replicate.
      rewrite (bool_decide_eq_false_2 (replicate (S k) slash
                                       <> replicate (S k) slash))
        by (intros H; by apply H).
      by rewrite andb_false_r. }
    change (basename (replicate (S k) slash) = []).
    rewrite <- (replicate_snoc slash).
    apply (basename_split (replicate k slash) []), not_elem_of_nil.
Qed.

(** * Wrapping again *)

Lemma consecutive_tail {A} (Q : A -> A -> Prop) (x : A) (l : list A) :
  consecutive Q (x :: l) -> consecutive Q l.
Proof. intros H i a b Ha Hb. by apply (H (S i)). Qed.

Lemma len_join_snoc (cur : list str) (w : str) :
  cur <> [] ->
  len (join [space] (cur ++ [w])) = len (join [space] cur) + 1 + len w.
Proof.
  intros Hne. rewrite join_snoc by done. rewrite !len_app.
  unfold len. simpl. lia.
Qed.

Lemma len_join_app_le (a b : list str) :
  a <> [] -> len (join [space] a) <= len (join [space] (a ++ b)).
Proof.
  intros Hne. destruct b as [|x b]; [by rewrite app_nil_r|].
  rewrite join_app by done. rewrite !len_app.
  pose proof (len_nonneg (join [space] (x :: b))). unfold len in *.
  simpl. lia.
Qed.

Section Rewrap.

Variable wcwidth : char -> Z.
Variable max_width : Z.

Local Abbreviation dw := (wcswidth wcwidth).
Local Abbreviation narrow := (Forall (fun c => wcwidth c = 1)).
Local Abbreviation good :=
  (fun g : list str =>
     g <> [] /\ Forall is_word g /\ Forall narrow g
     /\ len (join [space] g) <= max_width).

Lemma wrap_words_app (a b : list str) (st : wrap_state) :
  wrap_words wcwidth max_width (a ++ b) st
  = wrap_words wcwidth max_width a st ≫= wrap_words wcwidth max_width b.
Proof.
  revert st. induction a as [|w a IH]; intros st; [done|]. simpl.
  destruct (wrap_word wcwidth max_width st w) as [st'|]; [|done].
  simpl. apply IH.
Qed.

(** The words of a line that fits are put on one line. *)
Lemma fill_line (L : list str) (cur ws : list str) :
  cur <> [] -> Forall narrow ws ->
  len (join [space] (cur ++ ws)) <= max_width ->
  wrap_words wcwidth max_width ws
    (WrapState L (sp_line cur) (len (join [space] cur)))
  = Some (WrapState L (sp_line (cur ++ ws))
            (len (join [space] (cur ++ ws)))).
Proof.
  revert cur.
  induction ws as [|w ws IH]; intros cur Hne Hn Hlen.
  { by rewrite app_nil_r. }
  apply Forall_cons in Hn as [Hw Hws].
  simpl. unfold wrap_word. cbn [current_line current_width lines].
  rewrite (wcswidth_exact wcwidth _ Hw).
  assert (sp_line cur <> []) as Hsp by (by destruct cur).
  replace (cur ++ w :: ws) with ((cur ++ [w]) ++ ws) in *
    by (by rewrite <- app_assoc).
  pose proof (len_join_app_le (cur ++ [w]) ws ltac:(by destruct cur))
    as Hle.
  rewrite (len_join_snoc cur w Hne) in Hle.
  destruct (sp_line cur) as [|x xs] eqn:Esp; [done|]. rewrite <- Esp.
  destruct (Z.leb_spec (len (join [space] cur) + 1 + len w) max_width)
    as [_|]; [|lia].
  simpl. rewrite (sp_line_snoc cur w Hne).
  rewrite <- (len_join_snoc cur w Hne).
  apply IH; [by destruct cur|done|done].
Qed.

(** The first word of a line after a line on which it had no room. *)
Lemma start_line (L : list str) (cur : list str) (w : str) :
  cur <> [] -> narrow w -> len w <= max_width ->
  len (join [space] cur) + 1 + len w > max_width ->
  wrap_word wcwidth max_width
    (WrapState L (sp_line cur) (len (join [space] cur))) w
  = Some (WrapState (L ++ [join [space] cur]) (sp_line [w])
            (len (join [space] [w]))).
Proof.
  intros Hne Hw Hlen Hroom. unfold wrap_word.
  cbn [current_line current_width lines].
  rewrite (wcswidth_exact wcwidth _ Hw).
  assert (sp_line cur <> []) as Hsp by (by destruct cur).
  destruct (sp_line cur) as [|x xs] eqn:Esp; [done|]. rewrite <- Esp.
  destruct (Z.leb_spec (len (join [space] cur) + 1 + len w) max_width)
    as [|_]; [lia|].
  cbn [lines]. destruct (Z.gtb_spec (len w) max_width) as [|_]; [lia|].
  by rewrite sp_line_concat.
Qed.

Lemma good_first (g : list str) :
  good g ->
  exists w ws, g = w :: ws /\ narrow w /\ len w <= max_width
               /\ Forall narrow ws.
Proof.
  intros (Hne & Hwords & Hn & Hlen). destruct g as [|w ws]; [done|].
  exists w, ws. apply Forall_cons in Hn as [Hw Hws].
  split; [done|]. split; [done|]. split; [|done].
  pose proof (len_join_app_le [w] ws ltac:(done)) as Hle.
  simpl in Hle. simpl in Hlen. lia.
Qed.

(** Packed lines are wrapped into themselves. *)
Lemma rewrap_lines (groups : list (list str)) (L : list str)
    (cur : list str) :
  good cur -> Forall good groups ->
  consecutive (no_room max_width) (map (join [space]) (cur :: groups)) ->
  exists st,
    wrap_words wcwidth max_width (concat groups)
      (WrapState L (sp_line cur) (len (join [space] cur))) = Some st
    /\ wrap_finish st = L ++ map (join [space]) (cur :: groups).
Proof.
  intros Hcur Hgroups. revert L cur Hcur.
  induction Hgroups as [|g groups Hg _ IH]; intros L cur Hcur Hcons.
  - eexists. split; [done|]. unfold wrap_finish. simpl.
    destruct Hcur as (Hne & _).
    destruct (sp_line cur) as [|x xs] eqn:Esp; [by destruct cur|].
    rewrite <- Esp. by rewrite sp_line_concat.
  - destruct (good_first g Hg) as (w & ws & -> & Hw & Hlw & Hws).
    destruct Hcur as (Hne & Hcw & Hcn & Hcl).
    destruct Hg as (_ & Hgw & Hgn & Hgl).
    assert (len (join [space] cur) + 1 + len w > max_width) as Hroom.
    { destruct (Hcons 0%nat (join [space] cur) (join [space] (w :: ws))
                  eq_refl eq_refl) as (w' & rest & Hsplit & Hroom).
      rewrite split_join in Hsplit by done. by simplify_eq. }
    change (concat ((w :: ws) :: groups)) with (w :: (ws ++ concat groups)).
    cbn [wrap_words]. rewrite (start_line L cur w Hne Hw Hlw Hroom).
    simpl. rewrite wrap_words_app.
    pose proof (fill_line (L ++ [join [space] cur]) [w] ws ltac:(done) Hws
                  Hgl) as Hfill.
    simpl in Hfill. rewrite Hfill. simpl.
    destruct (IH (L ++ [join [space] cur]) (w :: ws)) as (st & Hrun & Hfin).
    { by repeat split. }
    { by eapply consecutive_tail. }
    exists st. split; [exact Hrun|].
    rewrite Hfin. by rewrite <- app_assoc.
Qed.

Lemma first_word (w : str) :
  narrow w -> len w <= max_width ->
  wrap_word wcwidth max_width wrap_init w
  = Some (WrapState [] (sp_line [w]) (len (join [space] [w]))).
Proof.
  intros Hw Hlen. unfold wrap_word.
  cbn [wrap_init current_line current_width lines].
  rewrite (wcswidth_exact wcwidth _ Hw).
  destruct (Z.leb_spec (0 + 0 + len w) max_width) as [_|]; [|lia].
  done.
Qed.

Lemma rewrap_init (groups : list (list str)) :
  Forall good groups ->
  consecutive (no_room max_width) (map (join [space]) groups) ->
  exists st,
    wrap_words wcwidth max_width (concat groups) wrap_init = Some st
    /\ wrap_finish st = map (join [space]) groups.
Proof.
  intros Hgroups Hcons. destruct groups as [|g groups].
  { by exists wrap_init. }
  apply Forall_cons in Hgroups as [Hg Hgroups].
  destruct (good_first g Hg) as (w & ws & -> & Hw & Hlw & Hws).
  change (concat ((w :: ws) :: groups)) with (w :: (ws ++ concat groups)).
  cbn [wrap_words]. rewrite (first_word w Hw Hlw), bind_some.
  rewrite wrap_words_app.
  destruct Hg as (_ & Hgw & Hgn & Hgl).
  rewrite (fill_line [] [w] ws ltac:(done) Hws Hgl), bind_some.
  destruct (rewrap_lines groups [] (w :: ws)) as (st & Hrun & Hfin);
    [by repeat split|done|done|].
  by exists st.
Qed.

End Rewrap.

(** The lines of a text whose visible characters are one column wide:
    their words, each line within the width, packed. *)
Lemma wrap_text_packed (wcwidth : char -> Z) (text : str) (max_width : Z) :
  0 < max_width ->
  wcwidth space = 1 ->
  (forall c, c ∈ text -> isspace c = false -> wcwidth c = 1) ->
  exists groups,
    _wrap_text wcwidth text max_width true
    = Some (map (join [space]) groups)
    /\ Forall (fun g => g <> [] /\ Forall is_word g
                        /\ Forall (Forall (fun c => wcwidth c = 1)) g
                        /\ len (join [space] g) <= max_width) groups
    /\ consecutive (no_room max_width) (map (join [space]) groups).
Proof.
  intros Hpos Hs Hnarrow.
  destruct (wrap_text_groups wcwidth max_width Hpos text)
    as (groups & Hrun & Hg & Hcat & Hok).
  exists groups. split; [done|].
  pose proof (groups_chars wcwidth max_width Hpos
                (fun c => wcwidth c = 1) text groups Hnarrow Hcat) as Hchars.
  split.
  - specialize (Hok Hs). rewrite Forall_map in Hok.
    rewrite Forall_forall in Hchars, Hok, Hg. apply Forall_forall.
    intros g Hin. destruct (Hg g Hin) as [Hne Hw].
    split; [done|]. split; [done|]. split; [by apply Hchars|].
    assert (wcswidth wcwidth (join [space] g) = len (join [space] g)) as Hwd.
    { apply wcswidth_exact. apply join_chars; [done|]. by apply Hchars. }
    destruct (Hok g Hin) as [Hfit|(w & _ & _ & Hc)]; [lia|].
    apply list_elem_of_lookup in Hc as [i Hi].
    destruct (chunks_sizes w (Z.to_nat max_width) i _ ltac:(lia) Hi)
      as [Hlen _].
    unfold len. lia.
  - unfold _wrap_text in Hrun.
    destruct (bool_decide (text = [])) eqn:Et; simpl in Hrun.
    { injection Hrun as <-. apply consecutive_nil. }
    destruct (Z.leb_spec max_width 0) as [|_]; [lia|].
    destruct (wrap_words wcwidth max_width (split text) wrap_init)
      as [st|] eqn:Eloop; [|done].
    simpl in Hrun. injection Hrun as <-.
    assert (greedy_inv max_width wrap_init) as Hinit.
    { split; [apply consecutive_nil|]. by split. }
    pose proof (split_from_chars (fun c => wcwidth c = 1) [] text
                  ltac:(constructor) Hnarrow) as Hwn.
    pose proof (wrap_words_greedy wcwidth max_width Hpos Hs (split text) []
                  wrap_init st [] [] (wrap_inv_init wcwidth max_width)
                  ltac:(constructor) Hinit (split_words text) Hwn Eloop)
      as (Hcons & Hcur & _).
    unfold wrap_finish.
    destruct (current_line st) as [|x xs] eqn:Eline; [done|].
    apply consecutive_snoc; [done|]. by apply Hcur.
Qed.

(** X17.  Wrapping is idempotent.  When the non-whitespace characters of
    the text and the space are one column wide, the lines of the word
    wrap, joined by spaces and wrapped again to the same width, come out
    as they are. *)
Theorem wrap_text_idempotent (wcwidth : char -> Z) (text : str)
    (max_width : Z) :
  0 < max_width ->
  wcwidth space = 1 ->
  (forall c, c ∈ text -> isspace c = false -> wcwidth c = 1) ->
  exists ls,
    _wrap_text wcwidth text max_width true = Some ls
    /\ _wrap_text wcwidth (join [space] ls) max_width true = Some ls.
Proof.
  intros Hpos Hs Hnarrow.
  destruct (wrap_text_packed wcwidth text max_width Hpos Hs Hnarrow)
    as (groups & Hrun & Hgood & Hcons).
  exists (map (join [space]) groups). split; [done|].
  assert (Forall (fun g => g <> []) groups) as Hne.
  { eapply Forall_impl; [exact Hgood|]. by intros g (? & _). }
  assert (Forall is_word (concat groups)) as Hwords.
  { apply Forall_concat. eapply Forall_impl; [exact Hgood|].
    by intros g (_ & ? & _). }
  rewrite (join_join groups Hne).
  unfold _wrap_text.
  destruct (bool_decide (join [space] (concat groups) = [])) eqn:Et.
  { apply bool_decide_eq_true in Et. simpl.
    apply (f_equal split) in Et. rewrite split_join in Et by done.
    destruct groups as [|g groups]; [done|].
    apply Forall_cons in Hne as [Hg _]. by destruct g. }
  destruct (Z.leb_spec max_width 0) as [|_]; [lia|]. simpl.
  rewrite (split_join _ Hwords).
  destruct (rewrap_init wcwidth max_width groups Hgood Hcons)
    as (st & -> & Hfin).
  simpl. by rewrite Hfin.
Qed.

Lemma wrap_text_idempotent_witness :
  exists ls,
    _wrap_text wcwidth_sample (lit " ab  abcdefgh cd e ") 3 true = Some ls
    /\ _wrap_text wcwidth_sample (join [space] ls) 3 true = Some ls.
Proof.
  apply (wrap_text_idempotent wcwidth_sample (lit " ab  abcdefgh cd e ") 3);
    [lia | reflexivity |].
  intros c Hc _. revert c Hc. apply Forall_forall.
  apply (bool_decide_unpack _). vm_compute. exact I.
Defined.

(** * What a wrapped field keeps *)

Lemma visible_blanks (n : nat) : visible (replicate n space) = [].
Proof. induction n as [|n IH]; [done|]. simpl. exact IH. Qed.

Lemma visible_align (name : field_name) (raw : str) (width : Z) :
  visible (align name raw width) = visible raw.
Proof.
  destruct name; simpl; unfold ljust, rjust;
    rewrite ?visible_app, ?visible_blanks, ?app_nil_r; done.
Qed.

(** The lines of a text hold its visible characters, and there is a line
    when the text has a word. *)
Lemma wrap_text_keeps (wcwidth : char -> Z) (text : str) (max_width : Z)
    (word_wrap : bool) :
  0 < max_width ->
  exists ls,
    _wrap_text wcwidth text max_width word_wrap = Some ls
    /\ visible (concat ls) = visible text
    /\ (split text <> [] -> ls <> []).
Proof.
  intros Hpos. destruct word_wrap.
  - destruct (wrap_text_groups wcwidth max_width Hpos text)
      as (groups & Hrun & Hg & Hcat & _).
    exists (map (join [space]) groups). split; [done|]. split.
    + rewrite <- (split_concat text).
      rewrite <- (concat_pieces wcwidth max_width (split text) Hpos).
      rewrite <- Hcat. clear Hcat Hrun.
      induction Hg as [|g groups [_ Hg] _ IH]; [done|].
      simpl. by rewrite visible_app, IH, visible_join, concat_app.
    + intros Hsplit E. apply fmap_nil_inv in E. subst groups.
      simpl in Hcat. pose proof (split_words text) as Hw.
      destruct (split text) as [|w ws]; [done|].
      apply Forall_cons in Hw as [[Hne _] _].
      pose proof (pieces_nonempty wcwidth max_width w Hpos Hne) as Hp.
      simpl in Hcat. by destruct (pieces wcwidth max_width w).
  - unfold _wrap_text. simpl.
    destruct (bool_decide (text = [])) eqn:Et; simpl.
    { apply bool_decide_eq_true in Et as ->. exists []. by repeat split. }
    apply bool_decide_eq_false in Et.
    destruct (Z.leb_spec max_width 0) as [|_]; [lia|].
    eexists. split; [done|]. split.
    + by rewrite chunks_concat by lia.
    + intros _. apply chunks_nonempty; [lia|done].
Qed.

(** The lines of a wrapped field, decorated and aligned, read one after
    the other. *)
Lemma visible_decorated (name : field_name) (lead close : str) (width : Z)
    (n : nat) (ws : list str) (k : nat) :
  ws <> [] -> (k + length ws = n)%nat ->
  visible
    (concat
       (imap (fun i line =>
                align name
                  ((if (k + i =? 0)%nat then lead else [])
                   ++ line
                   ++ (if (k + i =? n - 1)%nat then close else []))
                  width) ws))
  = visible ((if (k =? 0)%nat then lead else []) ++ concat ws ++ close).
Proof.
  revert k. induction ws as [|l ws IH]; intros k Hne Hlen; [done|].
  cbn [imap concat]. rewrite visible_app, visible_align.
  rewrite Nat.add_0_r.
  destruct ws as [|l' ws].
  - simpl in Hlen. assert ((k =? n - 1)%nat = true) as ->
      by (apply Nat.eqb_eq; lia).
    simpl. by rewrite !app_nil_r.
  - assert ((k =? n - 1)%nat = false) as ->
      by (apply Nat.eqb_neq; simpl in Hlen; lia).
    rewrite app_nil_r.
    erewrite (imap_ext _ (fun i line =>
                align name
                  ((if (S k + i =? 0)%nat then lead else [])
                   ++ line
                   ++ (if (S k + i =? n - 1)%nat then close else []))
                  width)).
    2: { intros i x _. simpl. by replace (k + S i)%nat with (S (k + i)) by lia. }
    rewrite (IH (S k)); [|done|simpl in *; lia].
    change (S k =? 0)%nat with false. cbn [concat app].
    by rewrite !visible_app, !app_assoc.
Qed.

(** X18.  A wrapped field loses nothing of its content.  For a message,
    reason or status field with [wrap] set, a width that leaves room
    between the leading and the closing character, and content with a
    word: the non-whitespace characters of the returned lines, read one
    after the other, are those of the leading character, the content and
    the closing character. *)
Theorem format_field_keeps_text (wcwidth : char -> Z) (config : LogConfig)
    (content : str) (name : field_name) (width : Z) :
  name <> Padding ->
  wrap (fields config name) = true ->
  decoration (fields config name) < width ->
  split content <> [] ->
  exists ls,
    _format_field wcwidth config content name width = Some ls
    /\ visible (concat ls)
       = visible (leading_char (fields config name) ++ content
                  ++ closing_char (fields config name)).
Proof.
  intros Hname Hwrap Hwidth Hsplit. unfold decoration in Hwidth.
  set (fc := fields config name) in *.
  set (mcw := width - len (leading_char fc) - len (closing_char fc)).
  destruct (wrap_text_keeps wcwidth content mcw (word_wrap fc)
              ltac:(unfold mcw; lia)) as (ws & Hws & Hvis & Hne).
  specialize (Hne Hsplit).
  set (out := imap (fun i line =>
                 align name
                   ((if (i =? 0)%nat then leading_char fc else [])
                    ++ line
                    ++ (if (i =? length ws - 1)%nat
                        then closing_char fc else []))
                   width) ws).
  assert (out <> []) as Hout.
  { intros E. apply (f_equal length) in E. unfold out in E.
    rewrite length_imap in E. by destruct ws. }
  assert (_format_field wcwidth config content name width
          = Some (match out with [] => [[]] | _ => out end)) as Hrun.
  { unfold _format_field, out. fold fc. fold mcw. rewrite Hwrap. simpl.
    rewrite Hws. simpl. by destruct name. }
  exists out. split; [rewrite Hrun; by destruct out|].
  unfold out.
  pose proof (visible_decorated name (leading_char fc) (closing_char fc)
                width (length ws) ws 0 Hne eq_refl) as Hd.
  cbn [Nat.add Nat.eqb] in Hd. rewrite Hd.
  by rewrite !visible_app, Hvis.
Qed.

Lemma format_field_keeps_text_witness :
  exists ls,
    _format_field wcwidth_sample bracket_config long_message Message 30
    = Some ls
    /\ visible (concat ls)
       = visible (leading_char (fields bracket_config Message)
                  ++ long_message
                  ++ closing_char (fields bracket_config Message)).
Proof.
  apply (format_field_keeps_text wcwidth_sample bracket_config long_message
           Message 30).
  - discriminate.
  - reflexivity.
  - vm_compute. reflexivity.
  - vm_compute. discriminate.
Defined.
